(** * The Lottery Round Engine of fee-lottery, embedded in Rocq

    Sources: [src/VRF.ts] (randomness protocol client, winner selector) and
    [src/worker.ts] (fee claim monitor, payout pipeline, round scheduler).

    Conventions of the embedding.
    - A JS [number] that the code computes with is taken over the finite
      values, as a rational ([Q]) or, once floored, an integer ([Z]);
      where the code adds, multiplies or divides numbers that need not be
      integers, the result is rounded as a binary64 operation rounds it
      ([double]).
    - A [BN] (bn.js big number) is an integer ([Z]); module [BN] gives the
      operations the sources call, with the assertions bn.js makes.
    - A [throw] is the [Throw] constructor of [result]; an [async] function
      whose promise rejects is a computation that ends in [Throw].
    - Calls that leave the process (RPC node, oracle, fee SDK, swap API,
      database) are answered by an environment record; what the process
      does to the outside is recorded as a list of events. *)

From Stdlib Require Import ZArith QArith Qround Qabs List Lia Bool String.
From Stdlib.Strings Require Import Byte.
Import ListNotations.
Local Open Scope string_scope.
Local Open Scope list_scope.
Local Open Scope Z_scope.

(** ** Results of calls that may throw *)

Inductive result (A : Type) : Type :=
| Ok (a : A)
| Throw (msg : string).
Arguments Ok {A} a.
Arguments Throw {A} msg.

Definition isThrow {A} (r : result A) : bool :=
  match r with Ok _ => false | Throw _ => true end.

(** ** bn.js, as far as the sources use it *)

Module BN.

(** [new BN(number)] with a JS number: bn.js asserts
    [number < 0x20000000000000] on the magnitude. *)
Definition SAFE : Z := 2 ^ 53.

Definition ofNumber (n : Z) : result Z :=
  if Z.abs n <? SAFE then Ok n else Throw "Assertion failed".

(** [a.mod(b)]: remainder of the truncated division (the sign follows the
    dividend); bn.js asserts that the divisor is not zero. *)
Definition mod_ (a b : Z) : result Z :=
  if b =? 0 then Throw "Assertion failed" else Ok (Z.rem a b).

(** [a.toNumber()]: asserts that the value fits 53 bits. *)
Definition toNumber (a : Z) : result Z :=
  if Z.abs a <? SAFE then Ok a
  else Throw "Number can only safely store up to 53 bits".

(** [new BN(bytes)] with an array of bytes: big-endian, unsigned. *)
Definition ofBytes (bs : list byte) : Z :=
  fold_left (fun acc b => acc * 256 + Z.of_N (Byte.to_N b)) bs 0.

End BN.

(** ** Winner Selector ([selectWinnerFromTraders], VRF.ts) *)

Record TraderVolume : Type := mkTrader {
  walletAddress : string;
  volumeUsd : Q
}.

Record Selection : Type := mkSelection {
  winner : string;
  winnerIndex : nat;
  totalWeight : Z;
  selectionValue : Z
}.

(** Which console line the selector wrote before returning. *)
Inductive SelectorLog : Type :=
| LogWinnerSelected
| WarnFallbackWinner.

(** [Math.max(1, Math.floor(trader.volumeUsd))] *)
Definition weightOf (t : TraderVolume) : Z :=
  Z.max 1 (Qfloor (volumeUsd t)).

Definition weightsOf (traders : list TraderVolume) : list Z :=
  map weightOf traders.

(** [weights.reduce((sum, weight) => sum + weight, 0)].  The weights are
    integers, so the sum of the doubles is this integer as long as it stays
    below 2^53; a sum that reaches 2^53, rounded or not, is refused by
    [BN.ofNumber] before it is used. *)
Definition sumWeights (weights : list Z) : Z :=
  fold_left (fun sum weight => sum + weight) weights 0.

(** The [for] loop: [cumulativeWeight += weights[i]] and return at the first
    [i] with [selectionValue < cumulativeWeight]; [None] when the loop ends
    without returning. *)
Fixpoint walk (weights : list Z) (selection cumulativeWeight : Z) (i : nat)
  : option nat :=
  match weights with
  | [] => None
  | w :: rest =>
      let cumulativeWeight' := cumulativeWeight + w in
      if selection <? cumulativeWeight' then Some i
      else walk rest selection cumulativeWeight' (S i)
  end.

(** [traders[i].walletAddress]; reading a field of [undefined] throws. *)
Definition addressAt (traders : list TraderVolume) (i : nat) : result string :=
  match nth_error traders i with
  | Some t => Ok (walletAddress t)
  | None => Throw "TypeError: Cannot read properties of undefined"
  end.

Definition selectWinnerFromTraders (traders : list TraderVolume) (randomValue : Z)
  : result (SelectorLog * Selection) :=
  match traders with
  | [] => Throw "No traders provided."
  | _ :: _ =>
      let weights := weightsOf traders in
      let total := sumWeights weights in
      match BN.ofNumber total with
      | Throw m => Throw m
      | Ok bnTotal =>
        match BN.mod_ randomValue bnTotal with
        | Throw m => Throw m
        | Ok r =>
          match BN.toNumber r with
          | Throw m => Throw m
          | Ok sel =>
            match walk weights sel 0 0 with
            | Some i =>
                match addressAt traders i with
                | Ok a => Ok (LogWinnerSelected, mkSelection a i total sel)
                | Throw m => Throw m
                end
            | None =>
                let lastIndex := (List.length traders - 1)%nat in
                match addressAt traders lastIndex with
                | Ok a => Ok (WarnFallbackWinner, mkSelection a lastIndex total sel)
                | Throw m => Throw m
                end
            end
          end
        end
      end
  end.

(** The selection values the draw can take for a given total weight. *)
Definition selections (total : Z) : list Z :=
  map Z.of_nat (seq 0 (Z.to_nat total)).

(** Whether [selectWinnerFromTraders], called with the random value
    [randomValue], returns from inside its loop with trader [i]. *)
Definition selects (traders : list TraderVolume) (i : nat) (randomValue : Z)
  : bool :=
  match selectWinnerFromTraders traders randomValue with
  | Ok (LogWinnerSelected, selection) => Nat.eqb (winnerIndex selection) i
  | _ => false
  end.

(** How many of the selection values of [0, totalWeight) make
    [selectWinnerFromTraders] return trader [i]. *)
Definition picks (traders : list TraderVolume) (i : nat) : nat :=
  List.length (filter (selects traders i)
                 (selections (sumWeights (weightsOf traders)))).

(** [cumulativeWeight] after [n] rounds of the loop. *)
Definition cumulativeAt (weights : list Z) (n : nat) : Z :=
  sumWeights (firstn n weights).

Definition traderA100 : TraderVolume := mkTrader "A" (100 # 1).
Definition traderB300 : TraderVolume := mkTrader "B" (300 # 1).
Definition traderSmall : TraderVolume := mkTrader "A" (4 # 10).

(** A single trader whose floored volume is 2^53. *)
Definition traderHuge : TraderVolume := mkTrader "A" (9007199254740992 # 1).

(** ** The process, its surroundings, and computations that may throw *)

(** What the process does to the outside, in order. *)
Inductive Event : Type :=
  (* fee claim monitor *)
| EvClaimPhase                          (* console: creating claim transactions *)
| EvClaimRequested (position : nat)     (* sdk.fee.getClaimTransaction called *)
| EvClaimSent (position tx : nat)       (* sendTransaction returned a signature *)
| EvClaimConfirmed (position tx : nat)  (* confirmed without error *)
| EvClaimTxError (position tx : nat)    (* console.error: failed to send transaction *)
| EvClaimDone                           (* console: fee claiming process completed *)
| EvUnexpected (msg : string)           (* console.error: unexpected error occurred *)
  (* randomness protocol *)
| EvCreate (account : nat)              (* create-and-fund transaction confirmed *)
| EvCommit (account : nat)              (* commit transaction confirmed *)
| EvLoad (account : nat)                (* randomness.loadData() *)
| EvFulfilled (account attempt : nat)   (* console: randomness fulfilled on attempt *)
| EvReveal (account : nat)              (* reveal transaction confirmed *)
| EvSleep (ms : Z)
| EvAttemptFailed (attempt : nat) (msg : string)
  (* payout pipeline *)
| EvPayout (winnerKey : string) (lamports : Z)
| EvSwap (lamports : Q)
| EvBurn (amount : Z)
| EvNoTokensToBurn
| EvReceipt (potSize : Q) (winnerKey : string) (burnAmount : Z)
| EvPipelineError (msg : string)
  (* scheduler *)
| EvSkipTick
| EvStatus (potSize : Q) (running : bool)
| EvRoundFailed (msg : string)          (* console.error: lottery processing failed *)
| EvTickError (msg : string).           (* console.error: error in main loop *)

(** The module-level variables of worker.ts ([isLotteryRunning],
    [currentPotSize]) and of VRF.ts ([sbProgram], [queueAccount], here
    whether they have been set), the number of randomness key pairs
    generated, the number of account reads answered, and the events. *)
Record World : Type := mkWorld {
  isLotteryRunning : bool;
  currentPotSize : Q;
  sbProgram : bool;
  queueAccount : bool;
  keypairs : nat;
  reads : nat;
  trace : list Event
}.

Definition M (A : Type) : Type := World -> result A * World.

Definition ret {A} (a : A) : M A := fun w => (Ok a, w).

Definition throw {A} (msg : string) : M A := fun w => (Throw msg, w).

Definition bind {A B} (c : M A) (k : A -> M B) : M B :=
  fun w => match c w with
           | (Ok a, w') => k a w'
           | (Throw m, w') => (Throw m, w')
           end.

(** [try { c } catch (err) { h err }] *)
Definition tryCatch {A} (c : M A) (h : string -> M A) : M A :=
  fun w => match c w with
           | (Ok a, w') => (Ok a, w')
           | (Throw m, w') => h m w'
           end.

(** [try { c } finally { f }], for an [f] that does not throw. *)
Definition tryFinally {A} (c : M A) (f : World -> World) : M A :=
  fun w => let (r, w') := c w in (r, f w').

Declare Scope monad_scope.
Delimit Scope monad_scope with monad.
Notation "x <- c ;; k" := (bind c (fun x => k))
  (at level 100, c at next level, right associativity) : monad_scope.
Notation "c ;;; k" := (bind c (fun _ => k))
  (at level 100, right associativity) : monad_scope.
Local Open Scope monad_scope.

Definition gets {A} (f : World -> A) : M A := fun w => (Ok (f w), w).

Definition modify (f : World -> World) : M unit := fun w => (Ok tt, f w).

Definition setRunning (b : bool) (w : World) : World :=
  mkWorld b (currentPotSize w) (sbProgram w) (queueAccount w)
          (keypairs w) (reads w) (trace w).

Definition setPot (p : Q) (w : World) : World :=
  mkWorld (isLotteryRunning w) p (sbProgram w) (queueAccount w)
          (keypairs w) (reads w) (trace w).

Definition record (e : Event) (w : World) : World :=
  mkWorld (isLotteryRunning w) (currentPotSize w) (sbProgram w)
          (queueAccount w) (keypairs w) (reads w) (trace w ++ [e]).

Definition emit (e : Event) : M unit := modify (record e).

(** An answer of the outside: a value, or an error that the call throws. *)
Definition lift {A} (r : result A) : M A := fun w => (r, w).

(** [try { c } catch (err) { throw new Error(prefix + err.message) }] *)
Definition rethrowAs {A} (prefix : string) (c : M A) : M A :=
  tryCatch c (fun m => throw (prefix ++ m)%string).

(** ** Randomness Protocol Client (VRF.ts) *)

Record Round : Type := mkRound {
  roundResult : option (list byte)
}.

Record RandomnessData : Type := mkData {
  currentRound : option Round
}.

(** The answers to the calls of [requestVRF] for one randomness account. *)
Record RequestAnswers : Type := mkRequest {
  createIx : result unit;         (* Randomness.create *)
  rentExemption : result unit;    (* getMinimumBalanceForRentExemption *)
  createTx : result unit;         (* sendAndConfirmTransaction(createTx) *)
  accountInfo : result bool;      (* getAccountInfo: does the account exist *)
  commitIx : result unit;         (* randomness.commitIx *)
  commitTx : result unit          (* sendTransaction + confirmTransaction *)
}.

Record VrfEnv : Type := mkVrfEnv {
  request : nat -> RequestAnswers;
  (** [loadData account n]: the answer to the [n]-th account read. *)
  loadData : nat -> nat -> result RandomnessData;
  revealTx : nat -> result unit
}.

Definition countRead (w : World) : World :=
  mkWorld (isLotteryRunning w) (currentPotSize w) (sbProgram w)
          (queueAccount w) (keypairs w) (S (reads w)) (trace w).

Definition newKeypair (w : World) : World :=
  mkWorld (isLotteryRunning w) (currentPotSize w) (sbProgram w)
          (queueAccount w) (S (keypairs w)) (reads w) (trace w).

(** [new Randomness(sbProgram, account).loadData()] *)
Definition load (env : VrfEnv) (account : nat) : M RandomnessData :=
  n <- gets reads ;;
  modify countRead ;;;
  emit (EvLoad account) ;;;
  lift (loadData env account n).

(** [data.currentRound?.result] *)
Definition resultOf (data : RandomnessData) : option (list byte) :=
  match currentRound data with
  | Some round => roundResult round
  | None => None
  end.

(** [buffer.every((byte) => byte === 0)] *)
Definition allZero (buf : list byte) : bool :=
  forallb (fun b => Byte.eqb b x00) buf.

(** The loop of [waitForFulfillment]: [left] attempts remain, the next one
    is number [attempt]. *)
Fixpoint waitLoop (env : VrfEnv) (account : nat) (delayMs : Z)
    (left attempt : nat) : M bool :=
  match left with
  | O => ret false
  | S left' =>
      fulfilled <-
        tryCatch
          (data <- load env account ;;
           match resultOf data with
           | Some buf =>
               if negb (allZero buf)
               then emit (EvFulfilled account attempt) ;;; ret true
               else emit (EvSleep delayMs) ;;; ret false
           | None => emit (EvSleep delayMs) ;;; ret false
           end)
          (fun _ => emit (EvSleep delayMs) ;;; ret false) ;;
      if fulfilled then ret true
      else waitLoop env account delayMs left' (S attempt)
  end.

Definition waitForFulfillment (env : VrfEnv) (account : nat)
    (maxRetries : nat) (delayMs : Z) : M bool :=
  initialised <- gets sbProgram ;;
  if negb initialised
  then throw "VRF not initialized. Call initializeVRF first."
  else waitLoop env account delayMs maxRetries 1.

Definition requestVRF (env : VrfEnv) : M nat :=
  initialised <- gets (fun w => sbProgram w && queueAccount w) ;;
  if negb initialised then throw "VRF not initialized." else
  rngKp <- gets keypairs ;;
  modify newKeypair ;;;
  let answers := request env rngKp in
  rethrowAs "Failed to create randomness account: " (lift (createIx answers)) ;;;
  lift (rentExemption answers) ;;;
  rethrowAs "Failed to create randomness account on-chain: "
            (lift (createTx answers)) ;;;
  emit (EvCreate rngKp) ;;;
  found <- lift (accountInfo answers) ;;
  (if negb found then throw "Randomness account not found after create transaction"
   else ret tt) ;;;
  rethrowAs "Failed to generate commit instruction: " (lift (commitIx answers)) ;;;
  rethrowAs "VRF commit transaction failed: " (lift (commitTx answers)) ;;;
  emit (EvCommit rngKp) ;;;
  ret rngKp.

Definition revealRandomness (env : VrfEnv) (account : nat) : M unit :=
  initialised <- gets sbProgram ;;
  if negb initialised then throw "VRF not initialized." else
  lift (revealTx env account) ;;;
  emit (EvReveal account).

Definition consumeRandomness (env : VrfEnv) (account : nat) : M Z :=
  initialised <- gets sbProgram ;;
  if negb initialised then throw "VRF not initialized." else
  data <- load env account ;;
  match resultOf data with
  | None => throw "Randomness not revealed."
  | Some resultBuffer =>
      if allZero resultBuffer then throw "Randomness result empty."
      else ret (BN.ofBytes (firstn 8 resultBuffer))
  end.

(** One pass of the body of the [for] loop of [executeVRFWorkflow]. *)
Definition vrfAttempt (env : VrfEnv) : M Z :=
  account <- requestVRF env ;;
  fulfilled <- waitForFulfillment env account 30 5000 ;;
  (if negb fulfilled then throw "Oracle failed to fulfill randomness."
   else ret tt) ;;;
  revealRandomness env account ;;;
  consumeRandomness env account.

(** The loop of [executeVRFWorkflow]: [left] attempts remain, the next one
    is number [attempt]; [maxRetries] is [attempt + left - 1]. *)
Fixpoint workflowLoop (env : VrfEnv) (left attempt : nat) : M Z :=
  match left with
  | O => throw "VRF workflow failed after retries."
  | S left' =>
      tryCatch (vrfAttempt env)
        (fun err =>
           emit (EvAttemptFailed attempt err) ;;;
           match left' with
           | O => throw ("VRF workflow failed: " ++ err)%string
           | S _ =>
               emit (EvSleep (2 ^ Z.of_nat attempt * 1000)) ;;;
               workflowLoop env left' (S attempt)
           end)
  end.

Definition executeVRFWorkflow (env : VrfEnv) (maxRetries : nat) : M Z :=
  workflowLoop env maxRetries 1.

(** ** Fee Claim Monitor ([claimFeesForToken], worker.ts) *)

Record Config : Type := mkConfig {
  PROJECT_TOKEN_MINT_ADDRESS : string;
  LOTTERY_POT_THRESHOLD : Q          (* in lamports *)
}.

(** [PAYOUT_PERCENTAGE = 0.25] *)
Definition PAYOUT_PERCENTAGE : Q := 1 # 4.

(** ** JS numbers that are not integers *)

(** [2^e] *)
Definition pow2 (e : Z) : Q :=
  if 0 <=? e then inject_Z (2 ^ e) else 1 # Z.to_pos (2 ^ (- e)).

(** [floor(log2 q)] for a positive [q]. *)
Definition Qlog2 (q : Q) : Z :=
  let l := Z.log2 (Qnum q) - Z.log2 (Zpos (Qden q)) in
  if Qle_bool (pow2 l) q then l else l - 1.

(** The nearest integer, the even one of two that are equally near. *)
Definition roundHalfEven (q : Q) : Z :=
  let f := Qfloor q in
  match Qcompare (q - inject_Z f) (1 # 2) with
  | Lt => f
  | Gt => f + 1
  | Eq => if Z.even f then f else f + 1
  end.

(** The binary64 number nearest to [q] (ties to even): 53 significant
    bits, the unit in the last place not below [2^-1074], in lowest
    terms.  A result beyond the largest finite double, which the code
    would hold as [Infinity], is outside this model. *)
Definition double (q : Q) : Q :=
  if Qeq_bool q 0 then 0%Q
  else
    let a := Qabs q in
    let ulp := pow2 (Z.max (Qlog2 a - 52) (-1074)) in
    let m := roundHalfEven (a / ulp) in
    Qred (inject_Z (Z.sgn (Qnum q) * m) * ulp).

(** [x + y], [x * y] and [x / y] on JS numbers. *)
Definition jsAdd (x y : Q) : Q := double (x + y).
Definition jsMul (x y : Q) : Q := double (x * y).
Definition jsDiv (x y : Q) : Q := double (x / y).

(** A claimable position as the fee SDK reports it; an amount that is
    absent (or otherwise falsy) is [None].  The amounts are the numeric
    values the SDK reports (numbers, or strings that [Number] reads as
    finite numbers). *)
Record Position : Type := mkPosition {
  baseMint : string;
  virtualPoolClaimableAmount : option Q;
  dammPoolClaimableAmount : option Q;
  isCustomFeeVault : bool;
  customFeeVaultBalance : Q;
  customFeeVaultBps : Q
}.

(** What happens to one claim transaction between [transaction.sign] and
    the check of [confirmed.value.err]. *)
Inductive TxFate : Type :=
| SignThrows
| BlockhashThrows
| SendThrows
| ConfirmThrows
| ConfirmedWithErr
| ConfirmedOk.

Record FeeEnv : Type := mkFeeEnv {
  getAllClaimablePositions : result (list Position);
  (** [getClaimTransaction i position]: the transactions for the [i]-th
      target position, each with its fate; [None] for a null answer. *)
  getClaimTransaction : nat -> Position -> result (option (list TxFate))
}.

Definition Qltb (x y : Q) : bool := negb (Qle_bool y x).

(** The body of [targetPositions.forEach]: what one position adds to
    [currentPotSize]. *)
Definition addPosition (pot : Q) (position : Position) : Q :=
  let pot1 := match virtualPoolClaimableAmount position with
              | Some amount =>
                  let virtualAmount := double amount in   (* Number(...) *)
                  jsAdd pot virtualAmount
              | None => pot
              end in
  let pot2 := match dammPoolClaimableAmount position with
              | Some amount =>
                  let dammAmount := double amount in      (* Number(...) *)
                  jsAdd pot1 dammAmount
              | None => pot1
              end in
  if isCustomFeeVault position
  then
    let customFeeVaultBalance := double (customFeeVaultBalance position) in
    let bps := double (customFeeVaultBps position) in
    let claimableAmount :=
      jsMul customFeeVaultBalance (jsDiv bps (10000 # 1)) in
    jsAdd pot2 claimableAmount
  else pot2.

Fixpoint sumPositions (positions : list Position) : M unit :=
  match positions with
  | [] => ret tt
  | position :: rest =>
      modify (fun w => setPot (addPosition (currentPotSize w) position) w) ;;;
      sumPositions rest
  end.

(** The sum the monitor computes for a list of target positions, rounded
    as the code rounds it. *)
Definition computedPot (positions : list Position) : Q :=
  fold_left addPosition positions 0%Q.

(** The [try]/[catch] around one claim transaction. *)
Definition claimTx (i j : nat) (fate : TxFate) : M unit :=
  tryCatch
    (match fate with
     | SignThrows => throw "sign failed"
     | BlockhashThrows => throw "getLatestBlockhash failed"
     | SendThrows => throw "sendTransaction failed"
     | ConfirmThrows =>
         emit (EvClaimSent i j) ;;; throw "confirmTransaction failed"
     | ConfirmedWithErr =>
         emit (EvClaimSent i j) ;;; throw "Error confirming transaction"
     | ConfirmedOk =>
         emit (EvClaimSent i j) ;;; emit (EvClaimConfirmed i j)
     end)
    (fun _ => emit (EvClaimTxError i j)).

(** The inner [for] loop, from transaction [j] on. *)
Fixpoint claimTxs (i j : nat) (fates : list TxFate) : M unit :=
  match fates with
  | [] => ret tt
  | fate :: rest => claimTx i j fate ;;; claimTxs i (S j) rest
  end.

(** The outer [for] loop, from position [i] on. *)
Fixpoint claimPositions (env : FeeEnv) (i : nat) (positions : list Position)
  : M unit :=
  match positions with
  | [] => ret tt
  | position :: rest =>
      emit (EvClaimRequested i) ;;;
      claimTransactions <- lift (getClaimTransaction env i position) ;;
      match claimTransactions with
      | None | Some [] => claimPositions env (S i) rest
      | Some fates =>
          claimTxs i 0 fates ;;;
          claimPositions env (S i) rest
      end
  end.

Definition targetPositionsOf (tokenMint : string) (allPositions : list Position)
  : list Position :=
  filter (fun position => String.eqb (baseMint position) tokenMint) allPositions.

(** The [try] block of [claimFeesForToken]. *)
Definition claimFeesBody (cfg : Config) (env : FeeEnv) (tokenMint : string)
  : M bool :=
  allPositions <- lift (getAllClaimablePositions env) ;;
  match allPositions with
  | [] => modify (setPot 0%Q) ;;; ret false
  | _ :: _ =>
      let targetPositions := targetPositionsOf tokenMint allPositions in
      match targetPositions with
      | [] => modify (setPot 0%Q) ;;; ret false
      | _ :: _ =>
          modify (setPot 0%Q) ;;;
          sumPositions targetPositions ;;;
          pot <- gets currentPotSize ;;
          if Qltb pot (LOTTERY_POT_THRESHOLD cfg) then ret false
          else
            emit EvClaimPhase ;;;
            claimPositions env 0 targetPositions ;;;
            emit EvClaimDone ;;;
            ret true
      end
  end.

Definition claimFeesForToken (cfg : Config) (env : FeeEnv) (tokenMint : string)
  : M bool :=
  tryCatch (claimFeesBody cfg env tokenMint)
           (fun error => emit (EvUnexpected error) ;;; ret false).

(** ** Payout and Burn Pipeline ([processLottery], worker.ts) *)

Record PayoutEnv : Type := mkPayoutEnv {
  payoutTx : result unit;          (* sendAndConfirmTransaction(payoutTx) *)
  mintKey : result unit;           (* new PublicKey(PROJECT_TOKEN_MINT_ADDRESS) *)
  quote : result (option Z);       (* quoteResponse.data.outAmount *)
  swapBuild : result unit;         (* POST /swap and Transaction.from *)
  swapTx : result unit;            (* sendAndConfirmTransaction(swapTransaction) *)
  tokenBalance : result Z;         (* getTokenAccountBalance *)
  burnTx : result unit;            (* burn(...) *)
  insertReceipt : result unit      (* lotteryReceipts.insertOne *)
}.

(** [SystemProgram.transfer({ ..., lamports })] writes the amount as an
    unsigned 64-bit integer and throws for a negative one, before
    anything is sent. *)
Definition transferInstruction (lamports : Z) : result unit :=
  if lamports <? 0
  then Throw "Blob.encode[lamports] requires (length 8) Uint8Array as src"
  else Ok tt.

Definition processLottery (env : PayoutEnv) (winnerWallet : string)
    (potSize : Q) : M unit :=
  tryFinally
    (tryCatch
       (let payoutAmount := Qfloor (potSize * PAYOUT_PERCENTAGE)%Q in
        lift (transferInstruction payoutAmount) ;;;
        lift (payoutTx env) ;;;
        emit (EvPayout winnerWallet payoutAmount) ;;;
        let burnAmountInSOL := (potSize - inject_Z payoutAmount)%Q in
        rethrowAs "Invalid PROJECT_TOKEN_MINT_ADDRESS: " (lift (mintKey env)) ;;;
        outAmount <- lift (quote env) ;;
        match outAmount with
        | None => throw "Jupiter swap quote failed."
        | Some _ =>
            lift (swapBuild env) ;;;
            lift (swapTx env) ;;;
            emit (EvSwap burnAmountInSOL) ;;;
            tokensToBurn <- lift (tokenBalance env) ;;
            amount <- lift (BN.toNumber tokensToBurn) ;;
            (if 0 <? amount
             then lift (burnTx env) ;;; emit (EvBurn amount)
             else emit EvNoTokensToBurn) ;;;
            lift (insertReceipt env) ;;;
            emit (EvReceipt potSize winnerWallet tokensToBurn)
        end)
       (fun error => emit (EvPipelineError error) ;;; throw error))
    (fun w => setPot 0%Q (setRunning false w)).

(** ** Round Scheduler (the timer callback of [mainLoop], worker.ts) *)

Record Env : Type := mkEnv {
  fee : FeeEnv;
  statusUpdate : result unit;        (* lotteryStatus.updateOne *)
  (** [getTradersWallet]: it catches its own errors and returns a list,
      possibly empty. *)
  tradersWallet : list TraderVolume;
  vrf : VrfEnv;
  (** [new PublicKey(traders[winnerIndex])]: the key, or the error the
      constructor throws.  For the records that [getTradersWallet]
      returns, the constructor of web3.js answers as [publicKeyOfRecord]
      below. *)
  newPublicKey : TraderVolume -> result string;
  pay : PayoutEnv
}.

(** [randomValue.mod(new BN(traders.length)).toNumber()] and
    [new PublicKey(traders[winnerIndex])]. *)
Definition pickWinner (env : Env) (traders : list TraderVolume)
    (randomValue : Z) : M string :=
  len <- lift (BN.ofNumber (Z.of_nat (List.length traders))) ;;
  r <- lift (BN.mod_ randomValue len) ;;
  winnerIndex <- lift (BN.toNumber r) ;;
  match (if winnerIndex <? 0 then None
         else nth_error traders (Z.to_nat winnerIndex)) with
  | Some entry => lift (newPublicKey env entry)
  | None => throw "TypeError: Cannot read properties of undefined"
  end.

(** [requestVRF().then(async (vrfResult) => { ... }).catch(...)] *)
Definition lotteryRound (env : Env) (traders : list TraderVolume) : M unit :=
  tryCatch
    (randomnessAccount <- requestVRF (vrf env) ;;
     randomValue <- consumeRandomness (vrf env) randomnessAccount ;;
     winner <- pickWinner env traders randomValue ;;
     potSize <- gets currentPotSize ;;
     processLottery (pay env) winner potSize)
    (fun err =>
       emit (EvRoundFailed err) ;;;
       throw ("Failed to process lottery: " ++ err)%string).

(** One firing of the [setInterval] callback, run as one step: what other
    firings do to the shared variables while this one waits at an [await]
    is not part of it. *)
Definition tick (cfg : Config) (env : Env) : M unit :=
  running <- gets isLotteryRunning ;;
  if running then emit EvSkipTick
  else
    tryCatch
      (feesClaimed <- claimFeesForToken cfg (fee env)
                        (PROJECT_TOKEN_MINT_ADDRESS cfg) ;;
       potSize <- gets currentPotSize ;;
       flag <- gets isLotteryRunning ;;
       lift (statusUpdate env) ;;;
       emit (EvStatus potSize flag) ;;;
       if feesClaimed then
         modify (setRunning true) ;;;
         let traders := tradersWallet env in
         match traders with
         | [] =>
             modify (setPot 0%Q) ;;;
             modify (setRunning false)
         | _ :: _ => lotteryRound env traders
         end
       else ret tt)
      (fun error => emit (EvTickError error)).

(** Firings of the timer, one after the other (a firing is taken to end
    before the next one starts), each with the answers the outside gives
    during it. *)
Fixpoint runTicks (cfg : Config) (envs : list Env) (w : World) : World :=
  match envs with
  | [] => w
  | env :: rest => runTicks cfg rest (snd (tick cfg env w))
  end.

(** The process at start: [isLotteryRunning = false], [currentPotSize = 0],
    with the VRF module initialised. *)
Definition initialWorld : World := mkWorld false 0%Q true true 0 0 [].

(** ** Concrete surroundings used to run the model *)

(** A 32-byte result buffer that is still all zero. *)
Definition zeroBuffer : list byte := repeat x00 32.

(** A 32-byte result buffer whose first 8 bytes are the number 250. *)
Definition buffer250 : list byte :=
  [x00; x00; x00; x00; x00; x00; x00; xfa] ++ repeat x01 24.

Definition dataWith (buf : list byte) : RandomnessData :=
  mkData (Some (mkRound (Some buf))).

Definition requestOk : RequestAnswers :=
  mkRequest (Ok tt) (Ok tt) (Ok tt) (Ok true) (Ok tt) (Ok tt).

(** Every call succeeds and the oracle has already written 250. *)
Definition vrfFulfilled : VrfEnv :=
  mkVrfEnv (fun _ => requestOk) (fun _ _ => Ok (dataWith buffer250))
           (fun _ => Ok tt).

(** Every call succeeds; the oracle writes 250 between the first and the
    second read of the account. *)
Definition vrfFulfilledLater : VrfEnv :=
  mkVrfEnv (fun _ => requestOk)
           (fun _ n => match n with
                       | O => Ok (dataWith zeroBuffer)
                       | S _ => Ok (dataWith buffer250)
                       end)
           (fun _ => Ok tt).

(** The commit transaction of every randomness account fails. *)
Definition vrfCommitFails : VrfEnv :=
  mkVrfEnv (fun _ => mkRequest (Ok tt) (Ok tt) (Ok tt) (Ok true) (Ok tt)
                               (Throw "blockhash not found"))
           (fun _ _ => Ok (dataWith buffer250))
           (fun _ => Ok tt).

(** The VRF module before [initializeVRF] has run. *)
Definition uninitialisedWorld : World := mkWorld false 0%Q false false 0 0 [].

(** ** What a run of the claim loops leaves in the event list *)

(** The world with more events recorded and nothing else changed. *)
Definition logs (evs : list Event) (w : World) : World :=
  mkWorld (isLotteryRunning w) (currentPotSize w) (sbProgram w)
          (queueAccount w) (keypairs w) (reads w) (trace w ++ evs).

(** The events of one claim transaction: sent or not, then confirmed or
    reported as failed. *)
Definition txEvents (i j : nat) (fate : TxFate) : list Event :=
  match fate with
  | SignThrows | BlockhashThrows | SendThrows => [EvClaimTxError i j]
  | ConfirmThrows | ConfirmedWithErr => [EvClaimSent i j; EvClaimTxError i j]
  | ConfirmedOk => [EvClaimSent i j; EvClaimConfirmed i j]
  end.

Fixpoint txsEvents (i j : nat) (fates : list TxFate) : list Event :=
  match fates with
  | [] => []
  | fate :: rest => txEvents i j fate ++ txsEvents i (S j) rest
  end.

(** The transactions the SDK hands out for a position (none for a null
    answer or an error). *)
Definition transactionsOf (env : FeeEnv) (i : nat) (position : Position)
  : list TxFate :=
  match getClaimTransaction env i position with
  | Ok (Some fates) => fates
  | _ => []
  end.

(** The events of the claim loops when every transaction of every position
    is gone through, whatever its fate. *)
Fixpoint claimEvents (env : FeeEnv) (i : nat) (positions : list Position)
  : list Event :=
  match positions with
  | [] => []
  | position :: rest =>
      EvClaimRequested i :: txsEvents i 0 (transactionsOf env i position)
        ++ claimEvents env (S i) rest
  end.

(** The outcome of the outer claim loop: it stops at the first position
    for which building the transactions throws. *)
Fixpoint claimOutcome (env : FeeEnv) (i : nat) (positions : list Position)
  : result unit * list Event :=
  match positions with
  | [] => (Ok tt, [])
  | position :: rest =>
      match getClaimTransaction env i position with
      | Throw m => (Throw m, [EvClaimRequested i])
      | Ok _ =>
          let (r, evs) := claimOutcome env (S i) rest in
          (r, EvClaimRequested i
                :: txsEvents i 0 (transactionsOf env i position) ++ evs)
      end
  end.

Definition cfg1000 : Config := mkConfig "MINT" (1000 # 1).

Definition position600_400 : Position :=
  mkPosition "MINT" (Some (600 # 1)) (Some (400 # 1)) false 0%Q 0%Q.

Definition position999 : Position :=
  mkPosition "MINT" (Some (999 # 1)) None false 0%Q 0%Q.

Definition positionOther : Position :=
  mkPosition "OTHER" (Some (5000 # 1)) None false 0%Q 0%Q.

(** One target position worth exactly the threshold; its first claim
    transaction fails to confirm, the second confirms. *)
Definition feeAtThreshold : FeeEnv :=
  mkFeeEnv (Ok [positionOther; position600_400])
           (fun _ _ => Ok (Some [ConfirmedWithErr; ConfirmedOk])).

(** One target position one lamport below the threshold. *)
Definition feeBelowThreshold : FeeEnv :=
  mkFeeEnv (Ok [positionOther; position999])
           (fun _ _ => Ok (Some [ConfirmedOk])).

(** Two custom fee vaults worth 1815 * 0.5126 and 3890 * 0.0179, which is
    1000 together. *)
Definition positionVault1815 : Position :=
  mkPosition "MINT" None None true (1815 # 1) (5126 # 1).

Definition positionVault3890 : Position :=
  mkPosition "MINT" None None true (3890 # 1) (179 # 1).

Definition feeVaults : FeeEnv :=
  mkFeeEnv (Ok [positionVault1815; positionVault3890])
           (fun _ _ => Ok (Some [ConfirmedOk])).

(** The threshold is met, but building the claim transactions throws. *)
Definition feeBuildThrows : FeeEnv :=
  mkFeeEnv (Ok [position600_400])
           (fun _ _ => Throw "claim transaction could not be built").

(** The position query itself throws. *)
Definition feeQueryThrows : FeeEnv :=
  mkFeeEnv (Throw "fee SDK unreachable") (fun _ _ => Ok None).

(** The last event of a claim transaction: confirmed, or reported as
    failed. *)
Definition finalEvent (i j : nat) (fate : TxFate) : Event :=
  match fate with
  | ConfirmedOk => EvClaimConfirmed i j
  | _ => EvClaimTxError i j
  end.

(** The events recorded between [w] and a later world [w']. *)
Definition newEvents (w w' : World) : list Event :=
  skipn (List.length (trace w)) (trace w').

(** ** Surroundings for whole rounds *)

Definition payOk : PayoutEnv :=
  mkPayoutEnv (Ok tt) (Ok tt) (Ok (Some 777)) (Ok tt) (Ok tt) (Ok 5000)
              (Ok tt) (Ok tt).

(** [new PublicKey(value)] of web3.js for an entry of the list that
    [getTradersWallet] returns, a [{ walletAddress, volumeUsd }] record:
    the value has no [_bn] and is not a string, so the constructor calls
    [new BN(value)], and bn.js, given an object, asserts that
    [value.length] is a number. *)
Definition publicKeyOfRecord (entry : TraderVolume) : result string :=
  Throw "Assertion failed".

(** A tick in which every call to the outside succeeds and the oracle
    has already written the random value 250; the traders are A
    (volume 100) and B (300). *)
Definition envRound250 : Env :=
  mkEnv feeAtThreshold (Ok tt) [traderA100; traderB300] vrfFulfilled
        publicKeyOfRecord payOk.

(** The same, with an oracle that writes its result only after the first
    read of the randomness account. *)
Definition envOracleLater : Env :=
  mkEnv feeAtThreshold (Ok tt) [traderA100; traderB300] vrfFulfilledLater
        publicKeyOfRecord payOk.

(** The same, with a commit transaction that fails. *)
Definition envCommitFails : Env :=
  mkEnv feeAtThreshold (Ok tt) [traderA100; traderB300] vrfCommitFails
        publicKeyOfRecord payOk.

(** A tick in which the fees are claimed and no trader is found. *)
Definition envNoTraders : Env :=
  mkEnv feeAtThreshold (Ok tt) [] vrfFulfilled publicKeyOfRecord payOk.

(** Events that belong to waiting for the oracle and to revealing. *)
Definition awaitsOrReveals (e : Event) : bool :=
  match e with
  | EvFulfilled _ _ | EvReveal _ | EvSleep _ | EvAttemptFailed _ _ => true
  | _ => false
  end.

(** The part of a round that comes before the payout pipeline. *)
Definition beforePipeline (env : Env) (traders : list TraderVolume) : M string :=
  randomnessAccount <- requestVRF (vrf env) ;;
  randomValue <- consumeRandomness (vrf env) randomnessAccount ;;
  pickWinner env traders randomValue.


(** ** Relations between the world before and after a computation *)

(** [c] takes every world to one that is [R]-related to it, whether it
    returns or throws. *)
Definition preserves (R : World -> World -> Prop) {A} (c : M A) : Prop :=
  forall w, R w (snd (c w)).

(** [isLotteryRunning] is what it was. *)
Definition keepsFlag (w w' : World) : Prop :=
  isLotteryRunning w' = isLotteryRunning w.

(** Events were only added, none of them of waiting or revealing. *)
Definition addsQuiet (w w' : World) : Prop :=
  exists evs, trace w' = trace w ++ evs /\
              Forall (fun e => awaitsOrReveals e = false) evs.

From Stdlib Require Import Lqa.

(** ** Further surroundings for the selector *)

(** Three traders whose recorded volume is below 2 USD each. *)
Definition tradersSmall : list TraderVolume :=
  [mkTrader "A" (4 # 10); mkTrader "B" (19 # 10); mkTrader "C" (0 # 1)].

(** ** Initialisation of the VRF module ([initializeVRF], VRF.ts) *)

(** The answers to the calls of [initializeVRF].  The module variables
    [LotteryProgram] and [LotteryProgramId], which no other function of the
    sources reads, are left out of the world. *)
Record InitEnv : Type := mkInitEnv {
  programAt : result unit;        (* anchor.Program.at(sbProgramId, provider) *)
  walletBalance : result Z;       (* connection.getBalance, in lamports *)
  queueLoad : result unit;        (* queueAccount.loadData() *)
  keypairFile : bool;             (* fs.existsSync(keypairPath) *)
  walletFromFile : result unit;   (* AnchorUtils.initWalletFromFile *)
  lotteryProgram : result unit    (* new anchor.Program(idl, provider) *)
}.

Definition setSbProgram (b : bool) (w : World) : World :=
  mkWorld (isLotteryRunning w) (currentPotSize w) b (queueAccount w)
          (keypairs w) (reads w) (trace w).

Definition setQueueAccount (b : bool) (w : World) : World :=
  mkWorld (isLotteryRunning w) (currentPotSize w) (sbProgram w) b
          (keypairs w) (reads w) (trace w).

(** [0.1 * LAMPORTS_PER_SOL], which is the double 100000000. *)
Definition MIN_BALANCE : Z := 100000000.

Definition initializeVRF (env : InitEnv) : M unit :=
  lift (programAt env) ;;;
  modify (setSbProgram true) ;;;
  balance <- lift (walletBalance env) ;;
  (if balance <? MIN_BALANCE
   then throw "Insufficient wallet balance. Need at least 0.1 SOL."
   else ret tt) ;;;
  rethrowAs "Failed to load Switchboard queue: "
    (modify (setQueueAccount true) ;;; lift (queueLoad env)) ;;;
  (if negb (keypairFile env) then throw "Program keypair not found"
   else ret tt) ;;;
  lift (walletFromFile env) ;;;
  lift (lotteryProgram env).

(** ** Notions used to state what the protocol client does *)

(** The [n]-th read of the account shows a result that is present and not
    all zero. *)
Definition fulfilledAt (env : VrfEnv) (account : nat) (n : nat) : bool :=
  match loadData env account n with
  | Ok data =>
      match resultOf data with
      | Some buf => negb (allZero buf)
      | None => false
      end
  | Throw _ => false
  end.

(** The module variables of VRF.ts and the key pair counter are what they
    were. *)
Definition sameModule (w w' : World) : Prop :=
  sbProgram w' = sbProgram w /\ queueAccount w' = queueAccount w /\
  keypairs w' = keypairs w.

(** The world before [initializeVRF] has run, apart from that like
    [initialWorld]. *)
Definition initEnvOk : InitEnv :=
  mkInitEnv (Ok tt) (Ok 100000000) (Ok tt) true (Ok tt) (Ok tt).

Definition initEnvQueueFails : InitEnv :=
  mkInitEnv (Ok tt) (Ok 500000000) (Throw "queue not found") true (Ok tt) (Ok tt).

Definition initEnvPoor : InitEnv :=
  mkInitEnv (Ok tt) (Ok 99999999) (Ok tt) true (Ok tt) (Ok tt).

(** An oracle that never answers: the result stays all zero. *)
Definition vrfNeverFulfilled : VrfEnv :=
  mkVrfEnv (fun _ => requestOk) (fun _ _ => Ok (dataWith zeroBuffer))
           (fun _ => Ok tt).

Definition buffer251 : list byte :=
  [x00; x00; x00; x00; x00; x00; x00; xfb] ++ repeat x01 24.

(** ** Notions used to state what the pipeline and the scheduler do *)

(** [Math.floor(potSize * PAYOUT_PERCENTAGE)] *)
Definition payoutAmountOf (potSize : Q) : Z :=
  Qfloor (potSize * PAYOUT_PERCENTAGE)%Q.

(** [potSize - payoutAmount] *)
Definition burnBudgetOf (potSize : Q) : Q :=
  (potSize - inject_Z (payoutAmountOf potSize))%Q.

(** The result of the pipeline and the events it leaves, step by step:
    transfer instruction, payout, mint key, quote, swap, balance, burn, receipt; the first step
    that fails ends the run with the report of the error. *)
Definition pipelineOutcome (env : PayoutEnv) (winnerWallet : string)
    (potSize : Q) : result unit * list Event :=
  let paid := EvPayout winnerWallet (payoutAmountOf potSize) in
  let swapped := EvSwap (burnBudgetOf potSize) in
  let failed (done : list Event) (m : string) :=
    (@Throw unit m, done ++ [EvPipelineError m]) in
  match transferInstruction (payoutAmountOf potSize) with
  | Throw m => failed [] m
  | Ok _ =>
  match payoutTx env with
  | Throw m => failed [] m
  | Ok _ =>
    match mintKey env with
    | Throw m =>
        failed [paid] ("Invalid PROJECT_TOKEN_MINT_ADDRESS: " ++ m)%string
    | Ok _ =>
      match quote env with
      | Throw m => failed [paid] m
      | Ok None => failed [paid] "Jupiter swap quote failed."
      | Ok (Some _) =>
        match swapBuild env with
        | Throw m => failed [paid] m
        | Ok _ =>
          match swapTx env with
          | Throw m => failed [paid] m
          | Ok _ =>
            match tokenBalance env with
            | Throw m => failed [paid; swapped] m
            | Ok tokensToBurn =>
              match BN.toNumber tokensToBurn with
              | Throw m => failed [paid; swapped] m
              | Ok amount =>
                if 0 <? amount then
                  match burnTx env with
                  | Throw m => failed [paid; swapped] m
                  | Ok _ =>
                    match insertReceipt env with
                    | Throw m => failed [paid; swapped; EvBurn amount] m
                    | Ok _ =>
                        (Ok tt,
                         [paid; swapped; EvBurn amount;
                          EvReceipt potSize winnerWallet tokensToBurn])
                    end
                  end
                else
                  match insertReceipt env with
                  | Throw m => failed [paid; swapped; EvNoTokensToBurn] m
                  | Ok _ =>
                      (Ok tt,
                       [paid; swapped; EvNoTokensToBurn;
                        EvReceipt potSize winnerWallet tokensToBurn])
                  end
              end
            end
          end
        end
      end
    end
  end
  end.

(** The part of the worker an event comes from. *)
Inductive Origin : Type :=
| FromMonitor | FromVrf | FromPipeline | FromRound | FromTick.

Definition origin (e : Event) : Origin :=
  match e with
  | EvClaimPhase | EvClaimRequested _ | EvClaimSent _ _
  | EvClaimConfirmed _ _ | EvClaimTxError _ _ | EvClaimDone
  | EvUnexpected _ => FromMonitor
  | EvCreate _ | EvCommit _ | EvLoad _ | EvFulfilled _ _ | EvReveal _
  | EvSleep _ | EvAttemptFailed _ _ => FromVrf
  | EvPayout _ _ | EvSwap _ | EvBurn _ | EvNoTokensToBurn
  | EvReceipt _ _ _ | EvPipelineError _ => FromPipeline
  | EvRoundFailed _ => FromRound
  | EvSkipTick | EvStatus _ _ | EvTickError _ => FromTick
  end.

Definition ofMonitor (o : Origin) : bool :=
  match o with FromMonitor => true | _ => false end.

Definition ofRound (o : Origin) : bool :=
  match o with FromVrf | FromPipeline | FromRound => true | _ => false end.

(** Events were only added, all of them from the parts [ok] admits. *)
Definition addsFrom (ok : Origin -> bool) (w w' : World) : Prop :=
  exists evs, trace w' = trace w ++ evs /\
              Forall (fun e => ok (origin e) = true) evs.

(** The randomness protocol was not used: no key pair generated, no
    account read. *)
Definition noVrfUse (w w' : World) : Prop :=
  keypairs w' = keypairs w /\ reads w' = reads w.

(** The swap quote comes back without an output amount. *)
Definition payNoQuote : PayoutEnv :=
  mkPayoutEnv (Ok tt) (Ok tt) (Ok None) (Ok tt) (Ok tt) (Ok 5000)
              (Ok tt) (Ok tt).

(** The fees are below the threshold. *)
Definition envBelowThreshold : Env :=
  mkEnv feeBelowThreshold (Ok tt) [traderA100; traderB300] vrfFulfilled
        publicKeyOfRecord payOk.


(** Events of every part but the payout pipeline. *)
Definition notPipeline (o : Origin) : bool :=
  match o with FromPipeline => false | _ => true end.

From Stdlib Require Import Sorted Permutation.

(** ** Trader volume lookup ([getTradersWallet], the second file of VRF.ts) *)

(** A swap as the API reports it; [totalValueUsd] is [None] when the field
    is not a number.  The elements of [result] are taken to be objects, as
    the interface [Swap] says. *)
Record Swap : Type := mkSwap {
  swapWallet : string;
  totalValueUsd : option Q
}.

(** A page of swaps; the cursor is [None] for [null]. *)
Record ApiResponse : Type := mkResponse {
  respCursor : option string;
  respResult : list Swap
}.

(** What one HTTP request can come to inside [fetchSwaps]. *)
Inductive HttpAnswer : Type :=
| FetchThrows                          (* fetch rejects *)
| HttpStatus (status : Z)              (* !response.ok *)
| BodyInvalid                          (* json() throws or the shape is wrong *)
| Page (response : ApiResponse).

(** [{ result: [], cursor: null }] *)
Definition emptyResponse : ApiResponse := mkResponse None [].

(** The [for] loop of [fetchSwaps]: [left] attempts remain, [call] is the
    number of the next request.  The answer of the API may depend on the
    cursor asked for and on when it is asked.  Returns the response and the
    number of the request after the last one made. *)
Fixpoint fetchLoop (http : string -> nat -> HttpAnswer) (cursor : string)
    (call left : nat) : ApiResponse * nat :=
  match left with
  | O => (emptyResponse, call)
  | S left' =>
      let last := match left' with O => true | S _ => false end in
      (* the [catch] block *)
      let caught :=
        if last then (emptyResponse, S call)
        else fetchLoop http cursor (S call) left' in
      match http cursor call with
      | FetchThrows => caught
      | HttpStatus status =>
          if status =? 401 then
            if last then caught                         (* throw *)
            else fetchLoop http cursor (S call) left'   (* continue *)
          else caught
      | BodyInvalid => caught
      | Page response => (response, S call)
      end
  end.

(** [fetchSwaps(fromDate, toDate, cursor)] with its default [retries = 2].
    The [await import('node-fetch')] stands before the loop and outside
    its [try]: when the module cannot be loaded ([fetchLoads = false]),
    the call throws before any request is made. *)
Definition fetchSwaps (fetchLoads : bool) (http : string -> nat -> HttpAnswer)
    (cursor : string) (call : nat) : result (ApiResponse * nat) :=
  if fetchLoads then Ok (fetchLoop http cursor call 2)
  else Throw "Cannot find module 'node-fetch'".

(** A JS [Map] with string keys, which keeps the keys in the order of
    their first insertion. *)

Fixpoint mapGet {V : Type} (m : list (string * V)) (k : string) : option V :=
  match m with
  | [] => None
  | (k', v) :: rest => if String.eqb k' k then Some v else mapGet rest k
  end.

Fixpoint mapSet {V : Type} (m : list (string * V)) (k : string) (v : V)
  : list (string * V) :=
  match m with
  | [] => [(k, v)]
  | (k', v') :: rest =>
      if String.eqb k' k then (k', v) :: rest else (k', v') :: mapSet rest k v
  end.

(** [walletVolumeMap] *)
Definition VolumeMap : Type := list (string * Q).

(** The body of [data.result.forEach].  [plus] is the addition of JS
    numbers, which rounds; nothing is assumed about it. *)
Definition addSwap (plus : Q -> Q -> Q) (m : VolumeMap) (swap : Swap)
  : VolumeMap :=
  match totalValueUsd swap with
  | Some value =>
      if String.eqb (swapWallet swap) "" then m
      else
        let currentVolume :=
          match mapGet m (swapWallet swap) with
          | Some v => v
          | None => 0%Q
          end in
        mapSet m (swapWallet swap) (plus currentVolume value)
  | None => m
  end.

(** [data.cursor || ''] *)
Definition cursorOf (data : ApiResponse) : string :=
  match respCursor data with
  | Some c => c
  | None => ""
  end.

(** How the loop of [collectWallets] is left, with the map then: at the
    end of the [do ... while], or by an error that the [catch] of
    [collectWallets] takes. *)
Inductive CollectEnd : Type :=
| LoopDone (m : VolumeMap)
| LoopThrew (m : VolumeMap).

(** The [do ... while (cursor)] loop of [collectWallets].  The source has
    no bound on the number of pages; [fuel] bounds them here, and [None]
    says that the loop has not ended within [fuel] pages. *)
Fixpoint collectLoop (plus : Q -> Q -> Q) (fetchLoads : bool)
    (http : string -> nat -> HttpAnswer) (fuel : nat) (cursor : string)
    (call : nat) (m : VolumeMap) : option CollectEnd :=
  match fuel with
  | O => None
  | S fuel' =>
      match fetchSwaps fetchLoads http cursor call with
      | Throw _ => Some (LoopThrew m)
      | Ok (data, call') =>
          let m' := fold_left (addSwap plus) (respResult data) m in
          let cursor' := cursorOf data in
          if String.eqb cursor' "" then Some (LoopDone m')
          else collectLoop plus fetchLoads http fuel' cursor' call' m'
      end
  end.

(** [entries.sort((a, b) => volume b - volume a)]: the sort is stable, so
    the result is the one of inserting each entry before the first one
    that does not have a larger volume. *)
Fixpoint insertByVolume {A : Type} (volumeOf : A -> Q) (x : A) (l : list A)
  : list A :=
  match l with
  | [] => [x]
  | y :: rest =>
      if Qltb (volumeOf x) (volumeOf y)
      then y :: insertByVolume volumeOf x rest
      else x :: y :: rest
  end.

Definition sortByVolume {A : Type} (volumeOf : A -> Q) (l : list A) : list A :=
  fold_right (insertByVolume volumeOf) [] l.

(** [.sort(...).slice(0, topN)], for a [topN] that is a natural number. *)
Definition topByVolume {A : Type} (volumeOf : A -> Q) (topN : nat)
    (l : list A) : list A :=
  firstn topN (sortByVolume volumeOf l).

Definition traderOfEntry (entry : string * Q) : TraderVolume :=
  mkTrader (fst entry) (snd entry).

(** [collectWallets()]: the ranking of the map when the loop has ended;
    in the [catch], the ranking of what the map holds, or the empty list
    when it holds nothing. *)
Definition collectWallets (plus : Q -> Q -> Q) (topN : nat) (fetchLoads : bool)
    (http : string -> nat -> HttpAnswer) (fuel : nat)
  : option (list TraderVolume) :=
  match collectLoop plus fetchLoads http fuel "" 0 [] with
  | None => None
  | Some (LoopDone m) => Some (map traderOfEntry (topByVolume snd topN m))
  | Some (LoopThrew m) =>
      if (0 <? List.length m)%nat
      then Some (map traderOfEntry (topByVolume snd topN m))
      else Some []
  end.

(** [getTradersWallet(tokenAddress, apiKey, intervalHours, network, topN)].
    [fetchLoads] says whether [import('node-fetch')] succeeds. *)
Definition getTradersWallet (plus : Q -> Q -> Q) (tokenAddress apiKey : string)
    (topN : nat) (fetchLoads : bool) (http : string -> nat -> HttpAnswer)
    (fuel : nat) : option (list TraderVolume) :=
  if String.eqb apiKey "" then Some []
  else if String.eqb tokenAddress "" then Some []
  else collectWallets plus topN fetchLoads http fuel.

(** *** Notions used to state what the lookup returns *)

(** The swaps the loop goes through when [fetchSwaps] can make its
    requests. *)
Fixpoint swapsRead (http : string -> nat -> HttpAnswer) (fuel : nat)
    (cursor : string) (call : nat) : list Swap :=
  match fuel with
  | O => []
  | S fuel' =>
      let (data, call') := fetchLoop http cursor call 2 in
      if String.eqb (cursorOf data) "" then respResult data
      else respResult data ++ swapsRead http fuel' (cursorOf data) call'
  end.

(** The values of the swaps of [wallet] that count, in order. *)
Definition valuesOf (wallet : string) (swaps : list Swap) : list Q :=
  flat_map (fun swap =>
              match totalValueUsd swap with
              | Some value =>
                  if String.eqb (swapWallet swap) wallet then [value] else []
              | None => []
              end) swaps.

(** [0 + v1 + v2 + ...], added in this order. *)
Definition sumFromZero (plus : Q -> Q -> Q) (values : list Q) : Q :=
  fold_left plus values 0%Q.

(** Volumes do not increase along the list. *)
Definition descending {A : Type} (volumeOf : A -> Q) (l : list A) : Prop :=
  StronglySorted (fun a b => (volumeOf b <= volumeOf a)%Q) l.

(** An API with two pages: it first answers 401, then serves the first
    page, which names the cursor "c2". *)
Definition pageOne : ApiResponse :=
  mkResponse (Some "c2")
    [mkSwap "A" (Some (100 # 1)); mkSwap "B" (Some (50 # 1));
     mkSwap "" (Some (7 # 1)); mkSwap "C" None].

Definition pageTwo : ApiResponse :=
  mkResponse None
    [mkSwap "B" (Some (250 # 1)); mkSwap "C" (Some (3 # 1));
     mkSwap "A" (Some (5 # 2))].

Definition httpTwoPages (cursor : string) (n : nat) : HttpAnswer :=
  if String.eqb cursor ""
  then match n with
       | O => HttpStatus 401
       | _ => Page pageOne
       end
  else Page pageTwo.

(** An API that is down. *)
Definition httpDown (cursor : string) (n : nat) : HttpAnswer := FetchThrows.

(** What the map keeps while swaps are added: distinct keys, none empty. *)
Definition wellKeyed {V : Type} (m : list (string * V)) : Prop :=
  NoDup (map fst m) /\ Forall (fun e => fst e <> "") m.

(** Adding to the total of a wallet that may not have one yet. *)
Definition addTo (plus : Q -> Q -> Q) (acc : option Q) (value : Q)
  : option Q :=
  Some (plus match acc with Some v => v | None => 0%Q end value).


(** An API whose pages always name a next page. *)
Definition httpEndless (cursor : string) (n : nat) : HttpAnswer :=
  Page (mkResponse (Some "next") [mkSwap "A" (Some (1 # 1))]).

(** An API that serves the first page twice and the last page from then
    on. *)
Definition httpLastFromTwo (cursor : string) (n : nat) : HttpAnswer :=
  match n with
  | O | S O => Page pageOne
  | _ => Page pageTwo
  end.

(** The map with which the loop is left. *)
Definition mapAtLoopEnd (e : CollectEnd) : VolumeMap :=
  match e with
  | LoopDone m => m
  | LoopThrew m => m
  end.

(** ** Leaderboard lookup ([CollectWallet], CollectWallet.ts) *)

(** A swap as the API reports it ([TokenData]), with the three fields the
    function reads: [transactionHash], [walletAddress] and [totalValueUsd]
    ([None] when it is not a number). *)
Record TokenData : Type := mkTokenData {
  tokenTransactionHash : string;
  tokenWalletAddress : string;
  tokenTotalValueUsd : option Q
}.

(** The body of a response: [cursor] ([None] when absent) and [result]. *)
Record TokenPage : Type := mkTokenPage {
  pageCursor : option string;
  pageResult : list TokenData
}.

(** The value kept for a wallet: [{ volumeUsd, transactionHash }]. *)
Record WalletTotal : Type := mkWalletTotal {
  totalVolumeUsd : Q;
  lastTransactionHash : string
}.

(** An entry of the result:
    [{ walletAddress, volumeUsd, transactionHash }]. *)
Record LeaderboardEntry : Type := mkLeaderboardEntry {
  leaderWalletAddress : string;
  leaderVolumeUsd : Q;
  leaderTransactionHash : string
}.

(** [const topN = 10] of CollectWallet.ts. *)
Definition leaderboardTopN : nat := 10.

(** The body of [data.result.forEach]. *)
Definition addTokenData (plus : Q -> Q -> Q) (m : list (string * WalletTotal))
    (swap : TokenData) : list (string * WalletTotal) :=
  match tokenTotalValueUsd swap with
  | Some value =>
      if String.eqb (tokenWalletAddress swap) "" then m
      else
        match mapGet m (tokenWalletAddress swap) with
        | Some existing =>
            mapSet m (tokenWalletAddress swap)
              (mkWalletTotal (plus (totalVolumeUsd existing) value)
                 (tokenTransactionHash swap))
        | None =>
            mapSet m (tokenWalletAddress swap)
              (mkWalletTotal value (tokenTransactionHash swap))
        end
  | None => m
  end.

(** How the [do ... while (cursor)] loop is left, with the map then. *)
Inductive LoopEnd : Type :=
| Completed (m : list (string * WalletTotal))
| Thrown (m : list (string * WalletTotal)).

(** [data.cursor], as the loop condition reads it. *)
Definition pageCursorOf (data : TokenPage) : string :=
  match pageCursor data with
  | Some c => c
  | None => ""
  end.

(** The loop: one request per page, [None] from [http] when the request
    throws ([fetch] rejects, [json()] fails, the status is not ok, or
    [result] cannot be gone through).  The source has no bound on the
    number of pages; [fuel] bounds them here. *)
Fixpoint pageLoop (plus : Q -> Q -> Q) (http : string -> nat -> option TokenPage)
    (fuel : nat) (cursor : string) (call : nat)
    (m : list (string * WalletTotal)) : option LoopEnd :=
  match fuel with
  | O => None
  | S fuel' =>
      match http cursor call with
      | None => Some (Thrown m)
      | Some data =>
          let m' := fold_left (addTokenData plus) (pageResult data) m in
          let cursor' := pageCursorOf data in
          if String.eqb cursor' "" then Some (Completed m')
          else pageLoop plus http fuel' cursor' (S call) m'
      end
  end.

Definition leaderOfEntry (entry : string * WalletTotal) : LeaderboardEntry :=
  mkLeaderboardEntry (fst entry) (totalVolumeUsd (snd entry))
    (lastTransactionHash (snd entry)).

(** [Array.from(entries).sort(...).slice(0, topN).map(...)] *)
Definition leaderboardOf (m : list (string * WalletTotal))
  : list LeaderboardEntry :=
  map leaderOfEntry
    (topByVolume (fun entry => totalVolumeUsd (snd entry)) leaderboardTopN m).

(** [CollectWallet()]; [apiKey] is [process.env.MORALIS_API_KEY?.trim()],
    empty when the variable is not set. *)
Definition CollectWallet (plus : Q -> Q -> Q) (apiKey : string)
    (http : string -> nat -> option TokenPage) (fuel : nat)
  : option (list LeaderboardEntry) :=
  if String.eqb apiKey "" then Some []   (* thrown with an empty map *)
  else
    match pageLoop plus http fuel "" 0 [] with
    | None => None
    | Some (Completed m) => Some (leaderboardOf m)
    | Some (Thrown m) =>
        if (0 <? List.length m)%nat then Some (leaderboardOf m) else Some []
    end.

(** *** Notions used to state what the leaderboard holds *)

(** The swaps gone through before the loop is left. *)
Fixpoint tokensRead (http : string -> nat -> option TokenPage) (fuel : nat)
    (cursor : string) (call : nat) : list TokenData :=
  match fuel with
  | O => []
  | S fuel' =>
      match http cursor call with
      | None => []
      | Some data =>
          if String.eqb (pageCursorOf data) "" then pageResult data
          else pageResult data
               ++ tokensRead http fuel' (pageCursorOf data) (S call)
      end
  end.

(** The swaps of [wallet] that count, in order: value and hash. *)
Definition countedOf (wallet : string) (swaps : list TokenData)
  : list (Q * string) :=
  flat_map (fun swap =>
              match tokenTotalValueUsd swap with
              | Some value =>
                  if String.eqb (tokenWalletAddress swap) wallet
                  then [(value, tokenTransactionHash swap)] else []
              | None => []
              end) swaps.

(** [v1 + v2 + ...], added in this order. *)
Definition sumOfValues (plus : Q -> Q -> Q) (values : list Q) : Q :=
  match values with
  | [] => 0%Q
  | first :: others => fold_left plus others first
  end.

(** One more swap for a wallet that may not have a total yet. *)
Definition countSwap (plus : Q -> Q -> Q) (acc : option WalletTotal)
    (swap : Q * string) : option WalletTotal :=
  Some (match acc with
        | Some existing =>
            mkWalletTotal (plus (totalVolumeUsd existing) (fst swap)) (snd swap)
        | None => mkWalletTotal (fst swap) (snd swap)
        end).

(** The map at the end of the loop, however it is left. *)
Definition mapAtEnd (e : LoopEnd) : list (string * WalletTotal) :=
  match e with
  | Completed m => m
  | Thrown m => m
  end.

(** An API with two pages and a failure on the third request. *)
Definition leaderPages (cursor : string) (n : nat) : option TokenPage :=
  match n with
  | O => Some (mkTokenPage (Some "p2")
                 [mkTokenData "h1" "A" (Some (100 # 1));
                  mkTokenData "h2" "B" (Some (50 # 1));
                  mkTokenData "h3" "" (Some (7 # 1))])
  | S O => Some (mkTokenPage (Some "p3")
                   [mkTokenData "h4" "A" (Some (5 # 2));
                    mkTokenData "h5" "C" None])
  | _ => None
  end.
(** * Properties of the Winner Selector *)

Section WalkFacts.

Lemma fold_add_shift (ws : list Z) (a : Z) :
  fold_left (fun sum weight => sum + weight) ws a = a + sumWeights ws.
Proof.
  unfold sumWeights. revert a.
  induction ws as [|w ws IH]; intros a; simpl; [lia|].
  rewrite (IH (a + w)), (IH w). lia.
Qed.

Lemma sumWeights_cons (w : Z) (ws : list Z) :
  sumWeights (w :: ws) = w + sumWeights ws.
Proof. unfold sumWeights at 1. simpl. apply fold_add_shift. Qed.

Lemma weightOf_pos (t : TraderVolume) : 1 <= weightOf t.
Proof. unfold weightOf. lia. Qed.

Lemma weightsOf_pos (traders : list TraderVolume) :
  Forall (fun w => 1 <= w) (weightsOf traders).
Proof.
  unfold weightsOf. apply Forall_forall. intros w Hw.
  apply in_map_iff in Hw. destruct Hw as [t [<- _]]. apply weightOf_pos.
Qed.

Lemma sumWeights_nonneg (ws : list Z) :
  Forall (fun w => 1 <= w) ws -> 0 <= sumWeights ws.
Proof.
  induction 1 as [|w ws Hw _ IH]; [unfold sumWeights; simpl; lia|].
  rewrite sumWeights_cons. lia.
Qed.

Lemma Forall_firstn_pos (ws : list Z) (n : nat) :
  Forall (fun w => 1 <= w) ws -> Forall (fun w => 1 <= w) (firstn n ws).
Proof.
  intros H. revert n. induction H as [|w ws Hw _ IH]; intros [|n]; simpl;
    auto.
Qed.

Lemma sumWeights_ge_length (ws : list Z) :
  Forall (fun w => 1 <= w) ws -> Z.of_nat (List.length ws) <= sumWeights ws.
Proof.
  induction 1 as [|w ws Hw _ IH]; [unfold sumWeights; simpl; lia|].
  rewrite sumWeights_cons. simpl List.length. lia.
Qed.

Lemma cumulativeAt_mono (ws : list Z) (n : nat) :
  Forall (fun w => 1 <= w) ws -> cumulativeAt ws n <= sumWeights ws.
Proof.
  intros H. revert n. induction H as [|w ws Hw Hws IH]; intros [|n];
    unfold cumulativeAt in *; simpl firstn.
  - lia.
  - lia.
  - rewrite sumWeights_cons. pose proof (sumWeights_nonneg ws Hws).
    unfold sumWeights at 1. simpl. lia.
  - rewrite !sumWeights_cons. specialize (IH n). lia.
Qed.

Lemma cumulativeAt_all (ws : list Z) :
  cumulativeAt ws (List.length ws) = sumWeights ws.
Proof. unfold cumulativeAt. now rewrite firstn_all. Qed.

Lemma cumulativeAt_S (ws : list Z) (n : nat) :
  (n < List.length ws)%nat ->
  cumulativeAt ws (S n) = cumulativeAt ws n + nth n ws 0.
Proof.
  revert n. induction ws as [|w ws IH]; intros n Hn; simpl in Hn; [lia|].
  destruct n as [|n].
  - unfold cumulativeAt. simpl firstn. rewrite sumWeights_cons.
    unfold sumWeights. simpl. lia.
  - unfold cumulativeAt in *. change (firstn (S (S n)) (w :: ws))
      with (w :: firstn (S n) ws).
    change (firstn (S n) (w :: ws)) with (w :: firstn n ws).
    rewrite !sumWeights_cons. simpl nth. rewrite IH by lia. lia.
Qed.

(** The walk returns [i] exactly on the selection values between the
    cumulative weight before trader [i] and the one after. *)
Lemma walk_Some_iff (ws : list Z) :
  Forall (fun w => 1 <= w) ws ->
  forall (c s : Z) (k i : nat), c <= s ->
    walk ws s c k = Some i <->
    (k <= i)%nat /\ (i - k < List.length ws)%nat /\
    c + cumulativeAt ws (i - k) <= s < c + cumulativeAt ws (S (i - k)).
Proof.
  induction 1 as [|w ws Hw Hws IH]; intros c s k i Hcs.
  - simpl. split; [discriminate|]. intros (_ & H & _). simpl in H. lia.
  - simpl walk. destruct (Z.ltb_spec s (c + w)) as [Hlt|Hge].
    + split.
      * intros [= <-]. rewrite Nat.sub_diag. simpl List.length.
        unfold cumulativeAt. simpl firstn. rewrite sumWeights_cons.
        unfold sumWeights. simpl. lia.
      * intros (Hk & Hlen & Hlo & _).
        destruct (Nat.eq_dec i k) as [->|Hne]; [reflexivity|exfalso].
        replace (i - k)%nat with (S (i - S k)) in Hlo by lia.
        unfold cumulativeAt in Hlo.
        change (firstn (S (i - S k)) (w :: ws))
          with (w :: firstn (i - S k) ws) in Hlo.
        rewrite sumWeights_cons in Hlo.
        assert (0 <= sumWeights (firstn (i - S k) ws)).
        { apply sumWeights_nonneg, Forall_firstn_pos, Hws. }
        lia.
    + rewrite (IH (c + w) s (S k) i) by lia. split.
      * intros (Hk & Hlen & Hlo & Hhi).
        replace (i - k)%nat with (S (i - S k)) by lia.
        split; [lia|]. split; [simpl List.length; lia|].
        unfold cumulativeAt in *.
        change (firstn (S (S (i - S k))) (w :: ws))
          with (w :: firstn (S (i - S k)) ws).
        change (firstn (S (i - S k)) (w :: ws))
          with (w :: firstn (i - S k) ws).
        rewrite !sumWeights_cons. lia.
      * intros (Hk & Hlen & Hlo & Hhi).
        destruct (Nat.eq_dec i k) as [->|Hne].
        { exfalso. rewrite Nat.sub_diag in Hhi. unfold cumulativeAt in Hhi.
          simpl firstn in Hhi. rewrite sumWeights_cons in Hhi.
          unfold sumWeights in Hhi. simpl in Hhi. lia. }
        replace (i - k)%nat with (S (i - S k)) in * by lia.
        split; [lia|]. split; [simpl List.length in Hlen; lia|].
        unfold cumulativeAt in *.
        change (firstn (S (S (i - S k))) (w :: ws))
          with (w :: firstn (S (i - S k)) ws) in Hhi.
        change (firstn (S (i - S k)) (w :: ws))
          with (w :: firstn (i - S k) ws) in Hlo.
        rewrite !sumWeights_cons in *. lia.
Qed.

(** Below the total weight the walk always returns, inside the list. *)
Lemma walk_hits (ws : list Z) (c s : Z) (k : nat) :
  c <= s < c + sumWeights ws ->
  exists j, walk ws s c k = Some (k + j)%nat /\ (j < List.length ws)%nat.
Proof.
  revert c k. induction ws as [|w ws IH]; intros c k Hs.
  - unfold sumWeights in Hs. simpl in Hs. lia.
  - simpl walk. destruct (Z.ltb_spec s (c + w)) as [Hlt|Hge].
    + exists 0%nat. rewrite Nat.add_0_r. simpl. split; [reflexivity|lia].
    + rewrite sumWeights_cons in Hs.
      destruct (IH (c + w) (S k)) as [j [Hj Hlen]]; [lia|].
      exists (S j). rewrite Hj. split; [f_equal; lia|simpl; lia].
Qed.

End WalkFacts.

Section SelectorFacts.

Lemma walk_below (ws : list Z) (c s : Z) (k : nat) :
  Forall (fun w => 1 <= w) ws -> ws <> [] -> s < c ->
  walk ws s c k = Some k.
Proof.
  intros Hpos Hne Hs. destruct ws as [|w ws]; [congruence|].
  inversion Hpos; subst. simpl.
  destruct (Z.ltb_spec s (c + w)); [reflexivity|lia].
Qed.

(** With positive weights and a selection value below the total, the loop
    returns from inside. *)
Lemma walk_in_range (ws : list Z) (s : Z) :
  Forall (fun w => 1 <= w) ws -> ws <> [] -> s < sumWeights ws ->
  exists i, walk ws s 0 0 = Some i /\ (i < List.length ws)%nat.
Proof.
  intros Hpos Hne Hs. destruct (Z.lt_ge_cases s 0) as [Hneg|Hnn].
  - exists 0%nat. split; [now apply walk_below|].
    destruct ws; [congruence|simpl; lia].
  - destruct (walk_hits ws 0 s 0) as [j [Hj Hlen]]; [lia|].
    exists j. now split.
Qed.

Lemma rem_below (r total : Z) : 0 < total -> Z.abs (Z.rem r total) < total.
Proof.
  intros Ht. pose proof (Z.rem_bound_abs r total ltac:(lia)). lia.
Qed.

Lemma count_interval (a b : Z) (n : nat) :
  0 <= a <= b ->
  List.length (filter (fun s => (a <=? s) && (s <? b))
                      (map Z.of_nat (seq 0 n)))
  = Z.to_nat (Z.min b (Z.of_nat n) - Z.min a (Z.of_nat n)).
Proof.
  intros Hab. induction n as [|n IH].
  - simpl. lia.
  - rewrite seq_S, map_app, filter_app, length_app, IH. simpl.
    destruct (Z.leb_spec a (Z.of_nat n)), (Z.ltb_spec (Z.of_nat n) b);
      simpl; lia.
Qed.

Lemma selections_length (total : Z) :
  0 <= total -> Z.of_nat (List.length (selections total)) = total.
Proof.
  intros H. unfold selections. rewrite length_map, length_seq. lia.
Qed.

End SelectorFacts.

Example scenario_A100_B300 :
  selectWinnerFromTraders [traderA100; traderB300] 250
  = Ok (LogWinnerSelected, mkSelection "B" 1 400 250).
Proof. reflexivity. Qed.

Example scenario_small_volume :
  selectWinnerFromTraders [traderSmall] 123456789
  = Ok (LogWinnerSelected, mkSelection "A" 0 1 0).
Proof. reflexivity. Qed.

Example picks_A100_B300 :
  picks [traderA100; traderB300] 0 = 100%nat /\
  picks [traderA100; traderB300] 1 = 300%nat.
Proof. split; vm_compute; reflexivity. Qed.

Section SelectorClaims.

Lemma BN_ofNumber_safe (n : Z) :
  0 <= n < BN.SAFE -> BN.ofNumber n = Ok n.
Proof.
  intros H. unfold BN.ofNumber.
  destruct (Z.ltb_spec (Z.abs n) BN.SAFE); [reflexivity|lia].
Qed.

Lemma BN_ofNumber_inv (n m : Z) : BN.ofNumber n = Ok m -> m = n.
Proof.
  unfold BN.ofNumber. destruct (Z.abs n <? BN.SAFE); congruence.
Qed.

Lemma BN_mod_nonzero (a b : Z) : b <> 0 -> BN.mod_ a b = Ok (Z.rem a b).
Proof.
  intros H. unfold BN.mod_. destruct (Z.eqb_spec b 0); congruence.
Qed.

Lemma BN_toNumber_safe (a : Z) : Z.abs a < BN.SAFE -> BN.toNumber a = Ok a.
Proof.
  intros H. unfold BN.toNumber.
  destruct (Z.ltb_spec (Z.abs a) BN.SAFE); [reflexivity|lia].
Qed.

Lemma BN_toNumber_inv (a m : Z) : BN.toNumber a = Ok m -> m = a.
Proof.
  unfold BN.toNumber. destruct (Z.abs a <? BN.SAFE); congruence.
Qed.

Lemma total_pos (traders : list TraderVolume) :
  traders <> [] -> 0 < sumWeights (weightsOf traders).
Proof.
  intros Hne. pose proof (sumWeights_ge_length _ (weightsOf_pos traders)) as H.
  unfold weightsOf in H at 1. rewrite length_map in H.
  destruct traders as [|t ts]; [congruence|].
  simpl List.length in H. lia.
Qed.

Lemma addressAt_in_range (traders : list TraderVolume) (i : nat) :
  (i < List.length traders)%nat -> exists a, addressAt traders i = Ok a.
Proof.
  intros Hi. unfold addressAt.
  destruct (nth_error traders i) as [t|] eqn:E; [eauto|].
  apply nth_error_None in E. lia.
Qed.

(** What the selector computes when the total weight is a safe integer:
    the trader found by the walk at [randomValue rem totalWeight]. *)
Lemma selectWinner_safe (traders : list TraderVolume) (r : Z) :
  traders <> [] ->
  sumWeights (weightsOf traders) < BN.SAFE ->
  exists i a,
    walk (weightsOf traders) (Z.rem r (sumWeights (weightsOf traders))) 0 0
      = Some i /\
    (i < List.length traders)%nat /\
    addressAt traders i = Ok a /\
    selectWinnerFromTraders traders r
      = Ok (LogWinnerSelected,
            mkSelection a i (sumWeights (weightsOf traders))
                        (Z.rem r (sumWeights (weightsOf traders)))).
Proof.
  intros Hne Hsafe. pose proof (total_pos traders Hne) as Hpos.
  pose proof (rem_below r _ Hpos) as Hrem.
  destruct (walk_in_range (weightsOf traders)
              (Z.rem r (sumWeights (weightsOf traders))))
    as [i [Hw Hi]].
  - apply weightsOf_pos.
  - destruct traders; [congruence|discriminate].
  - lia.
  - unfold weightsOf in Hi at 1. rewrite length_map in Hi.
    destruct (addressAt_in_range traders i Hi) as [a Ha].
    exists i, a. repeat split; try assumption.
    unfold selectWinnerFromTraders.
    destruct traders as [|t0 rest]; [congruence|].
    rewrite BN_ofNumber_safe by lia.
    rewrite BN_mod_nonzero by lia.
    rewrite BN_toNumber_safe by lia.
    rewrite Hw, Ha. reflexivity.
Qed.

End SelectorClaims.

(** C4, as stated, fails: a non-empty list whose total weight reaches
    2^53 makes [new BN(totalWeight)] throw, so no index is returned. *)
Lemma selectWinner_unsafe_total_throws :
  ~ (forall (traders : list TraderVolume) (r : Z), traders <> [] ->
       exists lg s, selectWinnerFromTraders traders r = Ok (lg, s) /\
                    (winnerIndex s < List.length traders)%nat).
Proof.
  intros H.
  destruct (H [traderHuge] 0 ltac:(discriminate)) as (lg & s & Hs & _).
  vm_compute in Hs. discriminate.
Qed.

(** C4, amended: for the empty list the selector throws "No traders
    provided."; for every non-empty list whose total weight is below 2^53
    and every random value it returns an index inside the list, together
    with the address of the trader at that index. *)
Theorem selectWinner_index_in_range (traders : list TraderVolume) (r : Z) :
  (traders = [] ->
     selectWinnerFromTraders traders r = Throw "No traders provided.") /\
  (traders <> [] -> sumWeights (weightsOf traders) < BN.SAFE ->
     exists lg s,
       selectWinnerFromTraders traders r = Ok (lg, s) /\
       (0 <= winnerIndex s < List.length traders)%nat /\
       addressAt traders (winnerIndex s) = Ok (winner s)).
Proof.
  split.
  - intros ->. reflexivity.
  - intros Hne Hsafe.
    destruct (selectWinner_safe traders r Hne Hsafe)
      as (i & a & _ & Hi & Ha & Hsel).
    eexists _, _. split; [exact Hsel|]. simpl. split; [lia|exact Ha].
Qed.

Lemma selectWinner_index_in_range_witness :
  exists lg s,
    selectWinnerFromTraders [traderA100; traderB300] 250 = Ok (lg, s) /\
    (0 <= winnerIndex s < 2)%nat /\
    addressAt [traderA100; traderB300] (winnerIndex s) = Ok (winner s).
Proof.
  apply (proj2 (selectWinner_index_in_range [traderA100; traderB300] 250)).
  - discriminate.
  - vm_compute. reflexivity.
Defined.

(** On a list whose total weight is a safe integer, the selector called
    with a selection value of [0, totalWeight) returns trader [i] exactly
    when the value lies between the cumulative weights before and after
    [i]. *)
Lemma selects_interval (traders : list TraderVolume) (i : nat) (s : Z) :
  (i < List.length traders)%nat ->
  sumWeights (weightsOf traders) < BN.SAFE ->
  0 <= s < sumWeights (weightsOf traders) ->
  selects traders i s
  = (cumulativeAt (weightsOf traders) i <=? s)
    && (s <? cumulativeAt (weightsOf traders) (S i)).
Proof.
  intros Hi Hsafe Hs. unfold selects.
  assert (Hne : traders <> [])
    by (destruct traders; [simpl in Hi; lia|discriminate]).
  destruct (selectWinner_safe traders s Hne Hsafe) as (j & a & Hw & _ & _ & ->).
  rewrite Z.rem_small in Hw by lia. cbn [winnerIndex].
  set (ws := weightsOf traders) in *.
  assert (Hpos : Forall (fun w => 1 <= w) ws) by apply weightsOf_pos.
  assert (Hlen : List.length ws = List.length traders)
    by (unfold ws, weightsOf; apply length_map).
  pose proof (walk_Some_iff ws Hpos 0 s 0) as Hiff.
  destruct (Nat.eqb_spec j i) as [->|Hneq].
  - destruct (proj1 (Hiff i ltac:(lia)) Hw) as (_ & _ & Hlo & Hhi).
    rewrite Nat.sub_0_r in *. symmetry. apply andb_true_iff.
    split; [apply Z.leb_le|apply Z.ltb_lt]; lia.
  - symmetry. apply not_true_is_false. intros Hb.
    apply andb_true_iff in Hb. destruct Hb as [Hlo Hhi].
    apply Z.leb_le in Hlo. apply Z.ltb_lt in Hhi.
    assert (walk ws s 0 0 = Some i) as Hwi.
    { apply Hiff; [lia|]. rewrite Nat.sub_0_r. repeat split; lia. }
    congruence.
Qed.

Lemma picks_count (traders : list TraderVolume) (i : nat) :
  (i < List.length traders)%nat ->
  sumWeights (weightsOf traders) < BN.SAFE ->
  Z.of_nat (picks traders i) = nth i (weightsOf traders) 0.
Proof.
  intros Hi Hsafe. unfold picks.
  set (ws := weightsOf traders).
  assert (Hpos : Forall (fun w => 1 <= w) ws) by apply weightsOf_pos.
  assert (Hlen : List.length ws = List.length traders)
    by (unfold ws, weightsOf; apply length_map).
  rewrite (filter_ext_in _
    (fun s => (cumulativeAt ws i <=? s) && (s <? cumulativeAt ws (S i)))).
  - unfold selections. rewrite count_interval.
    + pose proof (cumulativeAt_mono ws i Hpos).
      pose proof (cumulativeAt_mono ws (S i) Hpos).
      pose proof (sumWeights_nonneg ws Hpos).
      assert (1 <= nth i ws 0).
      { apply (proj1 (Forall_forall _ _) Hpos). apply nth_In. lia. }
      rewrite (cumulativeAt_S ws i) in * by lia.
      lia.
    + rewrite (cumulativeAt_S ws i) by lia.
      assert (1 <= nth i ws 0).
      { apply (proj1 (Forall_forall _ _) Hpos). apply nth_In. lia. }
      pose proof (sumWeights_nonneg _ (Forall_firstn_pos ws i Hpos)).
      unfold cumulativeAt. lia.
  - intros s Hs. unfold selections in Hs. apply in_map_iff in Hs.
    destruct Hs as [m [<- Hm]]. apply in_seq in Hm.
    apply selects_interval; [exact Hi|exact Hsafe|].
    fold ws. pose proof (sumWeights_nonneg ws Hpos). lia.
Qed.

Lemma filter_none {A : Type} (f : A -> bool) (l : list A) :
  (forall x, f x = false) -> filter f l = [].
Proof.
  intros H. induction l as [|x l IH]; [reflexivity|].
  cbn [filter]. now rewrite H.
Qed.

(** C5, as stated, fails: for a single trader whose weight is 2^53, no
    selection value makes the selector return that trader, since
    [new BN(totalWeight)] throws before the walk starts. *)
Lemma picks_none_at_unsafe_total :
  ~ (forall (traders : list TraderVolume) (i : nat) (t : TraderVolume),
       nth_error traders i = Some t ->
       Z.of_nat (picks traders i) = weightOf t).
Proof.
  intros H. specialize (H [traderHuge] 0%nat traderHuge eq_refl).
  assert (Hnone : picks [traderHuge] 0 = 0%nat).
  { unfold picks. rewrite filter_none; [reflexivity|].
    intros s. reflexivity. }
  rewrite Hnone in H. clear Hnone. vm_compute in H. discriminate H.
Qed.

(** C5, amended: for a list whose total weight is below 2^53, the number
    of selection values of [0, totalWeight) for which
    [selectWinnerFromTraders] returns trader [i] from its walk is that
    trader's weight [max(1, floor(volumeUsd))], out of [totalWeight]
    selection values. *)
Theorem picks_equal_weight (traders : list TraderVolume) (i : nat)
    (t : TraderVolume) :
  nth_error traders i = Some t ->
  sumWeights (weightsOf traders) < BN.SAFE ->
  Z.of_nat (picks traders i) = weightOf t /\
  Z.of_nat (List.length (selections (sumWeights (weightsOf traders))))
    = sumWeights (weightsOf traders) /\
  (forall s, 0 <= s < sumWeights (weightsOf traders) ->
     selects traders i s = true ->
     exists a,
       selectWinnerFromTraders traders s
       = Ok (LogWinnerSelected,
             mkSelection a i (sumWeights (weightsOf traders)) s)).
Proof.
  intros Hn Hsafe. assert (Hi : (i < List.length traders)%nat).
  { apply nth_error_Some. congruence. }
  split; [|split].
  - rewrite picks_count by assumption. unfold weightsOf.
    rewrite (nth_indep _ 0 (weightOf t)) by (rewrite length_map; exact Hi).
    rewrite map_nth. f_equal. now apply nth_error_nth.
  - apply selections_length, sumWeights_nonneg, weightsOf_pos.
  - intros s Hs Hsel.
    assert (Hne : traders <> [])
    by (destruct traders; [simpl in Hi; lia|discriminate]).
    destruct (selectWinner_safe traders s Hne Hsafe)
      as (j & a & _ & _ & _ & Hrun).
    unfold selects in Hsel. rewrite Hrun in Hsel. cbn [winnerIndex] in Hsel.
    apply Nat.eqb_eq in Hsel. subst j.
    rewrite Z.rem_small in Hrun by lia. exists a. exact Hrun.
Qed.

Lemma picks_equal_weight_witness :
  Z.of_nat (picks [traderA100; traderB300] 1) = weightOf traderB300 /\
  Z.of_nat (List.length
              (selections (sumWeights (weightsOf [traderA100; traderB300]))))
    = sumWeights (weightsOf [traderA100; traderB300]) /\
  (forall s, 0 <= s < sumWeights (weightsOf [traderA100; traderB300]) ->
     selects [traderA100; traderB300] 1 s = true ->
     exists a,
       selectWinnerFromTraders [traderA100; traderB300] s
       = Ok (LogWinnerSelected,
             mkSelection a 1
               (sumWeights (weightsOf [traderA100; traderB300])) s)).
Proof.
  apply (picks_equal_weight [traderA100; traderB300] 1 traderB300).
  - reflexivity.
  - vm_compute. reflexivity.
Defined.

(** C6: for a non-empty list the selection value is below the total
    weight, the cumulative weight after the last trader is the total
    weight, and the loop returns at an index inside the list; the selector
    never returns through the fallback after the loop. *)
Theorem fallback_unreachable (traders : list TraderVolume) (r : Z) :
  traders <> [] ->
  let weights := weightsOf traders in
  let total := sumWeights weights in
  Z.rem r total < total /\
  cumulativeAt weights (List.length traders) = total /\
  (exists i, walk weights (Z.rem r total) 0 0 = Some i /\
             (i < List.length traders)%nat) /\
  (forall s, selectWinnerFromTraders traders r <> Ok (WarnFallbackWinner, s)).
Proof.
  intros Hne weights total.
  pose proof (total_pos traders Hne) as Hpos.
  pose proof (rem_below r _ Hpos) as Hrem.
  assert (Hlen : List.length weights = List.length traders)
    by (unfold weights, weightsOf; apply length_map).
  assert (Hwalk : exists i, walk weights (Z.rem r total) 0 0 = Some i /\
                            (i < List.length traders)%nat).
  { destruct (walk_in_range weights (Z.rem r total)) as [i [Hw Hi]].
    - apply weightsOf_pos.
    - unfold weights. destruct traders; [congruence|discriminate].
    - unfold total, weights. lia.
    - exists i. split; [exact Hw|lia]. }
  split; [unfold total, weights; lia|].
  split; [rewrite <- Hlen; apply cumulativeAt_all|].
  split; [exact Hwalk|].
  intros s Hs. destruct Hwalk as [i [Hw _]].
  unfold selectWinnerFromTraders in Hs.
  destruct traders as [|t0 rest]; [congruence|].
  fold weights in Hs. fold total in Hs.
  destruct (BN.ofNumber total) as [bn|] eqn:E1; [|discriminate].
  apply BN_ofNumber_inv in E1. subst bn.
  rewrite BN_mod_nonzero in Hs by (unfold total, weights; lia).
  destruct (BN.toNumber (Z.rem r total)) as [sel|] eqn:E2; [|discriminate].
  apply BN_toNumber_inv in E2. subst sel.
  rewrite Hw in Hs.
  destruct (addressAt (t0 :: rest) i); discriminate.
Qed.

Lemma fallback_unreachable_witness :
  Z.rem 250 400 < 400 /\
  cumulativeAt (weightsOf [traderA100; traderB300]) 2 = 400 /\
  (exists i, walk (weightsOf [traderA100; traderB300]) (Z.rem 250 400) 0 0
             = Some i /\ (i < 2)%nat) /\
  (forall s, selectWinnerFromTraders [traderA100; traderB300] 250
             <> Ok (WarnFallbackWinner, s)).
Proof.
  apply (fallback_unreachable [traderA100; traderB300] 250). discriminate.
Defined.

(** * Properties of the Randomness Protocol Client *)

Section ConsumeFacts.

Lemma ofBytes_acc (bs : list byte) (a : Z) :
  fold_left (fun acc b => acc * 256 + Z.of_N (Byte.to_N b)) bs a
  = a * 256 ^ Z.of_nat (List.length bs) + BN.ofBytes bs.
Proof.
  unfold BN.ofBytes. revert a.
  induction bs as [|b bs IH]; intros a.
  - simpl. lia.
  - cbn [fold_left List.length]. rewrite (IH (a * 256 + _)), (IH (0 * 256 + _)).
    rewrite Nat2Z.inj_succ, Z.pow_succ_r by lia. ring.
Qed.

(** Big-endian: the first byte is the most significant one. *)
Lemma ofBytes_cons (b : byte) (bs : list byte) :
  BN.ofBytes (b :: bs)
  = Z.of_N (Byte.to_N b) * 256 ^ Z.of_nat (List.length bs) + BN.ofBytes bs.
Proof.
  unfold BN.ofBytes at 1. cbn [fold_left]. rewrite ofBytes_acc. lia.
Qed.

Lemma byte_range (b : byte) : 0 <= Z.of_N (Byte.to_N b) < 256.
Proof.
  pose proof (Byte.to_N_bounded b) as H. lia.
Qed.

Lemma ofBytes_range (bs : list byte) :
  0 <= BN.ofBytes bs < 256 ^ Z.of_nat (List.length bs).
Proof.
  induction bs as [|b bs IH].
  - unfold BN.ofBytes. simpl. lia.
  - rewrite ofBytes_cons. cbn [List.length].
    rewrite Nat2Z.inj_succ, Z.pow_succ_r by lia.
    pose proof (byte_range b). nia.
Qed.

Lemma ofBytes_u64 (buf : list byte) :
  0 <= BN.ofBytes (firstn 8 buf) < 2 ^ 64.
Proof.
  pose proof (ofBytes_range (firstn 8 buf)) as H.
  pose proof (firstn_le_length 8 buf) as Hl.
  assert (256 ^ Z.of_nat (List.length (firstn 8 buf)) <= 256 ^ 8)
    by (apply Z.pow_le_mono_r; lia).
  change (2 ^ 64) with (256 ^ 8). lia.
Qed.

Lemma allZero_spec (buf : list byte) :
  allZero buf = true <-> Forall (fun b => b = x00) buf.
Proof.
  unfold allZero. rewrite forallb_forall, Forall_forall.
  split; intros H b Hb.
  - apply Byte.byte_dec_bl. auto.
  - apply Byte.byte_dec_lb. auto.
Qed.

(** [consumeRandomness], spelled out once the module is initialised. *)
Lemma consumeRandomness_run (env : VrfEnv) (account : nat) (w : World) :
  sbProgram w = true ->
  consumeRandomness env account w
  = let w' := record (EvLoad account) (countRead w) in
    match loadData env account (reads w) with
    | Throw m => (Throw m, w')
    | Ok data =>
        match resultOf data with
        | None => (Throw "Randomness not revealed.", w')
        | Some buf =>
            if allZero buf then (Throw "Randomness result empty.", w')
            else (Ok (BN.ofBytes (firstn 8 buf)), w')
        end
    end.
Proof.
  intros Hinit. unfold consumeRandomness, load, bind, gets, modify, emit,
    lift, throw, ret. rewrite Hinit. simpl.
  destruct (loadData env account (reads w)) as [data|m]; [|reflexivity].
  destruct (resultOf data) as [buf|]; [|reflexivity].
  destruct (allZero buf); reflexivity.
Qed.

Lemma consumeRandomness_uninitialised (env : VrfEnv) (account : nat)
    (w : World) :
  sbProgram w = false ->
  consumeRandomness env account w = (Throw "VRF not initialized.", w).
Proof.
  intros Hinit. unfold consumeRandomness, bind, gets, throw.
  rewrite Hinit. reflexivity.
Qed.

End ConsumeFacts.

(** C9, as stated, fails: before [initializeVRF] has set [sbProgram] the
    call throws "VRF not initialized." although the round's result buffer
    is present and not all zero. *)
Lemma consumeRandomness_fails_uninitialised :
  ~ (forall (env : VrfEnv) (account : nat) (w : World) (data : RandomnessData),
       loadData env account (reads w) = Ok data ->
       (isThrow (fst (consumeRandomness env account w)) = true <->
        resultOf data = None \/
        exists buf, resultOf data = Some buf /\ Forall (fun b => b = x00) buf)).
Proof.
  intros H.
  destruct (proj1 (H vrfFulfilled 0%nat uninitialisedWorld (dataWith buffer250)
                     eq_refl) eq_refl) as [Hnone|(buf & Hbuf & Hzero)].
  - discriminate.
  - injection Hbuf as <-. apply allZero_spec in Hzero. discriminate.
Qed.

(** C9, amended: a value comes out of [consumeRandomness] only after the
    account has been read and its result buffer found present and not all
    zero, and it is then the unsigned big-endian integer of the first 8
    bytes; once the module is initialised and the account data is read, the
    call fails exactly when the result buffer is missing or all zero. *)
Theorem consumeRandomness_spec (env : VrfEnv) (account : nat) (w : World) :
  (forall v, fst (consumeRandomness env account w) = Ok v ->
     exists data buf,
       loadData env account (reads w) = Ok data /\
       resultOf data = Some buf /\ allZero buf = false /\
       v = BN.ofBytes (firstn 8 buf) /\ 0 <= v < 2 ^ 64 /\
       In (EvLoad account) (trace (snd (consumeRandomness env account w)))) /\
  (forall data,
     sbProgram w = true -> loadData env account (reads w) = Ok data ->
     (isThrow (fst (consumeRandomness env account w)) = true <->
      resultOf data = None \/
      exists buf, resultOf data = Some buf /\ Forall (fun b => b = x00) buf) /\
     (forall buf, resultOf data = Some buf -> allZero buf = false ->
        fst (consumeRandomness env account w)
        = Ok (BN.ofBytes (firstn 8 buf)))).
Proof.
  split.
  - intros v Hv. destruct (sbProgram w) eqn:Hinit.
    + rewrite consumeRandomness_run in * by exact Hinit. cbv zeta in *.
      destruct (loadData env account (reads w)) as [data|m]; [|discriminate].
      destruct (resultOf data) as [buf|] eqn:Hbuf; [|discriminate].
      destruct (allZero buf) eqn:Hz; [discriminate|].
      simpl in Hv. injection Hv as <-.
      exists data, buf. repeat split; try reflexivity; try assumption.
      * apply ofBytes_u64.
      * apply ofBytes_u64.
      * simpl. apply in_or_app. right. left. reflexivity.
    + rewrite consumeRandomness_uninitialised in Hv by exact Hinit.
      discriminate.
  - intros data Hinit Hload.
    rewrite consumeRandomness_run by exact Hinit. cbv zeta. rewrite Hload.
    split.
    + destruct (resultOf data) as [buf|] eqn:Hbuf.
      * destruct (allZero buf) eqn:Hz; simpl.
        -- split; [|reflexivity]. intros _. right. exists buf.
           split; [reflexivity|]. now apply allZero_spec.
        -- split; [discriminate|]. intros [H|[b [[= <-] Hb]]]; [discriminate|].
           apply allZero_spec in Hb. congruence.
      * simpl. split; [|reflexivity]. intros _. now left.
    + intros buf Hbuf Hz. rewrite Hbuf, Hz. reflexivity.
Qed.

Lemma consumeRandomness_spec_witness :
  isThrow (fst (consumeRandomness vrfFulfilledLater 0 initialWorld)) = true /\
  fst (consumeRandomness vrfFulfilled 0 initialWorld) = Ok 250.
Proof.
  split.
  - apply (proj2 (consumeRandomness_spec vrfFulfilledLater 0 initialWorld)
             (dataWith zeroBuffer) eq_refl eq_refl).
    right. exists zeroBuffer. split; [reflexivity|].
    apply allZero_spec. reflexivity.
  - change 250 with (BN.ofBytes (firstn 8 buffer250)).
    apply (proj2 (consumeRandomness_spec vrfFulfilled 0 initialWorld)
             (dataWith buffer250) eq_refl eq_refl).
    + reflexivity.
    + reflexivity.
Defined.

(** * Properties of the Fee Claim Monitor *)

Section ClaimFacts.

Lemma Qltb_true (x y : Q) : Qltb x y = true <-> (x < y)%Q.
Proof.
  unfold Qltb. rewrite negb_true_iff. split.
  - intros H. apply Qnot_le_lt. intros Hle.
    apply Qle_bool_iff in Hle. congruence.
  - intros H. apply not_true_is_false. intros Hle.
    apply Qle_bool_iff in Hle. apply (Qlt_not_le _ _ H Hle).
Qed.

Lemma Qltb_false (x y : Q) : Qltb x y = false <-> (y <= x)%Q.
Proof.
  unfold Qltb. rewrite negb_false_iff. apply Qle_bool_iff.
Qed.

Lemma logs_nil (w : World) : logs [] w = w.
Proof. destruct w. unfold logs. simpl. now rewrite app_nil_r. Qed.

Lemma logs_logs (evs1 evs2 : list Event) (w : World) :
  logs evs2 (logs evs1 w) = logs (evs1 ++ evs2) w.
Proof. unfold logs. simpl. now rewrite app_assoc. Qed.

Lemma record_logs (e : Event) (w : World) : record e w = logs [e] w.
Proof. reflexivity. Qed.

Lemma sumPositions_run (positions : list Position) (w : World) :
  sumPositions positions w
  = (Ok tt, setPot (fold_left addPosition positions (currentPotSize w)) w).
Proof.
  revert w. induction positions as [|p rest IH]; intros w.
  - destruct w. reflexivity.
  - cbn [sumPositions fold_left]. unfold bind, modify.
    rewrite IH. reflexivity.
Qed.

Lemma claimTx_run (i j : nat) (fate : TxFate) (w : World) :
  claimTx i j fate w = (Ok tt, logs (txEvents i j fate) w).
Proof.
  destruct fate; unfold claimTx, tryCatch, bind, emit, modify, throw;
    cbn [txEvents]; rewrite ?record_logs, ?logs_logs; reflexivity.
Qed.

Lemma claimTxs_run (i j : nat) (fates : list TxFate) (w : World) :
  claimTxs i j fates w = (Ok tt, logs (txsEvents i j fates) w).
Proof.
  revert j w. induction fates as [|fate rest IH]; intros j w.
  - cbn. now rewrite logs_nil.
  - cbn [claimTxs txsEvents]. unfold bind. rewrite claimTx_run, IH.
    now rewrite logs_logs.
Qed.

Lemma claimPositions_run (env : FeeEnv) (i : nat)
    (positions : list Position) (w : World) :
  claimPositions env i positions w
  = (fst (claimOutcome env i positions),
     logs (snd (claimOutcome env i positions)) w).
Proof.
  revert i w. induction positions as [|p rest IH]; intros i w.
  - cbn. now rewrite logs_nil.
  - cbn [claimPositions claimOutcome]. unfold bind at 1. unfold emit, modify.
    unfold bind at 1. unfold lift, transactionsOf.
    destruct (getClaimTransaction env i p) as [[[|fate fates]|]|m].
    + rewrite IH. destruct (claimOutcome env (S i) rest) as [r evs].
      cbn [fst snd txsEvents app]. rewrite record_logs, logs_logs.
      reflexivity.
    + unfold bind. rewrite claimTxs_run, IH.
      destruct (claimOutcome env (S i) rest) as [r evs].
      cbn [fst snd]. rewrite record_logs, !logs_logs.
      cbn [app]. reflexivity.
    + rewrite IH. destruct (claimOutcome env (S i) rest) as [r evs].
      cbn [fst snd txsEvents app]. rewrite record_logs, logs_logs.
      reflexivity.
    + reflexivity.
Qed.

(** When building the transactions never throws, the outer loop goes
    through every position. *)
Lemma claimOutcome_all (env : FeeEnv) (i : nat) (positions : list Position) :
  (forall k p, isThrow (getClaimTransaction env k p) = false) ->
  claimOutcome env i positions = (Ok tt, claimEvents env i positions).
Proof.
  intros Hok. revert i. induction positions as [|p rest IH]; intros i.
  - reflexivity.
  - cbn [claimOutcome claimEvents]. specialize (Hok i p).
    destruct (getClaimTransaction env i p) eqn:E; [|discriminate].
    rewrite IH. reflexivity.
Qed.

(** The [try] block of [claimFeesForToken], spelled out. *)
Lemma claimFeesBody_run (cfg : Config) (env : FeeEnv) (tokenMint : string)
    (w : World) :
  claimFeesBody cfg env tokenMint w
  = match getAllClaimablePositions env with
    | Throw m => (Throw m, w)
    | Ok allPositions =>
        match targetPositionsOf tokenMint allPositions with
        | [] => (Ok false, setPot 0%Q w)
        | targets =>
            let w1 := setPot (computedPot targets) w in
            if Qltb (computedPot targets) (LOTTERY_POT_THRESHOLD cfg)
            then (Ok false, w1)
            else
              match claimOutcome env 0 targets with
              | (Ok _, evs) =>
                  (Ok true, logs (EvClaimPhase :: evs ++ [EvClaimDone]) w1)
              | (Throw m, evs) => (Throw m, logs (EvClaimPhase :: evs) w1)
              end
        end
    end.
Proof.
  unfold claimFeesBody. unfold bind at 1. unfold lift.
  destruct (getAllClaimablePositions env) as [allPositions|m];
    [|reflexivity].
  destruct allPositions as [|p0 rest0]; [reflexivity|].
  destruct (targetPositionsOf tokenMint (p0 :: rest0)) as [|t targets] eqn:E;
    [reflexivity|].
  unfold bind at 1. unfold modify at 1.
  unfold bind at 1. rewrite sumPositions_run.
  unfold bind at 1. unfold gets.
  cbn [currentPotSize setPot]. fold (computedPot (t :: targets)).
  cbv zeta.
  destruct (Qltb (computedPot (t :: targets)) (LOTTERY_POT_THRESHOLD cfg));
    [reflexivity|].
  unfold bind at 1. unfold emit at 1. unfold modify at 1.
  unfold bind at 1. rewrite claimPositions_run.
  destruct (claimOutcome env 0 (t :: targets)) as [[[]|m] evs];
    cbn [fst snd].
  - unfold bind, emit, modify, ret.
    rewrite !record_logs, !logs_logs. reflexivity.
  - rewrite !record_logs, !logs_logs. reflexivity.
Qed.

End ClaimFacts.

Section ClaimLoopFacts.

Lemma finalEvent_in (i j : nat) (fate : TxFate) :
  In (finalEvent i j fate) (txEvents i j fate).
Proof. destruct fate; simpl; auto. Qed.

Lemma txsEvents_in (i : nat) (fates : list TxFate) :
  forall j k fate, nth_error fates k = Some fate ->
    In (finalEvent i (j + k) fate) (txsEvents i j fates).
Proof.
  induction fates as [|f rest IH]; intros j k fate Hk.
  - destruct k; discriminate.
  - cbn [txsEvents]. apply in_or_app. destruct k as [|k].
    + injection Hk as ->. left. rewrite Nat.add_0_r. apply finalEvent_in.
    + right. replace (j + S k)%nat with (S j + k)%nat by lia.
      apply IH. exact Hk.
Qed.

Lemma claimEvents_in (env : FeeEnv) (positions : list Position) :
  forall i k p j fate,
    nth_error positions k = Some p ->
    nth_error (transactionsOf env (i + k) p) j = Some fate ->
    In (finalEvent (i + k) j fate) (claimEvents env i positions).
Proof.
  induction positions as [|q rest IH]; intros i k p j fate Hk Hj.
  - destruct k; discriminate.
  - cbn [claimEvents]. right. apply in_or_app. destruct k as [|k].
    + injection Hk as ->. left. rewrite Nat.add_0_r in *.
      apply (txsEvents_in i _ 0 j fate Hj).
    + right. replace (i + S k)%nat with (S i + k)%nat in * by lia.
      eapply IH; eauto.
Qed.

Lemma claimOutcome_throws (env : FeeEnv) (positions : list Position) :
  forall i k p,
    nth_error positions k = Some p ->
    isThrow (getClaimTransaction env (i + k) p) = true ->
    exists m evs, claimOutcome env i positions = (Throw m, evs).
Proof.
  induction positions as [|q rest IH]; intros i k p Hk Hthrow.
  - destruct k; discriminate.
  - cbn [claimOutcome].
    destruct (getClaimTransaction env i q) as [o|m] eqn:E; [|eauto].
    destruct k as [|k].
    + injection Hk as ->. rewrite Nat.add_0_r, E in Hthrow. discriminate.
    + replace (i + S k)%nat with (S i + k)%nat in * by lia.
      destruct (IH (S i) k p Hk Hthrow) as (m & evs & ->). eauto.
Qed.

Lemma newEvents_app (w w' : World) (evs : list Event) :
  trace w' = trace w ++ evs -> newEvents w w' = evs.
Proof.
  intros H. unfold newEvents. rewrite H.
  rewrite skipn_app, skipn_all, Nat.sub_diag. reflexivity.
Qed.

End ClaimLoopFacts.

(** The monitor announces claim execution exactly when it has computed a
    sum over target positions that is at or above the threshold; below the
    threshold it returns false without any event. *)
Lemma claimPhase_iff (cfg : Config) (env : FeeEnv)
    (tokenMint : string) (w : World) :
  let out := claimFeesForToken cfg env tokenMint w in
  (In EvClaimPhase (newEvents w (snd out)) <->
   exists allPositions,
     getAllClaimablePositions env = Ok allPositions /\
     targetPositionsOf tokenMint allPositions <> [] /\
     (LOTTERY_POT_THRESHOLD cfg
      <= computedPot (targetPositionsOf tokenMint allPositions))%Q) /\
  (forall allPositions,
     getAllClaimablePositions env = Ok allPositions ->
     targetPositionsOf tokenMint allPositions <> [] ->
     (computedPot (targetPositionsOf tokenMint allPositions)
      < LOTTERY_POT_THRESHOLD cfg)%Q ->
     fst out = Ok false /\ trace (snd out) = trace w /\
     currentPotSize (snd out)
     = computedPot (targetPositionsOf tokenMint allPositions)).
Proof.
  intros out. subst out. unfold claimFeesForToken, tryCatch.
  rewrite claimFeesBody_run.
  destruct (getAllClaimablePositions env) as [allPositions|m] eqn:Hall.
  - destruct (targetPositionsOf tokenMint allPositions) as [|t targets] eqn:E.
    + split.
      * rewrite (newEvents_app w _ []) by (simpl; now rewrite app_nil_r).
        split; [intros []|].
        intros (all & [= <-] & Hne & _). congruence.
      * intros all [= <-]. congruence.
    + cbv zeta.
      destruct (Qltb (computedPot (t :: targets)) (LOTTERY_POT_THRESHOLD cfg))
        eqn:Hcmp.
      * split.
        -- rewrite (newEvents_app w _ []) by (simpl; now rewrite app_nil_r).
           split; [intros []|].
           intros (all & [= <-] & _ & Hge). rewrite E in Hge.
           apply Qltb_false in Hge. congruence.
        -- intros all [= <-] _ _. rewrite E. simpl. auto.
      * split.
        -- split.
           ++ intros _. exists allPositions. rewrite E.
              split; [reflexivity|]. split; [discriminate|].
              now apply Qltb_false.
           ++ intros _.
              destruct (claimOutcome env 0 (t :: targets)) as [[[]|m] evs].
              ** rewrite (newEvents_app w _ (EvClaimPhase :: evs ++ [EvClaimDone]))
                   by reflexivity.
                 now left.
              ** rewrite (newEvents_app w _
                            (EvClaimPhase :: evs ++ [EvUnexpected m]))
                   by (simpl; now rewrite <- app_assoc).
                 now left.
        -- intros all [= <-] _ Hlt. rewrite E in Hlt.
           apply Qltb_true in Hlt. congruence.
  - split.
    + rewrite (newEvents_app w _ [EvUnexpected m]) by reflexivity.
      split; [intros [H|[]]; discriminate|].
      intros (all & Habs & _). discriminate.
    + intros all Habs. discriminate.
Qed.

(** The first claim transactions are asked for exactly when claim
    execution is announced. *)
Lemma claimRequested_iff_phase (cfg : Config) (env : FeeEnv)
    (tokenMint : string) (w : World) :
  let out := claimFeesForToken cfg env tokenMint w in
  In (EvClaimRequested 0) (newEvents w (snd out))
  <-> In EvClaimPhase (newEvents w (snd out)).
Proof.
  intros out. subst out. unfold claimFeesForToken, tryCatch.
  rewrite claimFeesBody_run.
  destruct (getAllClaimablePositions env) as [allPositions|m].
  - destruct (targetPositionsOf tokenMint allPositions) as [|t targets].
    + rewrite (newEvents_app w _ []) by (simpl; now rewrite app_nil_r).
      split; intros [].
    + cbv zeta.
      destruct (Qltb (computedPot (t :: targets)) (LOTTERY_POT_THRESHOLD cfg)).
      * rewrite (newEvents_app w _ []) by (simpl; now rewrite app_nil_r).
        split; intros [].
      * cbn [claimOutcome].
        destruct (getClaimTransaction env 0 t) as [txs|m0].
        -- destruct (claimOutcome env 1 targets) as [[[]|m] evs].
           ++ erewrite newEvents_app by reflexivity.
              split; intros _; [now left|right; now left].
           ++ erewrite newEvents_app
                by (simpl; rewrite <- app_assoc; reflexivity).
              split; intros _; [now left|right; now left].
        -- erewrite newEvents_app
             by (simpl; rewrite <- app_assoc; reflexivity).
           split; intros _; [now left|right; now left].
  - rewrite (newEvents_app w _ [EvUnexpected m]) by reflexivity.
    split; intros [H|[]]; discriminate.
Qed.

(** The rounding of the sum matters at the boundary: two custom fee
    vaults, 1815 at 5126 bps and 3890 at 179 bps, are worth exactly 1000
    together, but the sum the code computes is below 1000, and with the
    threshold at 1000 nothing is claimed. *)
Example rounded_sum_below_threshold :
  (1815 * (5126 / 10000) + 3890 * (179 / 10000) == 1000)%Q /\
  computedPot [positionVault1815; positionVault3890]
    = (8796093022207999 # 8796093022208)%Q /\
  claimFeesForToken cfg1000 feeVaults "MINT" initialWorld
    = (Ok false, setPot (8796093022207999 # 8796093022208) initialWorld).
Proof. split; [reflexivity|]. split; vm_compute; reflexivity. Qed.

(** C7: the monitor enters claim execution (it announces it and asks the
    SDK for the claim transactions of the first target position) exactly
    when it has computed a sum over target positions and that sum, as the
    code's number arithmetic gives it, is at or above the threshold
    (equality included); when the computed sum is below the threshold it
    returns false, leaves no event (no transaction requested or sent), and
    the shared pot holds the computed sum. *)
Theorem claim_threshold_boundary (cfg : Config) (env : FeeEnv)
    (tokenMint : string) (w : World) :
  let out := claimFeesForToken cfg env tokenMint w in
  let reached :=
    exists allPositions,
      getAllClaimablePositions env = Ok allPositions /\
      targetPositionsOf tokenMint allPositions <> [] /\
      (LOTTERY_POT_THRESHOLD cfg
       <= computedPot (targetPositionsOf tokenMint allPositions))%Q in
  (In EvClaimPhase (newEvents w (snd out)) <-> reached) /\
  (In (EvClaimRequested 0) (newEvents w (snd out)) <-> reached) /\
  (forall allPositions,
     getAllClaimablePositions env = Ok allPositions ->
     targetPositionsOf tokenMint allPositions <> [] ->
     (computedPot (targetPositionsOf tokenMint allPositions)
      < LOTTERY_POT_THRESHOLD cfg)%Q ->
     fst out = Ok false /\ trace (snd out) = trace w /\
     currentPotSize (snd out)
     = computedPot (targetPositionsOf tokenMint allPositions)).
Proof.
  intros out reached. subst out reached.
  destruct (claimPhase_iff cfg env tokenMint w) as [Hphase Hbelow].
  pose proof (claimRequested_iff_phase cfg env tokenMint w) as Hreq.
  cbv zeta in Hphase, Hbelow, Hreq.
  split; [exact Hphase|]. split; [|exact Hbelow].
  rewrite Hreq. exact Hphase.
Qed.

Lemma claim_threshold_boundary_witness :
  In EvClaimPhase
     (newEvents initialWorld
        (snd (claimFeesForToken cfg1000 feeAtThreshold "MINT" initialWorld))) /\
  In (EvClaimRequested 0)
     (newEvents initialWorld
        (snd (claimFeesForToken cfg1000 feeAtThreshold "MINT" initialWorld))) /\
  (fst (claimFeesForToken cfg1000 feeBelowThreshold "MINT" initialWorld)
     = Ok false /\
   trace (snd (claimFeesForToken cfg1000 feeBelowThreshold "MINT" initialWorld))
     = trace initialWorld /\
   currentPotSize
     (snd (claimFeesForToken cfg1000 feeBelowThreshold "MINT" initialWorld))
     = computedPot [position999]) /\
  (fst (claimFeesForToken cfg1000 feeVaults "MINT" initialWorld) = Ok false /\
   trace (snd (claimFeesForToken cfg1000 feeVaults "MINT" initialWorld))
     = trace initialWorld /\
   currentPotSize (snd (claimFeesForToken cfg1000 feeVaults "MINT" initialWorld))
     = computedPot [positionVault1815; positionVault3890]).
Proof.
  assert (Hreached :
            exists allPositions,
              getAllClaimablePositions feeAtThreshold = Ok allPositions /\
              targetPositionsOf "MINT" allPositions <> [] /\
              (LOTTERY_POT_THRESHOLD cfg1000
               <= computedPot (targetPositionsOf "MINT" allPositions))%Q).
  { exists [positionOther; position600_400].
    split; [reflexivity|]. split; [discriminate|]. vm_compute. discriminate. }
  split; [|split; [|split]].
  - apply (proj1 (claim_threshold_boundary cfg1000 feeAtThreshold "MINT"
                    initialWorld)). exact Hreached.
  - apply (proj1 (proj2 (claim_threshold_boundary cfg1000 feeAtThreshold
                           "MINT" initialWorld))). exact Hreached.
  - apply (proj2 (proj2 (claim_threshold_boundary cfg1000 feeBelowThreshold
                           "MINT" initialWorld))
             [positionOther; position999] eq_refl).
    + discriminate.
    + vm_compute. reflexivity.
  - apply (proj2 (proj2 (claim_threshold_boundary cfg1000 feeVaults
                           "MINT" initialWorld))
             [positionVault1815; positionVault3890] eq_refl).
    + discriminate.
    + vm_compute. reflexivity.
Defined.

(** C8, as stated, fails: the monitor can reach claim execution and still
    return false, namely when building the claim transactions of a
    position throws. *)
Lemma claim_returns_false_when_build_throws :
  ~ (forall (cfg : Config) (env : FeeEnv) (tokenMint : string) (w : World)
            (allPositions : list Position),
       getAllClaimablePositions env = Ok allPositions ->
       targetPositionsOf tokenMint allPositions <> [] ->
       (LOTTERY_POT_THRESHOLD cfg
        <= computedPot (targetPositionsOf tokenMint allPositions))%Q ->
       fst (claimFeesForToken cfg env tokenMint w) = Ok true).
Proof.
  intros H.
  specialize (H cfg1000 feeBuildThrows "MINT" initialWorld [position600_400]
                eq_refl).
  assert (Hfalse : fst (claimFeesForToken cfg1000 feeBuildThrows "MINT"
                          initialWorld) = Ok false) by reflexivity.
  rewrite H in Hfalse.
  - discriminate.
  - discriminate.
  - vm_compute. discriminate.
Qed.

(** C8, amended: in claim execution, when building the transactions does
    not throw,
    every transaction of every target position is gone through whatever
    happened to the ones before it: each is either confirmed or reported as
    failed; the monitor returns true and the shared pot holds the sum
    computed before claiming. *)
Theorem claim_partial_failures (cfg : Config) (env : FeeEnv)
    (tokenMint : string) (w : World) (allPositions : list Position) :
  getAllClaimablePositions env = Ok allPositions ->
  targetPositionsOf tokenMint allPositions <> [] ->
  (LOTTERY_POT_THRESHOLD cfg
   <= computedPot (targetPositionsOf tokenMint allPositions))%Q ->
  (forall k p, isThrow (getClaimTransaction env k p) = false) ->
  let targets := targetPositionsOf tokenMint allPositions in
  let out := claimFeesForToken cfg env tokenMint w in
  fst out = Ok true /\
  currentPotSize (snd out) = computedPot targets /\
  trace (snd out)
    = trace w ++ EvClaimPhase :: claimEvents env 0 targets ++ [EvClaimDone] /\
  (forall i p j fate,
     nth_error targets i = Some p ->
     nth_error (transactionsOf env i p) j = Some fate ->
     In (finalEvent i j fate) (trace (snd out))).
Proof.
  intros Hall Htargets Hge Hbuild targets out. subst out.
  unfold claimFeesForToken, tryCatch. rewrite claimFeesBody_run, Hall.
  fold targets in Htargets, Hge |- *.
  assert (Hrun : claimOutcome env 0 targets = (Ok tt, claimEvents env 0 targets))
    by (apply claimOutcome_all; exact Hbuild).
  destruct targets as [|t rest] eqn:E; [congruence|].
  cbv zeta. apply Qltb_false in Hge. rewrite Hge, Hrun. cbn [fst snd].
  split; [reflexivity|]. split; [reflexivity|]. split; [reflexivity|].
  intros i p j fate Hi Hj. cbn [logs trace setPot].
  apply in_or_app. right. right. apply in_or_app. left.
  apply (claimEvents_in env (t :: rest) 0 i p j fate Hi Hj).
Qed.

Lemma claim_partial_failures_witness :
  fst (claimFeesForToken cfg1000 feeAtThreshold "MINT" initialWorld) = Ok true /\
  currentPotSize
    (snd (claimFeesForToken cfg1000 feeAtThreshold "MINT" initialWorld))
    = computedPot [position600_400] /\
  trace (snd (claimFeesForToken cfg1000 feeAtThreshold "MINT" initialWorld))
    = [EvClaimPhase; EvClaimRequested 0;
       EvClaimSent 0 0; EvClaimTxError 0 0;
       EvClaimSent 0 1; EvClaimConfirmed 0 1; EvClaimDone].
Proof.
  destruct (claim_partial_failures cfg1000 feeAtThreshold "MINT" initialWorld
              [positionOther; position600_400] eq_refl ltac:(discriminate))
    as (Hr & Hp & Ht & _).
  - vm_compute. discriminate.
  - reflexivity.
  - split; [exact Hr|]. split; [exact Hp|]. exact Ht.
Defined.

(** C10: [claimFeesForToken] never throws, it always returns a boolean;
    when the position query throws it returns false and leaves the shared
    pot as it was; when building the claim transactions throws it returns
    false and the shared pot holds the computed sum (not 0); in general,
    when its [try] block throws, it returns false with the pot as it was at
    the throw. *)
Theorem claimFees_never_throws (cfg : Config) (env : FeeEnv)
    (tokenMint : string) (w : World) :
  let out := claimFeesForToken cfg env tokenMint w in
  (exists b, fst out = Ok b) /\
  (forall m, getAllClaimablePositions env = Throw m ->
     fst out = Ok false /\ currentPotSize (snd out) = currentPotSize w /\
     trace (snd out) = trace w ++ [EvUnexpected m]) /\
  (forall allPositions i p,
     getAllClaimablePositions env = Ok allPositions ->
     (LOTTERY_POT_THRESHOLD cfg
      <= computedPot (targetPositionsOf tokenMint allPositions))%Q ->
     nth_error (targetPositionsOf tokenMint allPositions) i = Some p ->
     isThrow (getClaimTransaction env i p) = true ->
     fst out = Ok false /\
     currentPotSize (snd out)
     = computedPot (targetPositionsOf tokenMint allPositions)) /\
  (forall m w1, claimFeesBody cfg env tokenMint w = (Throw m, w1) ->
     fst out = Ok false /\ currentPotSize (snd out) = currentPotSize w1 /\
     trace (snd out) = trace w1 ++ [EvUnexpected m]).
Proof.
  intros out. subst out. unfold claimFeesForToken, tryCatch.
  split; [|split; [|split]].
  - destruct (claimFeesBody cfg env tokenMint w) as [[b|m] w1]; simpl; eauto.
  - intros m Hq. rewrite claimFeesBody_run, Hq. simpl. auto.
  - intros allPositions i p Hq Hge Hi Hthrow.
    rewrite claimFeesBody_run, Hq.
    destruct (targetPositionsOf tokenMint allPositions) as [|t rest] eqn:E.
    + destruct i; discriminate.
    + cbv zeta. apply Qltb_false in Hge. rewrite Hge.
      destruct (claimOutcome_throws env (t :: rest) 0 i p Hi Hthrow)
        as (m & evs & ->).
      simpl. auto.
  - intros m w1 ->. simpl. auto.
Qed.

Lemma claimFees_never_throws_witness :
  fst (claimFeesForToken cfg1000 feeBuildThrows "MINT" initialWorld) = Ok false /\
  currentPotSize
    (snd (claimFeesForToken cfg1000 feeBuildThrows "MINT" initialWorld))
    = computedPot [position600_400].
Proof.
  apply (proj1 (proj2 (proj2
           (claimFees_never_throws cfg1000 feeBuildThrows "MINT" initialWorld)))
           [position600_400] 0%nat position600_400 eq_refl).
  - vm_compute. discriminate.
  - reflexivity.
  - reflexivity.
Defined.

(** * Properties of the Round Scheduler *)

(** Relations between the world before and after a computation that are
    kept by sequencing and by [try]/[catch]. *)
Section Preserves.

Variable R : World -> World -> Prop.
Hypothesis R_refl : forall w, R w w.
Hypothesis R_trans : forall w1 w2 w3, R w1 w2 -> R w2 w3 -> R w1 w3.

Lemma preserves_ret {A} (a : A) : preserves R (ret a).
Proof. intros w. apply R_refl. Qed.

Lemma preserves_throw {A} (m : string) : preserves R (@throw A m).
Proof. intros w. apply R_refl. Qed.

Lemma preserves_lift {A} (r : result A) : preserves R (lift r).
Proof. intros w. apply R_refl. Qed.

Lemma preserves_gets {A} (f : World -> A) : preserves R (gets f).
Proof. intros w. apply R_refl. Qed.

Lemma preserves_modify (f : World -> World) :
  (forall w, R w (f w)) -> preserves R (modify f).
Proof. intros H w. apply H. Qed.

Lemma preserves_bind {A B} (c : M A) (k : A -> M B) :
  preserves R c -> (forall a, preserves R (k a)) -> preserves R (bind c k).
Proof.
  intros Hc Hk w. unfold bind. specialize (Hc w).
  destruct (c w) as [[a|m] w1]; simpl in *; [|exact Hc].
  eapply R_trans; [exact Hc|apply Hk].
Qed.

Lemma preserves_tryCatch {A} (c : M A) (h : string -> M A) :
  preserves R c -> (forall m, preserves R (h m)) -> preserves R (tryCatch c h).
Proof.
  intros Hc Hh w. unfold tryCatch. specialize (Hc w).
  destruct (c w) as [[a|m] w1]; simpl in *; [exact Hc|].
  eapply R_trans; [exact Hc|apply Hh].
Qed.

Lemma preserves_tryFinally {A} (c : M A) (f : World -> World) :
  preserves R c -> (forall w, R w (f w)) -> preserves R (tryFinally c f).
Proof.
  intros Hc Hf w. unfold tryFinally. specialize (Hc w).
  destruct (c w) as [r w1]. simpl in *.
  eapply R_trans; [exact Hc|apply Hf].
Qed.

Lemma preserves_rethrowAs {A} (prefix : string) (c : M A) :
  preserves R c -> preserves R (rethrowAs prefix c).
Proof.
  intros Hc. apply preserves_tryCatch; [exact Hc|].
  intros m. apply preserves_throw.
Qed.

End Preserves.

(** Takes a computation apart along its binds, handlers and case
    distinctions; what is left are the state updates and the calls of other
    functions. *)
Ltac preserve_steps Hrefl Htrans :=
  repeat match goal with
    | |- preserves _ (ret _) => apply (preserves_ret _ Hrefl)
    | |- preserves _ (throw _) => apply (preserves_throw _ Hrefl)
    | |- preserves _ (lift _) => apply (preserves_lift _ Hrefl)
    | |- preserves _ (gets _) => apply (preserves_gets _ Hrefl)
    | |- preserves _ (rethrowAs _ _) =>
        apply (preserves_rethrowAs _ Hrefl Htrans)
    | |- preserves _ (bind _ _) =>
        apply (preserves_bind _ Htrans); [|intros ?]
    | |- preserves _ (tryCatch _ _) =>
        apply (preserves_tryCatch _ Htrans); [|intros ?]
    | |- preserves _ (tryFinally _ _) =>
        apply (preserves_tryFinally _ Htrans); [|intros ?]
    | |- preserves _ (emit _) => unfold emit
    | |- preserves _ (modify _) => apply preserves_modify; intros ?
    | |- preserves _ (if ?b then _ else _) => destruct b
    | |- preserves _ (match ?x with _ => _ end) => destruct x
    end.

(** ** A round that fails before the pipeline keeps [isLotteryRunning] *)

Section FlagFacts.

Lemma keepsFlag_refl (w : World) : keepsFlag w w.
Proof. reflexivity. Qed.

Lemma keepsFlag_trans (w1 w2 w3 : World) :
  keepsFlag w1 w2 -> keepsFlag w2 w3 -> keepsFlag w1 w3.
Proof. unfold keepsFlag. congruence. Qed.

Lemma requestVRF_keepsFlag (env : VrfEnv) : preserves keepsFlag (requestVRF env).
Proof.
  unfold requestVRF.
  preserve_steps keepsFlag_refl keepsFlag_trans; reflexivity.
Qed.

Lemma consumeRandomness_keepsFlag (env : VrfEnv) (account : nat) :
  preserves keepsFlag (consumeRandomness env account).
Proof.
  unfold consumeRandomness, load.
  preserve_steps keepsFlag_refl keepsFlag_trans; reflexivity.
Qed.

Lemma pickWinner_keepsFlag (env : Env) (traders : list TraderVolume) (r : Z) :
  preserves keepsFlag (pickWinner env traders r).
Proof.
  unfold pickWinner.
  preserve_steps keepsFlag_refl keepsFlag_trans.
Qed.

Lemma beforePipeline_keepsFlag (env : Env) (traders : list TraderVolume) :
  preserves keepsFlag (beforePipeline env traders).
Proof.
  unfold beforePipeline.
  apply (preserves_bind _ keepsFlag_trans); [apply requestVRF_keepsFlag|].
  intros account.
  apply (preserves_bind _ keepsFlag_trans);
    [apply consumeRandomness_keepsFlag|].
  intros r. apply pickWinner_keepsFlag.
Qed.

(** The round is the part before the pipeline, then the pipeline. *)
Lemma lotteryRound_split (env : Env) (traders : list TraderVolume)
    (w : World) :
  lotteryRound env traders w
  = match beforePipeline env traders w with
    | (Ok winner, w1) =>
        match processLottery (pay env) winner (currentPotSize w1) w1 with
        | (Ok u, w2) => (Ok u, w2)
        | (Throw m, w2) =>
            (Throw ("Failed to process lottery: " ++ m)%string,
             record (EvRoundFailed m) w2)
        end
    | (Throw m, w1) =>
        (Throw ("Failed to process lottery: " ++ m)%string,
         record (EvRoundFailed m) w1)
    end.
Proof.
  unfold lotteryRound, beforePipeline, tryCatch.
  unfold bind at 1 6.
  destruct (requestVRF (vrf env) w) as [[account|m] w1]; [|reflexivity].
  unfold bind at 1 5.
  destruct (consumeRandomness (vrf env) account w1) as [[r|m] w2];
    [|reflexivity].
  unfold bind at 1.
  destruct (pickWinner env traders r w2) as [[winner|m] w3]; [|reflexivity].
  unfold bind at 1. unfold gets. reflexivity.
Qed.

Lemma claimFees_keepsFlag (cfg : Config) (env : FeeEnv) (tokenMint : string) :
  preserves keepsFlag (claimFeesForToken cfg env tokenMint).
Proof.
  intros w. unfold claimFeesForToken, tryCatch.
  rewrite claimFeesBody_run.
  destruct (getAllClaimablePositions env) as [allPositions|m];
    [|reflexivity].
  destruct (targetPositionsOf tokenMint allPositions) as [|t targets];
    [reflexivity|].
  cbv zeta.
  destruct (Qltb _ _); [reflexivity|].
  destruct (claimOutcome env 0 (t :: targets)) as [[[]|m] evs]; reflexivity.
Qed.

(** A tick that finds the flag set does nothing but report it. *)
Lemma tick_skips (cfg : Config) (env : Env) (w : World) :
  isLotteryRunning w = true ->
  tick cfg env w = (Ok tt, record EvSkipTick w).
Proof.
  intros H. unfold tick, bind, gets. rewrite H. reflexivity.
Qed.

(** Once the flag is stuck, every later tick is skipped. *)
Lemma runTicks_stuck (cfg : Config) (envs : list Env) (w : World) :
  isLotteryRunning w = true ->
  isLotteryRunning (runTicks cfg envs w) = true /\
  trace (runTicks cfg envs w)
  = trace w ++ repeat EvSkipTick (List.length envs).
Proof.
  revert w. induction envs as [|env rest IH]; intros w H.
  - simpl. now rewrite app_nil_r.
  - cbn [runTicks]. rewrite tick_skips by exact H. cbn [snd].
    destruct (IH (record EvSkipTick w) H) as [Hr Ht].
    split; [exact Hr|]. rewrite Ht. simpl. now rewrite <- app_assoc.
Qed.

(** Whenever the monitor reports a claim, the status write succeeds,
    there are traders, and the round fails before the pipeline (at the
    VRF request, at the consumption, or at the choice of the winner), the
    tick ends with [isLotteryRunning] still true. *)
Lemma tick_failure_before_pipeline (cfg : Config) (env : Env) (w : World) :
  isLotteryRunning w = false ->
  fst (claimFeesForToken cfg (fee env) (PROJECT_TOKEN_MINT_ADDRESS cfg) w)
    = Ok true ->
  statusUpdate env = Ok tt ->
  tradersWallet env <> [] ->
  (forall w1, isThrow (fst (beforePipeline env (tradersWallet env) w1)) = true) ->
  isLotteryRunning (snd (tick cfg env w)) = true.
Proof.
  intros Hflag Hclaim Hstatus Htraders Hfail.
  unfold tick. unfold bind at 1. unfold gets at 1. rewrite Hflag.
  unfold tryCatch at 1. unfold bind at 1.
  destruct (claimFeesForToken cfg (fee env) (PROJECT_TOKEN_MINT_ADDRESS cfg) w)
    as [[b|m] w1] eqn:E; simpl in Hclaim; [|discriminate].
  injection Hclaim as ->.
  unfold bind at 1. unfold gets at 1.
  unfold bind at 1. unfold gets at 1.
  unfold bind at 1. rewrite Hstatus. unfold lift at 1.
  unfold bind at 1. unfold emit at 1. unfold modify at 1.
  unfold bind at 1. unfold modify at 1.
  destruct (tradersWallet env) as [|t rest] eqn:Et; [congruence|].
  rewrite lotteryRound_split.
  set (w2 := setRunning true _).
  specialize (Hfail w2).
  pose proof (beforePipeline_keepsFlag env (t :: rest) w2) as Hkeep.
  destruct (beforePipeline env (t :: rest) w2) as [[winner|m] w3];
    [discriminate|].
  simpl in Hkeep |- *. unfold keepsFlag in Hkeep.
  rewrite Hkeep. reflexivity.
Qed.

End FlagFacts.

(** ** The tick neither waits for the oracle nor reveals *)

Section QuietFacts.

Lemma addsQuiet_refl (w : World) : addsQuiet w w.
Proof. exists []. split; [now rewrite app_nil_r|constructor]. Qed.

Lemma addsQuiet_trans (w1 w2 w3 : World) :
  addsQuiet w1 w2 -> addsQuiet w2 w3 -> addsQuiet w1 w3.
Proof.
  intros (e1 & H1 & F1) (e2 & H2 & F2). exists (e1 ++ e2). split.
  - rewrite H2, H1. now rewrite app_assoc.
  - apply Forall_app. now split.
Qed.

Ltac quiet_update :=
  first [ assumption
        | exists []; split; [simpl; now rewrite app_nil_r|constructor]
        | eexists [_]; split;
          [reflexivity|constructor; [reflexivity|constructor]] ].

Ltac quiet := preserve_steps addsQuiet_refl addsQuiet_trans; try quiet_update.

Lemma sumPositions_quiet (positions : list Position) :
  preserves addsQuiet (sumPositions positions).
Proof. induction positions as [|p rest IH]; cbn [sumPositions]; quiet. Qed.

Lemma claimTxs_quiet (i : nat) (fates : list TxFate) :
  forall j, preserves addsQuiet (claimTxs i j fates).
Proof.
  induction fates as [|fate rest IH]; intros j; cbn [claimTxs].
  - quiet.
  - unfold claimTx. quiet. apply IH.
Qed.

Lemma claimPositions_quiet (env : FeeEnv) (positions : list Position) :
  forall i, preserves addsQuiet (claimPositions env i positions).
Proof.
  induction positions as [|p rest IH]; intros i; cbn [claimPositions].
  - quiet.
  - quiet; try apply IH. apply claimTxs_quiet.
Qed.

Lemma claimFees_quiet (cfg : Config) (env : FeeEnv) (tokenMint : string) :
  preserves addsQuiet (claimFeesForToken cfg env tokenMint).
Proof.
  unfold claimFeesForToken, claimFeesBody. quiet.
  - apply sumPositions_quiet.
  - apply claimPositions_quiet.
Qed.

Lemma processLottery_quiet (env : PayoutEnv) (winner : string) (pot : Q) :
  preserves addsQuiet (processLottery env winner pot).
Proof. unfold processLottery. quiet. Qed.

Lemma lotteryRound_quiet (env : Env) (traders : list TraderVolume) :
  preserves addsQuiet (lotteryRound env traders).
Proof.
  unfold lotteryRound, requestVRF, consumeRandomness, load, pickWinner.
  quiet. apply processLottery_quiet.
Qed.

(** No event of waiting for fulfilment, of revealing, or of retrying is
    ever added by a tick. *)
Lemma tick_never_awaits_or_reveals (cfg : Config) (env : Env) (w : World) :
  exists evs,
    trace (snd (tick cfg env w)) = trace w ++ evs /\
    Forall (fun e => awaitsOrReveals e = false) evs.
Proof.
  revert w. change (preserves addsQuiet (tick cfg env)).
  unfold tick. quiet.
  - apply claimFees_quiet.
  - apply lotteryRound_quiet.
Qed.

End QuietFacts.

(** ** The workflow of VRF.ts consumes only after fulfilment and reveal *)

Section WorkflowFacts.

Lemma waitLoop_true (env : VrfEnv) (account : nat) (delayMs : Z) :
  forall left attempt w w',
    waitLoop env account delayMs left attempt w = (Ok true, w') ->
    exists pre k, trace w' = pre ++ [EvFulfilled account k].
Proof.
  induction left as [|left IH]; intros attempt w w' H.
  - discriminate.
  - cbn [waitLoop] in H. unfold bind at 1 in H. unfold tryCatch in H.
    unfold bind at 1 in H. unfold load in H.
    unfold bind at 1 in H. unfold gets at 1 in H.
    unfold bind at 1 in H. unfold modify at 1 in H.
    unfold bind at 1 in H. unfold emit at 1, modify at 1 in H.
    unfold lift at 1 in H.
    set (w1 := record (EvLoad account) (countRead w)) in H.
    assert (Hsleep : forall w2,
               (emit (EvSleep delayMs) ;;; ret false)%monad w2
               = (Ok false, record (EvSleep delayMs) w2)) by reflexivity.
    destruct (loadData env account (reads w)) as [data|m].
    + destruct (resultOf data) as [buf|].
      * destruct (allZero buf); cbn [negb] in H.
        -- rewrite Hsleep in H. apply IH in H. exact H.
        -- unfold bind, emit, modify, ret in H. injection H as <-.
           exists (trace w1), attempt. reflexivity.
      * rewrite Hsleep in H. apply IH in H. exact H.
    + rewrite Hsleep in H. apply IH in H. exact H.
Qed.

Lemma vrfAttempt_ok (env : VrfEnv) (w w' : World) (v : Z) :
  vrfAttempt env w = (Ok v, w') ->
  exists pre account k,
    trace w' = pre ++ [EvFulfilled account k; EvReveal account; EvLoad account].
Proof.
  unfold vrfAttempt. intros H.
  unfold bind at 1 in H.
  destruct (requestVRF env w) as [[account|m] w1]; [|discriminate].
  unfold bind at 1 in H. unfold waitForFulfillment in H.
  unfold bind at 1 in H. unfold gets at 1 in H.
  destruct (sbProgram w1) eqn:Hsb; cbn [negb] in H; [|discriminate].
  destruct (waitLoop env account 5000 30 1 w1) as [[[|]|m] w2] eqn:Hwait;
    try discriminate.
  apply waitLoop_true in Hwait. destruct Hwait as (pre & k & Hpre).
  unfold bind at 1 in H. cbn [negb] in H. unfold ret at 1 in H.
  unfold bind at 1 in H. unfold revealRandomness in H.
  unfold bind at 1 in H. unfold gets at 1 in H.
  destruct (sbProgram w2) eqn:Hsb2; cbn [negb] in H; [|discriminate].
  unfold bind at 1 in H. unfold lift at 1 in H.
  destruct (revealTx env account) as [[]|m]; [|discriminate].
  unfold emit at 1, modify at 1 in H.
  rewrite consumeRandomness_run in H by exact Hsb2. cbv zeta in H.
  assert (Htrace : trace (record (EvLoad account)
                            (countRead (record (EvReveal account) w2)))
                   = pre ++ [EvFulfilled account k; EvReveal account;
                             EvLoad account]).
  { simpl. rewrite Hpre, <- !app_assoc. reflexivity. }
  exists pre, account, k. rewrite <- Htrace.
  destruct (loadData env account _) as [data|m]; [|discriminate].
  destruct (resultOf data) as [buf|]; [|discriminate].
  destruct (allZero buf); [discriminate|].
  injection H as _ <-. reflexivity.
Qed.

(** A value returned by [executeVRFWorkflow] was read right after the
    fulfilment of the same account had been seen and its reveal
    transaction confirmed. *)
Lemma workflow_consumes_after_reveal (env : VrfEnv) (maxRetries : nat)
    (w w' : World) (v : Z) :
  executeVRFWorkflow env maxRetries w = (Ok v, w') ->
  exists pre account k,
    trace w' = pre ++ [EvFulfilled account k; EvReveal account; EvLoad account].
Proof.
  unfold executeVRFWorkflow. generalize 1%nat as attempt.
  revert w. induction maxRetries as [|left IH]; intros w attempt H.
  - discriminate.
  - cbn [workflowLoop] in H. unfold tryCatch in H.
    destruct (vrfAttempt env w) as [[v0|m] w1] eqn:Hattempt.
    + injection H as <- <-. eapply vrfAttempt_ok; eauto.
    + unfold bind at 1 in H. unfold emit at 1, modify at 1 in H.
      destruct left as [|left']; [discriminate|].
      unfold bind at 1 in H. unfold emit at 1, modify at 1 in H.
      apply IH in H. exact H.
Qed.

End WorkflowFacts.

Section SchedulerIndex.

(** The index the scheduler uses: [randomValue mod traders.length]. *)
Lemma pickWinner_index (env : Env) (traders : list TraderVolume) (r : Z)
    (w : World) (entry : TraderVolume) :
  0 <= r ->
  Z.of_nat (List.length traders) < BN.SAFE ->
  nth_error traders (Z.to_nat (r mod Z.of_nat (List.length traders)))
    = Some entry ->
  pickWinner env traders r w = (newPublicKey env entry, w).
Proof.
  intros Hr Hlen Hnth.
  assert (Hne : Z.of_nat (List.length traders) <> 0).
  { destruct traders; [|simpl; lia].
    destruct (Z.to_nat _); discriminate. }
  unfold pickWinner. unfold bind at 1.
  rewrite BN_ofNumber_safe by lia. unfold lift at 1.
  unfold bind at 1. rewrite BN_mod_nonzero by exact Hne. unfold lift at 1.
  rewrite Z.rem_mod_nonneg by lia.
  pose proof (Z.mod_pos_bound r (Z.of_nat (List.length traders))
                ltac:(lia)) as Hb.
  unfold bind at 1. rewrite BN_toNumber_safe by lia. unfold lift at 1.
  destruct (Z.ltb_spec (r mod Z.of_nat (List.length traders)) 0); [lia|].
  rewrite Hnth. reflexivity.
Qed.

End SchedulerIndex.

Example tick_without_traders :
  tick cfg1000 envNoTraders initialWorld
  = (Ok tt,
     mkWorld false 0%Q true true 0 0
       [EvClaimPhase; EvClaimRequested 0; EvClaimSent 0 0; EvClaimTxError 0 0;
        EvClaimSent 0 1; EvClaimConfirmed 0 1; EvClaimDone;
        EvStatus (1000 # 1) false]).
Proof. vm_compute. reflexivity. Qed.

Example workflow_gives_up_after_three_attempts :
  fst (executeVRFWorkflow vrfCommitFails 3 initialWorld)
    = Throw "VRF workflow failed: VRF commit transaction failed: blockhash not found" /\
  keypairs (snd (executeVRFWorkflow vrfCommitFails 3 initialWorld)) = 3%nat.
Proof. split; vm_compute; reflexivity. Qed.

(** C1: at a tick in which the fees are claimed, traders are found and the
    commit transaction of the VRF request fails, the callback ends with
    [isLotteryRunning] still true although no round is in progress, and
    every tick after it is skipped. *)
Theorem tick_stuck_after_commit_failure :
  isLotteryRunning initialWorld = false /\
  isLotteryRunning (snd (tick cfg1000 envCommitFails initialWorld)) = true /\
  (forall envs : list Env,
     let stuck := snd (tick cfg1000 envCommitFails initialWorld) in
     isLotteryRunning (runTicks cfg1000 envs stuck) = true /\
     trace (runTicks cfg1000 envs stuck)
     = trace stuck ++ repeat EvSkipTick (List.length envs)).
Proof.
  split; [reflexivity|]. split; [vm_compute; reflexivity|].
  intros envs stuck. apply runTicks_stuck. vm_compute. reflexivity.
Qed.

(** C3: the scheduler commits and then reads the randomness account at
    once, with no wait for fulfilment, no reveal and no retry: when the
    oracle has not answered yet the round fails at the first read (and
    [isLotteryRunning] stays true), where [executeVRFWorkflow] in the same
    surroundings waits, reveals and returns 250; and no firing of the
    timer, whatever the outside answers, ever waits for fulfilment, sends
    a reveal or retries. *)
Theorem scheduler_consumes_without_reveal :
  trace (snd (tick cfg1000 envOracleLater initialWorld))
    = [EvClaimPhase; EvClaimRequested 0; EvClaimSent 0 0; EvClaimTxError 0 0;
       EvClaimSent 0 1; EvClaimConfirmed 0 1; EvClaimDone;
       EvStatus (1000 # 1) false; EvCreate 0; EvCommit 0; EvLoad 0;
       EvRoundFailed "Randomness result empty.";
       EvTickError "Failed to process lottery: Randomness result empty."] /\
  isLotteryRunning (snd (tick cfg1000 envOracleLater initialWorld)) = true /\
  fst (executeVRFWorkflow (vrf envOracleLater) 3 initialWorld) = Ok 250 /\
  trace (snd (executeVRFWorkflow (vrf envOracleLater) 3 initialWorld))
    = [EvCreate 0; EvCommit 0; EvLoad 0; EvSleep 5000; EvLoad 0;
       EvFulfilled 0 2; EvReveal 0; EvLoad 0] /\
  ~ In (EvReveal 0) (trace (snd (tick cfg1000 envRound250 initialWorld))) /\
  (forall (cfg : Config) (env : Env) (w : World),
     exists evs,
       trace (snd (tick cfg env w)) = trace w ++ evs /\
       Forall (fun e => awaitsOrReveals e = false) evs).
Proof.
  split; [vm_compute; reflexivity|].
  split; [vm_compute; reflexivity|].
  split; [vm_compute; reflexivity|].
  split; [vm_compute; reflexivity|].
  split.
  - destruct (tick_never_awaits_or_reveals cfg1000 envRound250 initialWorld)
      as (evs & Ht & Hq).
    rewrite Ht. simpl. intros Hin.
    apply (proj1 (Forall_forall _ _) Hq) in Hin. discriminate.
  - intros cfg env w. apply tick_never_awaits_or_reveals.
Qed.

(** * Further properties of the Winner Selector *)

Section SelectorRanges.

Lemma weightOf_small (t : TraderVolume) :
  (volumeUsd t < 2 # 1)%Q -> weightOf t = 1.
Proof.
  intros H. unfold weightOf.
  pose proof (Qfloor_le (volumeUsd t)) as Hle.
  assert (Hlt : (inject_Z (Qfloor (volumeUsd t)) < inject_Z 2)%Q).
  { eapply Qle_lt_trans; [exact Hle|exact H]. }
  rewrite <- Zlt_Qlt in Hlt. lia.
Qed.

Lemma sumWeights_ones (ws : list Z) :
  Forall (fun w => w = 1) ws -> sumWeights ws = Z.of_nat (List.length ws).
Proof.
  induction 1 as [|w ws Hw _ IH]; [reflexivity|].
  rewrite sumWeights_cons, IH, Hw. simpl List.length. lia.
Qed.

Lemma Forall_firstn_ones (ws : list Z) (n : nat) :
  Forall (fun w => w = 1) ws -> Forall (fun w => w = 1) (firstn n ws).
Proof.
  intros H. revert n. induction H as [|w ws Hw _ IH]; intros [|n]; simpl; auto.
Qed.

Lemma cumulativeAt_ones (ws : list Z) (n : nat) :
  Forall (fun w => w = 1) ws -> (n <= List.length ws)%nat ->
  cumulativeAt ws n = Z.of_nat n.
Proof.
  intros H Hn. unfold cumulativeAt.
  rewrite sumWeights_ones by (apply Forall_firstn_ones; exact H).
  rewrite length_firstn. lia.
Qed.

Lemma weightsOf_small (traders : list TraderVolume) :
  Forall (fun t => (volumeUsd t < 2 # 1)%Q) traders ->
  Forall (fun w => w = 1) (weightsOf traders).
Proof.
  induction 1 as [|t ts Ht _ IH]; simpl; constructor; auto.
  now apply weightOf_small.
Qed.

End SelectorRanges.

(** X1: with a safe total weight and a non-negative random value, trader
    [i] wins exactly when [randomValue mod totalWeight] lies between the
    cumulative weight before [i] and the cumulative weight after [i]. *)
Theorem selectWinner_owns_range (traders : list TraderVolume) (r : Z) (i : nat) :
  traders <> [] ->
  sumWeights (weightsOf traders) < BN.SAFE ->
  0 <= r ->
  ((exists lg s, selectWinnerFromTraders traders r = Ok (lg, s) /\
                 winnerIndex s = i) <->
   (i < List.length traders)%nat /\
   cumulativeAt (weightsOf traders) i
     <= r mod sumWeights (weightsOf traders)
     < cumulativeAt (weightsOf traders) (S i)).
Proof.
  intros Hne Hsafe Hr.
  pose proof (total_pos traders Hne) as Hpos.
  destruct (selectWinner_safe traders r Hne Hsafe)
    as (i0 & a & Hw & Hi0 & _ & Hsel).
  rewrite Z.rem_mod_nonneg in * by lia.
  pose proof (Z.mod_pos_bound r _ Hpos) as Hb.
  pose proof (walk_Some_iff (weightsOf traders) (weightsOf_pos traders)
                0 (r mod sumWeights (weightsOf traders)) 0) as Hiff.
  assert (Hlen : List.length (weightsOf traders) = List.length traders)
    by (unfold weightsOf; apply length_map).
  split.
  - intros (lg & s & Hs & <-). rewrite Hsel in Hs. injection Hs as _ <-.
    cbn [winnerIndex].
    destruct (proj1 (Hiff i0 ltac:(lia)) Hw) as (_ & _ & Hrange).
    rewrite Nat.sub_0_r in Hrange. split; [exact Hi0|lia].
  - intros (Hi & Hrange).
    assert (Hwi : walk (weightsOf traders)
                    (r mod sumWeights (weightsOf traders)) 0 0 = Some i).
    { apply Hiff; [lia|]. rewrite Nat.sub_0_r. repeat split; lia. }
    rewrite Hwi in Hw. injection Hw as <-.
    eexists _, _. split; [exact Hsel|reflexivity].
Qed.

Lemma selectWinner_owns_range_witness :
  (exists lg s, selectWinnerFromTraders [traderA100; traderB300] 1050
                = Ok (lg, s) /\ winnerIndex s = 1%nat) <->
  (1 < 2)%nat /\
  cumulativeAt (weightsOf [traderA100; traderB300]) 1
    <= 1050 mod sumWeights (weightsOf [traderA100; traderB300])
    < cumulativeAt (weightsOf [traderA100; traderB300]) 2.
Proof.
  apply (selectWinner_owns_range [traderA100; traderB300] 1050 1).
  - discriminate.
  - vm_compute. reflexivity.
  - lia.
Defined.

(** X2: when every trader's volume is below 2 USD all weights are 1, and
    the weighted selector returns index [randomValue mod traders.length],
    the entry the scheduler's own draw takes. *)
Theorem selector_uniform_on_small_volumes (env : Env)
    (traders : list TraderVolume) (r : Z) (w : World) :
  traders <> [] ->
  Forall (fun t => (volumeUsd t < 2 # 1)%Q) traders ->
  0 <= r ->
  Z.of_nat (List.length traders) < BN.SAFE ->
  exists lg s entry,
    selectWinnerFromTraders traders r = Ok (lg, s) /\
    Z.of_nat (winnerIndex s) = r mod Z.of_nat (List.length traders) /\
    nth_error traders (winnerIndex s) = Some entry /\
    winner s = walletAddress entry /\
    pickWinner env traders r w = (newPublicKey env entry, w).
Proof.
  intros Hne Hsmall Hr Hlen.
  pose proof (weightsOf_small traders Hsmall) as Hones.
  assert (Hwl : List.length (weightsOf traders) = List.length traders)
    by (unfold weightsOf; apply length_map).
  assert (Htotal : sumWeights (weightsOf traders)
                   = Z.of_nat (List.length traders))
    by (rewrite sumWeights_ones by exact Hones; now rewrite Hwl).
  destruct (selectWinner_safe traders r Hne ltac:(lia))
    as (i & a & Hw & Hi & Ha & Hsel).
  assert (Hn : 0 < Z.of_nat (List.length traders))
    by (destruct traders; [congruence|simpl; lia]).
  rewrite Htotal, Z.rem_mod_nonneg in * by lia.
  pose proof (Z.mod_pos_bound r _ Hn) as Hb.
  destruct (proj1 (walk_Some_iff (weightsOf traders) (weightsOf_pos traders)
                     0 (r mod Z.of_nat (List.length traders)) 0 i
                     ltac:(lia)) Hw) as (_ & _ & Hrange).
  rewrite Nat.sub_0_r in Hrange.
  rewrite !cumulativeAt_ones in Hrange by (try exact Hones; lia).
  assert (Hidx : Z.of_nat i = r mod Z.of_nat (List.length traders)) by lia.
  unfold addressAt in Ha.
  destruct (nth_error traders i) as [entry|] eqn:Hnth; [|discriminate].
  injection Ha as <-.
  eexists LogWinnerSelected, _, entry. split; [exact Hsel|].
  cbn [winnerIndex winner]. repeat split; try assumption.
  apply pickWinner_index; try assumption.
  rewrite <- Hidx, Nat2Z.id. exact Hnth.
Qed.

Lemma selector_uniform_on_small_volumes_witness :
  exists lg s entry,
    selectWinnerFromTraders tradersSmall 250 = Ok (lg, s) /\
    Z.of_nat (winnerIndex s) = 250 mod Z.of_nat (List.length tradersSmall) /\
    nth_error tradersSmall (winnerIndex s) = Some entry /\
    winner s = walletAddress entry /\
    pickWinner envRound250 tradersSmall 250 initialWorld
    = (newPublicKey envRound250 entry, initialWorld).
Proof.
  apply (selector_uniform_on_small_volumes envRound250 tradersSmall 250
           initialWorld).
  - discriminate.
  - repeat constructor.
  - lia.
  - vm_compute. reflexivity.
Defined.

(** * Further properties of the Randomness Protocol Client *)

Section DecodeFacts.

Lemma byte_to_N_inj (a b : byte) : Byte.to_N a = Byte.to_N b -> a = b.
Proof.
  intros H. pose proof (Byte.of_to_N a) as Ha.
  rewrite H, Byte.of_to_N in Ha. congruence.
Qed.

Lemma ofBytes_inj (l1 : list byte) :
  forall l2, List.length l1 = List.length l2 ->
             BN.ofBytes l1 = BN.ofBytes l2 -> l1 = l2.
Proof.
  induction l1 as [|a l1 IH]; intros [|b l2] Hlen Heq; try discriminate.
  - reflexivity.
  - simpl in Hlen. injection Hlen as Hlen.
    rewrite !ofBytes_cons, <- Hlen in Heq.
    pose proof (ofBytes_range l1) as R1.
    pose proof (ofBytes_range l2) as R2. rewrite <- Hlen in R2.
    pose proof (byte_range a) as Ba. pose proof (byte_range b) as Bb.
    set (P := 256 ^ Z.of_nat (List.length l1)) in *.
    assert (Hab : Z.of_N (Byte.to_N a) = Z.of_N (Byte.to_N b)) by nia.
    assert (Hrest : BN.ofBytes l1 = BN.ofBytes l2) by nia.
    f_equal.
    + apply byte_to_N_inj. lia.
    + apply IH; assumption.
Qed.

End DecodeFacts.

(** X3: the value [consumeRandomness] returns is decided by the first 8
    bytes of the result buffer and by nothing else: two reads of buffers
    (each at least 8 bytes, not all zero) return the same value exactly
    when their first 8 bytes agree. *)
Theorem consumeRandomness_first8 (env1 env2 : VrfEnv) (a1 a2 : nat)
    (w1 w2 : World) (buf1 buf2 : list byte) :
  sbProgram w1 = true -> sbProgram w2 = true ->
  loadData env1 a1 (reads w1) = Ok (dataWith buf1) ->
  loadData env2 a2 (reads w2) = Ok (dataWith buf2) ->
  allZero buf1 = false -> allZero buf2 = false ->
  (8 <= List.length buf1)%nat -> (8 <= List.length buf2)%nat ->
  (fst (consumeRandomness env1 a1 w1) = fst (consumeRandomness env2 a2 w2)
   <-> firstn 8 buf1 = firstn 8 buf2).
Proof.
  intros Hi1 Hi2 Hl1 Hl2 Hz1 Hz2 Hlen1 Hlen2.
  rewrite !consumeRandomness_run by assumption. cbv zeta.
  rewrite Hl1, Hl2. cbn [resultOf dataWith currentRound roundResult].
  rewrite Hz1, Hz2. cbn [fst]. split.
  - intros [= Heq]. apply ofBytes_inj; [|exact Heq].
    rewrite !length_firstn. lia.
  - intros ->. reflexivity.
Qed.

Lemma consumeRandomness_first8_witness :
  fst (consumeRandomness vrfFulfilled 0 initialWorld)
    = fst (consumeRandomness vrfFulfilledLater 3 (countRead initialWorld))
  <-> firstn 8 buffer250 = firstn 8 buffer250.
Proof.
  apply (consumeRandomness_first8 vrfFulfilled vrfFulfilledLater 0 3
           initialWorld (countRead initialWorld) buffer250 buffer250);
    try reflexivity; simpl; lia.
Defined.

Section WaitFacts.

(** One round of the polling loop. *)
Lemma waitLoop_step (env : VrfEnv) (account : nat) (delayMs : Z)
    (left attempt : nat) (w : World) :
  waitLoop env account delayMs (S left) attempt w
  = if fulfilledAt env account (reads w)
    then (Ok true, record (EvFulfilled account attempt)
                     (record (EvLoad account) (countRead w)))
    else waitLoop env account delayMs left (S attempt)
           (record (EvSleep delayMs) (record (EvLoad account) (countRead w))).
Proof.
  cbn [waitLoop]. unfold fulfilledAt.
  unfold bind at 1. unfold tryCatch. unfold bind at 1. unfold load.
  unfold bind at 1. unfold gets at 1.
  unfold bind at 1. unfold modify at 1.
  unfold bind at 1. unfold emit at 1, modify at 1. unfold lift at 1.
  destruct (loadData env account (reads w)) as [data|m]; [|reflexivity].
  destruct (resultOf data) as [buf|]; [|reflexivity].
  destruct (allZero buf); reflexivity.
Qed.

Lemma waitLoop_spec (env : VrfEnv) (account : nat) (delayMs : Z) :
  forall left attempt w,
    let out := waitLoop env account delayMs left attempt w in
    fst out = Ok (existsb (fulfilledAt env account) (seq (reads w) left)) /\
    (reads w <= reads (snd out) <= reads w + left)%nat /\
    (fst out = Ok false -> reads (snd out) = (reads w + left)%nat) /\
    (fst out = Ok true ->
       (reads w < reads (snd out))%nat /\
       fulfilledAt env account (reads (snd out) - 1) = true /\
       forall n, (reads w <= n < reads (snd out) - 1)%nat ->
                 fulfilledAt env account n = false).
Proof.
  induction left as [|left IH]; intros attempt w out; subst out.
  - cbn. repeat split; try lia; discriminate.
  - rewrite waitLoop_step. cbn [seq existsb].
    destruct (fulfilledAt env account (reads w)) eqn:Hf.
    + cbn [fst snd orb reads record countRead].
      split; [reflexivity|]. split; [lia|]. split; [discriminate|].
      intros _. split; [lia|].
      replace (S (reads w) - 1)%nat with (reads w) by lia.
      split; [exact Hf|]. intros n Hn. lia.
    + set (w1 := record (EvSleep delayMs)
                   (record (EvLoad account) (countRead w))).
      specialize (IH (S attempt) w1).
      change (reads w1) with (S (reads w)) in IH.
      destruct IH as (Hres & Hbound & Hfalse & Htrue).
      cbn [orb]. split; [exact Hres|]. split; [lia|].
      split; [intros H; rewrite (Hfalse H); lia|].
      intros H. destruct (Htrue H) as (Hlt & Hlast & Hbefore).
      split; [lia|]. split; [exact Hlast|].
      intros n Hn. destruct (Nat.eq_dec n (reads w)) as [->|Hne];
        [exact Hf|apply Hbefore; lia].
Qed.

End WaitFacts.

(** X4: [waitForFulfillment] refuses to run before initialisation; after
    it, it never throws (an account read that throws counts as "not yet"),
    reads the account at most [maxRetries] times, answers true exactly when
    one of these reads shows a result that is not all zero, stops at the
    first such read, and answers false only after all [maxRetries] reads. *)
Theorem waitForFulfillment_spec (env : VrfEnv) (account maxRetries : nat)
    (delayMs : Z) (w : World) :
  let out := waitForFulfillment env account maxRetries delayMs w in
  (sbProgram w = false ->
     out = (Throw "VRF not initialized. Call initializeVRF first.", w)) /\
  (sbProgram w = true ->
     fst out
     = Ok (existsb (fulfilledAt env account) (seq (reads w) maxRetries)) /\
     (reads w <= reads (snd out) <= reads w + maxRetries)%nat /\
     (fst out = Ok false -> reads (snd out) = (reads w + maxRetries)%nat) /\
     (fst out = Ok true ->
        fulfilledAt env account (reads (snd out) - 1) = true /\
        forall n, (reads w <= n < reads (snd out) - 1)%nat ->
                  fulfilledAt env account n = false)).
Proof.
  intros out. subst out. unfold waitForFulfillment, bind, gets. split.
  - intros ->. reflexivity.
  - intros ->. cbn [negb].
    destruct (waitLoop_spec env account delayMs maxRetries 1 w)
      as (Hres & Hbound & Hfalse & Htrue).
    split; [exact Hres|]. split; [exact Hbound|]. split; [exact Hfalse|].
    intros H. destruct (Htrue H) as (_ & Hlast & Hbefore). now split.
Qed.

Lemma waitForFulfillment_spec_witness :
  fst (waitForFulfillment vrfFulfilledLater 0 30 5000 initialWorld) = Ok true /\
  reads (snd (waitForFulfillment vrfFulfilledLater 0 30 5000 initialWorld))
    = 2%nat /\
  fst (waitForFulfillment vrfNeverFulfilled 0 30 5000 initialWorld) = Ok false /\
  reads (snd (waitForFulfillment vrfNeverFulfilled 0 30 5000 initialWorld))
    = 30%nat.
Proof.
  destruct (proj2 (waitForFulfillment_spec vrfFulfilledLater 0 30 5000
                     initialWorld) eq_refl) as (H1 & _).
  destruct (proj2 (waitForFulfillment_spec vrfNeverFulfilled 0 30 5000
                     initialWorld) eq_refl) as (H2 & _ & H3 & _).
  split; [exact H1|]. split; [vm_compute; reflexivity|].
  split; [exact H2|]. apply H3. exact H2.
Defined.

Section RequestFacts.

Lemma newEvents_same (w w' : World) :
  trace w' = trace w -> newEvents w w' = [].
Proof. intros H. apply newEvents_app. now rewrite app_nil_r. Qed.

Lemma newEvents_two (w w' : World) (e1 e2 : Event) :
  trace w' = (trace w ++ [e1]) ++ [e2] -> newEvents w w' = [e1; e2].
Proof. intros H. apply newEvents_app. now rewrite H, <- app_assoc. Qed.

(** [requestVRF] on an initialised module, spelled out. *)
Lemma requestVRF_run (env : VrfEnv) (w : World) :
  sbProgram w && queueAccount w = true ->
  requestVRF env w
  = let a := keypairs w in
    let answers := request env a in
    let w0 := newKeypair w in
    let w1 := record (EvCreate a) w0 in
    match createIx answers with
    | Throw m => (Throw ("Failed to create randomness account: " ++ m)%string, w0)
    | Ok _ =>
      match rentExemption answers with
      | Throw m => (Throw m, w0)
      | Ok _ =>
        match createTx answers with
        | Throw m =>
            (Throw ("Failed to create randomness account on-chain: " ++ m)%string,
             w0)
        | Ok _ =>
          match accountInfo answers with
          | Throw m => (Throw m, w1)
          | Ok false =>
              (Throw "Randomness account not found after create transaction", w1)
          | Ok true =>
            match commitIx answers with
            | Throw m =>
                (Throw ("Failed to generate commit instruction: " ++ m)%string, w1)
            | Ok _ =>
              match commitTx answers with
              | Throw m =>
                  (Throw ("VRF commit transaction failed: " ++ m)%string, w1)
              | Ok _ => (Ok a, record (EvCommit a) w1)
              end
            end
          end
        end
      end
    end.
Proof.
  intros Hinit. unfold requestVRF. unfold bind at 1. unfold gets at 1.
  rewrite Hinit. cbn [negb]. cbv zeta.
  unfold bind, gets, modify, emit, rethrowAs, tryCatch, lift, throw, ret.
  destruct (request env (keypairs w)) as [c r t i ci ct]. cbn.
  destruct c; [|reflexivity]. destruct r; [|reflexivity].
  destruct t; [|reflexivity]. destruct i as [[|]|]; try reflexivity.
  destruct ci; [|reflexivity]. destruct ct; reflexivity.
Qed.

End RequestFacts.

(** X5: [requestVRF] refuses, without any effect, before both module
    variables are set; otherwise every call takes one new key pair whether
    it succeeds or not, a successful call returns that account after
    exactly a create-and-fund and then a commit transaction, and this
    happens exactly when all six steps succeed and the account is found; a
    failed call never leaves a commit. *)
Theorem requestVRF_fresh_account (env : VrfEnv) (w : World) :
  let out := requestVRF env w in
  (sbProgram w && queueAccount w = false ->
     out = (Throw "VRF not initialized.", w)) /\
  (sbProgram w && queueAccount w = true ->
     keypairs (snd out) = S (keypairs w) /\
     (forall a, fst out = Ok a ->
        a = keypairs w /\ newEvents w (snd out) = [EvCreate a; EvCommit a]) /\
     (fst out = Ok (keypairs w) <->
        request env (keypairs w)
        = mkRequest (Ok tt) (Ok tt) (Ok tt) (Ok true) (Ok tt) (Ok tt)) /\
     (isThrow (fst out) = true ->
        newEvents w (snd out) = [] \/
        newEvents w (snd out) = [EvCreate (keypairs w)])).
Proof.
  intros out. subst out. split.
  - intros H. unfold requestVRF, bind, gets. rewrite H. reflexivity.
  - intros H. rewrite requestVRF_run by exact H. cbv zeta.
    destruct (request env (keypairs w)) as [c r t i ci ct].
    cbn [createIx rentExemption createTx accountInfo commitIx commitTx].
    destruct c as [[]|]; [|repeat split; try discriminate;
      intros _; left; now apply newEvents_same].
    destruct r as [[]|]; [|repeat split; try discriminate;
      intros _; left; now apply newEvents_same].
    destruct t as [[]|]; [|repeat split; try discriminate;
      intros _; left; now apply newEvents_same].
    destruct i as [[|]|]; [| |];
      try (repeat split; try discriminate;
           intros _; right; now apply newEvents_app).
    destruct ci as [[]|]; [|repeat split; try discriminate;
      intros _; right; now apply newEvents_app].
    destruct ct as [[]|]; [|repeat split; try discriminate;
      intros _; right; now apply newEvents_app].
    cbn [fst snd]. split; [reflexivity|]. split.
    + intros a [= <-]. split; [reflexivity|]. now apply newEvents_two.
    + split; [split; reflexivity|discriminate].
Qed.

Lemma requestVRF_fresh_account_witness :
  keypairs (snd (requestVRF vrfCommitFails initialWorld)) = 1%nat /\
  (forall a, fst (requestVRF vrfFulfilled initialWorld) = Ok a ->
     a = 0%nat /\
     newEvents initialWorld (snd (requestVRF vrfFulfilled initialWorld))
     = [EvCreate a; EvCommit a]).
Proof.
  destruct (proj2 (requestVRF_fresh_account vrfCommitFails initialWorld)
              eq_refl) as (H1 & _).
  destruct (proj2 (requestVRF_fresh_account vrfFulfilled initialWorld)
              eq_refl) as (_ & H2 & _).
  split; [exact H1|exact H2].
Defined.

Section AttemptFacts.

Lemma sameModule_refl (w : World) : sameModule w w.
Proof. repeat split. Qed.

Lemma sameModule_trans (w1 w2 w3 : World) :
  sameModule w1 w2 -> sameModule w2 w3 -> sameModule w1 w3.
Proof. unfold sameModule. intuition congruence. Qed.

Ltac module_steps :=
  preserve_steps sameModule_refl sameModule_trans;
  try (repeat split; reflexivity).

Lemma waitLoop_sameModule (env : VrfEnv) (account : nat) (delayMs : Z) :
  forall left attempt,
    preserves sameModule (waitLoop env account delayMs left attempt).
Proof.
  induction left as [|left IH]; intros attempt; cbn [waitLoop].
  - module_steps.
  - unfold load. module_steps. apply IH.
Qed.

Lemma afterRequest_sameModule (env : VrfEnv) (account : nat) :
  preserves sameModule
    (fulfilled <- waitForFulfillment env account 30 5000 ;;
     (if negb fulfilled then throw "Oracle failed to fulfill randomness."
      else ret tt) ;;;
     revealRandomness env account ;;;
     consumeRandomness env account)%monad.
Proof.
  unfold waitForFulfillment, revealRandomness, consumeRandomness, load.
  module_steps. apply waitLoop_sameModule.
Qed.

(** One attempt of the workflow on an initialised module takes exactly one
    key pair, whatever its outcome. *)
Lemma vrfAttempt_keypair (env : VrfEnv) (w : World) :
  sbProgram w = true -> queueAccount w = true ->
  sbProgram (snd (vrfAttempt env w)) = true /\
  queueAccount (snd (vrfAttempt env w)) = true /\
  keypairs (snd (vrfAttempt env w)) = S (keypairs w).
Proof.
  intros Hs Hq.
  assert (Hinit : sbProgram w && queueAccount w = true)
    by (rewrite Hs, Hq; reflexivity).
  pose proof (requestVRF_run env w Hinit) as Hrun. cbv zeta in Hrun.
  assert (Hreq : sbProgram (snd (requestVRF env w)) = true /\
                 queueAccount (snd (requestVRF env w)) = true /\
                 keypairs (snd (requestVRF env w)) = S (keypairs w)).
  { rewrite Hrun.
    destruct (request env (keypairs w)) as [c r t i ci ct].
    cbn [createIx rentExemption createTx accountInfo commitIx commitTx].
    destruct c; [|cbn; auto]. destruct r; [|cbn; auto].
    destruct t; [|cbn; auto]. destruct i as [[|]|]; try (cbn; auto).
    destruct ci; [|cbn; auto]. destruct ct; cbn; auto. }
  clear Hrun.
  destruct (vrfAttempt env w) as [res w'] eqn:E. cbn [snd].
  unfold vrfAttempt in E. unfold bind at 1 in E.
  destruct (requestVRF env w) as [[account|m] w1]; cbn [snd] in Hreq.
  - destruct Hreq as (H1 & H2 & H3).
    pose proof (afterRequest_sameModule env account w1) as G.
    rewrite E in G. destruct G as (G1 & G2 & G3). cbn [snd] in G1, G2, G3.
    rewrite G1, G2, G3. auto.
  - injection E as _ <-. exact Hreq.
Qed.

Lemma workflowLoop_keypairs (env : VrfEnv) :
  forall left attempt w,
    sbProgram w = true -> queueAccount w = true ->
    let out := workflowLoop env left attempt w in
    (isThrow (fst out) = true ->
       keypairs (snd out) = (keypairs w + left)%nat) /\
    (forall v, fst out = Ok v ->
       (keypairs w < keypairs (snd out) <= keypairs w + left)%nat).
Proof.
  induction left as [|left IH]; intros attempt w Hs Hq out; subst out.
  - cbn. split; [intros _; lia|discriminate].
  - cbn [workflowLoop]. unfold tryCatch.
    destruct (vrfAttempt_keypair env w Hs Hq) as (H1 & H2 & H3).
    destruct (vrfAttempt env w) as [[v0|m] w1]; cbn [snd] in H1, H2, H3.
    + cbn [fst snd]. split; [discriminate|]. intros v _. lia.
    + unfold bind, emit, modify, throw.
      destruct left as [|left'].
      * cbn [fst snd keypairs record].
        split; [intros _; lia|discriminate].
      * set (w2 := record _ (record _ w1)).
        destruct (IH (S attempt) w2 H1 H2) as (Hthrow & Hok).
        change (keypairs w2) with (keypairs w1) in Hthrow, Hok.
        split.
        -- intros H. rewrite (Hthrow H). lia.
        -- intros v H. specialize (Hok v H). lia.
Qed.

End AttemptFacts.

(** X6: on an initialised module [executeVRFWorkflow] makes at most
    [maxRetries] attempts, each with a randomness account of its own: when
    it fails, exactly [maxRetries] key pairs have been generated; when it
    returns a value, at least one and at most [maxRetries]; with
    [maxRetries = 0] it fails at once without doing anything. *)
Theorem workflow_attempts (env : VrfEnv) (maxRetries : nat) (w : World) :
  sbProgram w = true -> queueAccount w = true ->
  let out := executeVRFWorkflow env maxRetries w in
  (isThrow (fst out) = true ->
     keypairs (snd out) = (keypairs w + maxRetries)%nat) /\
  (forall v, fst out = Ok v ->
     (keypairs w < keypairs (snd out) <= keypairs w + maxRetries)%nat) /\
  (maxRetries = 0%nat ->
     out = (Throw "VRF workflow failed after retries.", w)).
Proof.
  intros Hs Hq out. subst out. unfold executeVRFWorkflow.
  destruct (workflowLoop_keypairs env maxRetries 1 w Hs Hq) as (H1 & H2).
  split; [exact H1|]. split; [exact H2|]. intros ->. reflexivity.
Qed.

Lemma workflow_attempts_witness :
  keypairs (snd (executeVRFWorkflow vrfCommitFails 3 initialWorld)) = 3%nat /\
  (forall v, fst (executeVRFWorkflow vrfFulfilledLater 3 initialWorld) = Ok v ->
     (0 < keypairs (snd (executeVRFWorkflow vrfFulfilledLater 3 initialWorld))
      <= 3)%nat).
Proof.
  destruct (workflow_attempts vrfCommitFails 3 initialWorld eq_refl eq_refl)
    as (H1 & _).
  destruct (workflow_attempts vrfFulfilledLater 3 initialWorld eq_refl eq_refl)
    as (_ & H2 & _).
  split; [apply H1; vm_compute; reflexivity|exact H2].
Defined.

(** X7: a value returned by [executeVRFWorkflow] was read from a randomness
    account right after a poll had shown that account fulfilled and its
    reveal transaction had been confirmed: these are the last three events
    of the run. *)
Theorem workflow_value_after_reveal (env : VrfEnv) (maxRetries : nat)
    (w w' : World) (v : Z) :
  executeVRFWorkflow env maxRetries w = (Ok v, w') ->
  exists pre account attempt,
    trace w'
    = pre ++ [EvFulfilled account attempt; EvReveal account; EvLoad account].
Proof. apply workflow_consumes_after_reveal. Qed.

Lemma workflow_value_after_reveal_witness :
  exists pre account attempt,
    trace (snd (executeVRFWorkflow vrfFulfilledLater 3 initialWorld))
    = pre ++ [EvFulfilled account attempt; EvReveal account; EvLoad account].
Proof.
  apply (workflow_value_after_reveal vrfFulfilledLater 3 initialWorld _ 250).
  vm_compute. reflexivity.
Defined.

(** Closes the case of a step of [initializeVRF] that fails. *)
Ltac init_done :=
  cbn; repeat split; intros; try discriminate; try reflexivity;
  try (repeat match goal with
              | H : _ /\ _ |- _ => destruct H
              | H : exists _, _ |- _ => destruct H
              end;
       try discriminate;
       repeat match goal with
              | H : Ok _ = Ok _ |- _ => injection H as H; subst
              end;
       try lia).

(** X8: [initializeVRF] succeeds exactly when every step does and the
    balance is at least 0.1 SOL (100000000 lamports, equality included),
    and then both module variables are set.  A failure is not undone: once
    [Program.at] has answered, [sbProgram] stays set although the
    initialisation threw, and once the balance check has passed,
    [queueAccount] is set as well even when loading the queue fails, so the
    guards of the other functions no longer refuse. *)
Theorem initializeVRF_partial (env : InitEnv) (w : World) :
  let out := initializeVRF env w in
  (fst out = Ok tt <->
     programAt env = Ok tt /\
     (exists b, walletBalance env = Ok b /\ MIN_BALANCE <= b) /\
     queueLoad env = Ok tt /\ keypairFile env = true /\
     walletFromFile env = Ok tt /\ lotteryProgram env = Ok tt) /\
  (fst out = Ok tt ->
     sbProgram (snd out) = true /\ queueAccount (snd out) = true) /\
  (isThrow (programAt env) = true -> snd out = w) /\
  (programAt env = Ok tt -> sbProgram (snd out) = true) /\
  (programAt env = Ok tt ->
     forall b, walletBalance env = Ok b -> MIN_BALANCE <= b ->
               queueAccount (snd out) = true).
Proof.
  intros out. subst out. destruct env as [p b q k wf lp].
  unfold initializeVRF, bind, lift, modify, rethrowAs, tryCatch, throw, ret.
  cbn [programAt walletBalance queueLoad keypairFile walletFromFile
       lotteryProgram].
  destruct p as [[]|mp]; [|init_done].
  destruct b as [bal|mb]; [|init_done].
  destruct (Z.ltb_spec bal MIN_BALANCE) as [Hlt|Hge]; [init_done|].
  destruct q as [[]|mq]; [|init_done].
  destruct k; [|init_done].
  destruct wf as [[]|mw]; [|init_done].
  destruct lp as [[]|ml]; [|init_done].
  cbn. repeat split; intros; try reflexivity; try discriminate.
  exists bal. split; [reflexivity|lia].
Qed.

Lemma initializeVRF_partial_witness :
  fst (initializeVRF initEnvOk uninitialisedWorld) = Ok tt /\
  sbProgram (snd (initializeVRF initEnvQueueFails uninitialisedWorld)) = true /\
  queueAccount (snd (initializeVRF initEnvQueueFails uninitialisedWorld)) = true /\
  isThrow (fst (initializeVRF initEnvQueueFails uninitialisedWorld)) = true.
Proof.
  split.
  - apply (proj1 (initializeVRF_partial initEnvOk uninitialisedWorld)).
    repeat split; try reflexivity.
    exists 100000000. split; [reflexivity|]. unfold MIN_BALANCE. lia.
  - destruct (initializeVRF_partial initEnvQueueFails uninitialisedWorld)
      as (_ & _ & _ & H4 & H5).
    split; [apply H4; reflexivity|].
    split; [apply (H5 eq_refl 500000000 eq_refl); unfold MIN_BALANCE; lia|].
    reflexivity.
Defined.

(** * Further properties of the Payout and Burn Pipeline *)

(** Two worlds built from the same one by state updates and recorded
    events are equal when their fields are. *)
Ltac world_eq :=
  unfold setPot, setRunning, record, logs;
  cbn [isLotteryRunning currentPotSize sbProgram queueAccount keypairs reads
       trace fst snd app];
  rewrite <- ?app_assoc; reflexivity.

Section PipelineFacts.

(** [processLottery], spelled out: the outcome of the steps, then the
    reset of the shared state. *)
Lemma processLottery_run (env : PayoutEnv) (winner : string) (pot : Q)
    (w : World) :
  processLottery env winner pot w
  = (fst (pipelineOutcome env winner pot),
     setPot 0%Q (setRunning false
                   (logs (snd (pipelineOutcome env winner pot)) w))).
Proof.
  destruct env as [p mk q sb st tb bt ir].
  unfold processLottery, pipelineOutcome, rethrowAs, tryFinally, tryCatch,
    bind, lift, emit, modify, throw, ret, payoutAmountOf, burnBudgetOf.
  cbn [payoutTx mintKey quote swapBuild swapTx tokenBalance burnTx
       insertReceipt].
  destruct (transferInstruction _) as [[]|m]; [|world_eq].
  destruct p as [[]|m]; [|world_eq].
  destruct mk as [[]|m]; [|world_eq].
  destruct q as [[out|]|m]; try (world_eq).
  destruct sb as [[]|m]; [|world_eq].
  destruct st as [[]|m]; [|world_eq].
  destruct tb as [tokens|m]; [|world_eq].
  destruct (BN.toNumber tokens) as [amount|m];
    [|world_eq].
  destruct (0 <? amount).
  - destruct bt as [[]|m]; [|world_eq].
    destruct ir as [[]|m]; world_eq.
  - destruct ir as [[]|m]; world_eq.
Qed.

Lemma processLottery_events (env : PayoutEnv) (winner : string) (pot : Q)
    (w : World) :
  newEvents w (snd (processLottery env winner pot w))
  = snd (pipelineOutcome env winner pot).
Proof. rewrite processLottery_run. apply newEvents_app. reflexivity. Qed.

End PipelineFacts.

(** X9: [processLottery] always ends with [isLotteryRunning = false] and
    [currentPotSize = 0].  When it returns, it has paid the winner, then
    swapped, then burned the observed balance (or skipped the burn for a
    balance that is not positive), then written the receipt, in this
    order; when it throws, the steps done are a beginning of that sequence,
    the error is reported last, and no receipt has been written. *)
Theorem processLottery_outcomes (env : PayoutEnv) (winner : string) (pot : Q)
    (w : World) :
  let out := processLottery env winner pot w in
  let evs := newEvents w (snd out) in
  let paid := EvPayout winner (payoutAmountOf pot) in
  let swapped := EvSwap (burnBudgetOf pot) in
  isLotteryRunning (snd out) = false /\
  currentPotSize (snd out) = 0%Q /\
  (fst out = Ok tt ->
     exists burnt step,
       evs = [paid; swapped; step; EvReceipt pot winner burnt] /\
       (step = EvBurn burnt /\ 0 < burnt \/
        step = EvNoTokensToBurn /\ burnt <= 0)) /\
  (forall m, fst out = Throw m ->
     exists done,
       evs = done ++ [EvPipelineError m] /\
       (done = [] \/ done = [paid] \/ done = [paid; swapped] \/
        exists a, done = [paid; swapped; EvBurn a] \/
                  done = [paid; swapped; EvNoTokensToBurn])).
Proof.
  intros out evs paid swapped. subst out evs.
  rewrite processLottery_events. rewrite processLottery_run.
  cbn [fst snd]. split; [reflexivity|]. split; [reflexivity|].
  destruct env as [p mk q sb st tb bt ir].
  unfold pipelineOutcome.
  cbn [payoutTx mintKey quote swapBuild swapTx tokenBalance burnTx
       insertReceipt].
  fold paid. fold swapped.
  destruct (transferInstruction _) as [[]|m0];
    [|split; [discriminate|]; intros m [= <-]; exists []; auto].
  destruct p as [[]|m0];
    [|split; [discriminate|]; intros m [= <-]; exists []; auto].
  destruct mk as [[]|m0];
    [|split; [discriminate|]; intros m [= <-]; exists [paid]; auto].
  destruct q as [[out|]|m0];
    try (split; [discriminate|]; intros m [= <-]; exists [paid]; auto).
  destruct sb as [[]|m0];
    [|split; [discriminate|]; intros m [= <-]; exists [paid]; auto].
  destruct st as [[]|m0];
    [|split; [discriminate|]; intros m [= <-]; exists [paid]; auto].
  destruct tb as [tokens|m0];
    [|split; [discriminate|]; intros m [= <-]; exists [paid; swapped]; auto].
  destruct (BN.toNumber tokens) as [amount|m0] eqn:Hnum;
    [|split; [discriminate|]; intros m [= <-]; exists [paid; swapped]; auto].
  apply BN_toNumber_inv in Hnum. subst amount.
  destruct (Z.ltb_spec 0 tokens) as [Hpos|Hnonpos].
  - destruct bt as [[]|m0];
      [|split; [discriminate|]; intros m [= <-]; exists [paid; swapped]; auto].
    destruct ir as [[]|m0].
    + split; [|discriminate]. intros _. exists tokens, (EvBurn tokens). auto.
    + split; [discriminate|]. intros m [= <-].
      exists [paid; swapped; EvBurn tokens]. split; [reflexivity|].
      do 3 right. exists tokens. now left.
  - destruct ir as [[]|m0].
    + split; [|discriminate]. intros _. exists tokens, EvNoTokensToBurn. auto.
    + split; [discriminate|]. intros m [= <-].
      exists [paid; swapped; EvNoTokensToBurn]. split; [reflexivity|].
      do 3 right. exists 0. now right.
Qed.

Lemma processLottery_outcomes_witness :
  exists done,
    newEvents initialWorld
      (snd (processLottery payNoQuote "A" (1000 # 1) initialWorld))
    = done ++ [EvPipelineError "Jupiter swap quote failed."] /\
    (done = [] \/
     done = [EvPayout "A" (payoutAmountOf (1000 # 1))] \/
     done = [EvPayout "A" (payoutAmountOf (1000 # 1));
             EvSwap (burnBudgetOf (1000 # 1))] \/
     exists a,
       done = [EvPayout "A" (payoutAmountOf (1000 # 1));
               EvSwap (burnBudgetOf (1000 # 1)); EvBurn a] \/
       done = [EvPayout "A" (payoutAmountOf (1000 # 1));
               EvSwap (burnBudgetOf (1000 # 1)); EvNoTokensToBurn]).
Proof.
  apply (proj2 (proj2 (proj2
           (processLottery_outcomes payNoQuote "A" (1000 # 1) initialWorld)))).
  reflexivity.
Defined.



(** * Further properties of the Fee Claim Monitor *)

Section MonitorFacts.

Lemma claimOutcome_ext (env1 env2 : FeeEnv) (positions : list Position) :
  (forall i p, getClaimTransaction env1 i p = getClaimTransaction env2 i p) ->
  forall i, claimOutcome env1 i positions = claimOutcome env2 i positions.
Proof.
  intros Hsame. induction positions as [|p rest IH]; intros i.
  - reflexivity.
  - cbn [claimOutcome]. unfold transactionsOf. rewrite (Hsame i p), IH.
    reflexivity.
Qed.

End MonitorFacts.

(** X11: only the positions of the requested mint count.  Two answers of
    the fee SDK with the same positions for the mint (and the same claim
    transactions) give the same result, pot and events, whatever other
    positions they list; and when no position is for the mint (or there is
    none at all) the monitor returns false, sets the shared pot to 0 and
    does nothing else. *)
Theorem claimFees_only_target_mint (cfg : Config) (env1 env2 : FeeEnv)
    (tokenMint : string) (w : World) (all1 all2 : list Position) :
  getAllClaimablePositions env1 = Ok all1 ->
  getAllClaimablePositions env2 = Ok all2 ->
  (forall i p, getClaimTransaction env1 i p = getClaimTransaction env2 i p) ->
  targetPositionsOf tokenMint all1 = targetPositionsOf tokenMint all2 ->
  claimFeesForToken cfg env1 tokenMint w = claimFeesForToken cfg env2 tokenMint w
  /\ (targetPositionsOf tokenMint all1 = [] ->
      claimFeesForToken cfg env1 tokenMint w = (Ok false, setPot 0%Q w)).
Proof.
  intros H1 H2 Hsame Htargets.
  unfold claimFeesForToken, tryCatch. rewrite !claimFeesBody_run, H1, H2.
  cbv beta iota. rewrite <- Htargets.
  destruct (targetPositionsOf tokenMint all1) as [|t targets].
  - split; reflexivity.
  - cbv zeta. rewrite (claimOutcome_ext env1 env2 _ Hsame).
    split; [reflexivity|discriminate].
Qed.

Lemma claimFees_only_target_mint_witness :
  claimFeesForToken cfg1000 feeAtThreshold "MINT" initialWorld
  = claimFeesForToken cfg1000
      (mkFeeEnv (Ok [position600_400])
                (fun _ _ => Ok (Some [ConfirmedWithErr; ConfirmedOk])))
      "MINT" initialWorld
  /\ (targetPositionsOf "MINT" [positionOther; position600_400] = [] ->
      claimFeesForToken cfg1000 feeAtThreshold "MINT" initialWorld
      = (Ok false, setPot 0%Q initialWorld)).
Proof.
  apply (claimFees_only_target_mint cfg1000 feeAtThreshold _ "MINT" initialWorld
           [positionOther; position600_400] [position600_400]);
    reflexivity.
Defined.

(** * Further properties of the Round Scheduler *)

Section OriginFacts.

Variable ok : Origin -> bool.

Lemma addsFrom_refl (w : World) : addsFrom ok w w.
Proof. exists []. split; [now rewrite app_nil_r|constructor]. Qed.

Lemma addsFrom_trans (w1 w2 w3 : World) :
  addsFrom ok w1 w2 -> addsFrom ok w2 w3 -> addsFrom ok w1 w3.
Proof.
  intros (e1 & H1 & F1) (e2 & H2 & F2). exists (e1 ++ e2). split.
  - rewrite H2, H1. now rewrite app_assoc.
  - apply Forall_app. now split.
Qed.

End OriginFacts.

Ltac from_update :=
  first [ assumption
        | exists []; split; [simpl; now rewrite app_nil_r|constructor]
        | eexists [_]; split;
          [reflexivity|constructor; [reflexivity|constructor]] ].

Ltac from_steps ok :=
  preserve_steps (addsFrom_refl ok) (addsFrom_trans ok); try from_update.

Section SchedulerFacts.

Lemma sumPositions_fromMonitor (positions : list Position) :
  preserves (addsFrom ofMonitor) (sumPositions positions).
Proof.
  induction positions as [|p rest IH]; cbn [sumPositions];
    from_steps ofMonitor.
Qed.

Lemma claimTxs_fromMonitor (i : nat) (fates : list TxFate) :
  forall j, preserves (addsFrom ofMonitor) (claimTxs i j fates).
Proof.
  induction fates as [|fate rest IH]; intros j; cbn [claimTxs].
  - from_steps ofMonitor.
  - unfold claimTx. from_steps ofMonitor. apply IH.
Qed.

Lemma claimPositions_fromMonitor (env : FeeEnv) (positions : list Position) :
  forall i, preserves (addsFrom ofMonitor) (claimPositions env i positions).
Proof.
  induction positions as [|p rest IH]; intros i; cbn [claimPositions].
  - from_steps ofMonitor.
  - from_steps ofMonitor; try apply IH. apply claimTxs_fromMonitor.
Qed.

Lemma claimFees_fromMonitor (cfg : Config) (env : FeeEnv) (tokenMint : string) :
  preserves (addsFrom ofMonitor) (claimFeesForToken cfg env tokenMint).
Proof.
  unfold claimFeesForToken, claimFeesBody. from_steps ofMonitor.
  - apply sumPositions_fromMonitor.
  - apply claimPositions_fromMonitor.
Qed.

Lemma lotteryRound_fromRound (env : Env) (traders : list TraderVolume) :
  preserves (addsFrom ofRound) (lotteryRound env traders).
Proof.
  unfold lotteryRound, requestVRF, consumeRandomness, load, pickWinner,
    processLottery.
  from_steps ofRound.
Qed.

Lemma claimFees_noVrfUse (cfg : Config) (env : FeeEnv) (tokenMint : string)
    (w : World) :
  noVrfUse w (snd (claimFeesForToken cfg env tokenMint w)).
Proof.
  unfold claimFeesForToken, tryCatch. rewrite claimFeesBody_run.
  destruct (getAllClaimablePositions env) as [allPositions|m];
    [|split; reflexivity].
  destruct (targetPositionsOf tokenMint allPositions) as [|t targets];
    [split; reflexivity|].
  cbv zeta. destruct (Qltb _ _); [split; reflexivity|].
  destruct (claimOutcome env 0 (t :: targets)) as [[[]|m] evs];
    split; reflexivity.
Qed.

Lemma claimFees_returns (cfg : Config) (env : FeeEnv) (tokenMint : string)
    (w : World) :
  exists b, fst (claimFeesForToken cfg env tokenMint w) = Ok b.
Proof.
  unfold claimFeesForToken, tryCatch.
  destruct (claimFeesBody cfg env tokenMint w) as [[b|m] w1]; simpl; eauto.
Qed.

(** One firing of the timer with the flag not set, spelled out. *)
Lemma tick_run (cfg : Config) (env : Env) (w : World) :
  isLotteryRunning w = false ->
  tick cfg env w
  = match claimFeesForToken cfg (fee env) (PROJECT_TOKEN_MINT_ADDRESS cfg) w with
    | (Throw m, w1) => (Ok tt, record (EvTickError m) w1)
    | (Ok feesClaimed, w1) =>
        match statusUpdate env with
        | Throw m => (Ok tt, record (EvTickError m) w1)
        | Ok _ =>
            let w2 := record (EvStatus (currentPotSize w1)
                                       (isLotteryRunning w1)) w1 in
            if feesClaimed then
              match tradersWallet env with
              | [] =>
                  (Ok tt, setRunning false (setPot 0%Q (setRunning true w2)))
              | t :: rest =>
                  match lotteryRound env (t :: rest) (setRunning true w2) with
                  | (Ok _, w3) => (Ok tt, w3)
                  | (Throw m, w3) => (Ok tt, record (EvTickError m) w3)
                  end
              end
            else (Ok tt, w2)
        end
    end.
Proof.
  intros Hflag. unfold tick. unfold bind at 1. unfold gets at 1.
  rewrite Hflag. unfold tryCatch at 1. unfold bind at 1.
  destruct (claimFeesForToken cfg (fee env) (PROJECT_TOKEN_MINT_ADDRESS cfg) w)
    as [[feesClaimed|m] w1]; [|reflexivity].
  unfold bind at 1. unfold gets at 1.
  unfold bind at 1. unfold gets at 1.
  unfold bind at 1. unfold lift at 1.
  destruct (statusUpdate env) as [[]|m]; [|reflexivity].
  unfold bind at 1. unfold emit at 1, modify at 1. cbv zeta.
  destruct feesClaimed; [|reflexivity].
  unfold bind at 1. unfold modify at 1.
  destruct (tradersWallet env) as [|t rest]; [reflexivity|].
  destruct (lotteryRound env (t :: rest) _) as [[[]|m] w3]; reflexivity.
Qed.

End SchedulerFacts.

(** X12: a timer firing never throws, whatever the fee SDK, the database,
    the oracle, the chain and the swap service answer. *)
Theorem tick_never_throws (cfg : Config) (env : Env) (w : World) :
  fst (tick cfg env w) = Ok tt.
Proof.
  destruct (isLotteryRunning w) eqn:Hflag.
  - rewrite tick_skips by exact Hflag. reflexivity.
  - rewrite tick_run by exact Hflag.
    destruct (claimFeesForToken _ _ _ w) as [[feesClaimed|m] w1]; [|reflexivity].
    destruct (statusUpdate env) as [[]|m]; [|reflexivity].
    cbv zeta. destruct feesClaimed; [|reflexivity].
    destruct (tradersWallet env) as [|t rest]; [reflexivity|].
    destruct (lotteryRound env (t :: rest) _) as [[[]|m] w3]; reflexivity.
Qed.

Section TickFacts.

Lemma no_tick_event_in (ok : Origin -> bool) (evs : list Event) (e : Event) :
  Forall (fun e => ok (origin e) = true) evs ->
  ok (origin e) = false -> ~ In e evs.
Proof.
  intros Hall He Hin. apply (proj1 (Forall_forall _ _) Hall) in Hin.
  congruence.
Qed.

Lemma monitor_not_round (evs : list Event) :
  Forall (fun e => ofMonitor (origin e) = true) evs ->
  Forall (fun e => ofRound (origin e) = false) evs.
Proof.
  induction 1 as [|e evs He _ IH]; constructor; [|exact IH].
  destruct (origin e); simpl in *; congruence.
Qed.

End TickFacts.

(** X13: a firing of the timer that runs without another firing in
    between (a firing is one step here) writes the status exactly when the
    flag was not set at its start and the database accepts the write,
    whether or not fees were claimed; what it writes is the pot the fee
    monitor left and [isLotteryRunning = false], since the write comes
    before the firing sets the flag: the round a firing starts is never
    reported by that firing. *)
Theorem tick_status_mirror (cfg : Config) (env : Env) (w : World)
    (p : Q) (b : bool) :
  In (EvStatus p b) (newEvents w (snd (tick cfg env w))) <->
  isLotteryRunning w = false /\ isThrow (statusUpdate env) = false /\
  p = currentPotSize
        (snd (claimFeesForToken cfg (fee env) (PROJECT_TOKEN_MINT_ADDRESS cfg) w))
  /\ b = false.
Proof.
  destruct (isLotteryRunning w) eqn:Hflag.
  { rewrite tick_skips by exact Hflag.
    rewrite (newEvents_app w _ [EvSkipTick]) by reflexivity.
    split; [intros [H|[]]; discriminate|intros (H & _); discriminate]. }
  rewrite tick_run by exact Hflag.
  pose proof (claimFees_fromMonitor cfg (fee env)
                (PROJECT_TOKEN_MINT_ADDRESS cfg) w) as (evs1 & Ht1 & Hm1).
  pose proof (claimFees_keepsFlag cfg (fee env)
                (PROJECT_TOKEN_MINT_ADDRESS cfg) w) as Hk. unfold keepsFlag in Hk.
  destruct (claimFees_returns cfg (fee env) (PROJECT_TOKEN_MINT_ADDRESS cfg) w)
    as [feesClaimed Hret].
  destruct (claimFeesForToken cfg (fee env) (PROJECT_TOKEN_MINT_ADDRESS cfg) w)
    as [r1 w1]. cbn [fst snd] in *. subst r1. rewrite Hk, Hflag.
  assert (Hno1 : ~ In (EvStatus p b) evs1)
    by (eapply no_tick_event_in; [exact Hm1|reflexivity]).
  destruct (statusUpdate env) as [[]|m].
  2:{ rewrite (newEvents_app w _ (evs1 ++ [EvTickError m]))
        by (simpl; rewrite Ht1, <- app_assoc; reflexivity).
      split; [|intros (_ & H & _); discriminate].
      intros H. apply in_app_or in H. destruct H as [H|[H|[]]];
        [contradiction|discriminate]. }
  cbv zeta.
  assert (Hstatus : forall tail,
             ~ In (EvStatus p b) tail ->
             (In (EvStatus p b)
                 (evs1 ++ EvStatus (currentPotSize w1) false :: tail) <->
              false = false /\ false = false /\ p = currentPotSize w1 /\
              b = false)).
  { intros tail Htail. split.
    - intros H. apply in_app_or in H.
      destruct H as [H|[H|H]]; [contradiction| |contradiction].
      injection H as <- <-. auto.
    - intros (_ & _ & -> & ->). apply in_or_app. right. now left. }
  destruct feesClaimed.
  2:{ rewrite (newEvents_app w _ (evs1 ++ [EvStatus (currentPotSize w1) false]))
        by (simpl; rewrite Ht1, <- app_assoc; reflexivity).
      apply Hstatus. intros []. }
  destruct (tradersWallet env) as [|t rest].
  { rewrite (newEvents_app w _ (evs1 ++ [EvStatus (currentPotSize w1) false]))
      by (simpl; rewrite Ht1, <- app_assoc; reflexivity).
    apply Hstatus. intros []. }
  set (w2 := setRunning true _).
  pose proof (lotteryRound_fromRound env (t :: rest) w2) as (evs3 & Ht3 & Hr3).
  assert (Hno3 : ~ In (EvStatus p b) evs3)
    by (eapply no_tick_event_in; [exact Hr3|reflexivity]).
  assert (Htw2 : trace w2 = trace w ++ evs1 ++ [EvStatus (currentPotSize w1) false])
    by (unfold w2; simpl; rewrite Ht1, <- app_assoc; reflexivity).
  destruct (lotteryRound env (t :: rest) w2) as [[[]|m] w3]; cbn [snd] in Ht3.
  - rewrite (newEvents_app w _
               (evs1 ++ EvStatus (currentPotSize w1) false :: evs3))
      by (cbn [snd]; rewrite Ht3, Htw2, <- !app_assoc; reflexivity).
    apply Hstatus. exact Hno3.
  - rewrite (newEvents_app w _
               (evs1 ++ EvStatus (currentPotSize w1) false
                  :: evs3 ++ [EvTickError m]))
      by (simpl; rewrite Ht3, Htw2, <- !app_assoc; reflexivity).
    apply Hstatus. intros H. apply in_app_or in H.
    destruct H as [H|[H|[]]]; [contradiction|discriminate].
Qed.

Lemma tick_status_mirror_witness :
  In (EvStatus (1000 # 1) false)
     (newEvents initialWorld (snd (tick cfg1000 envRound250 initialWorld))).
Proof.
  apply (proj2 (tick_status_mirror cfg1000 envRound250 initialWorld
                  (1000 # 1) false)).
  repeat split; reflexivity.
Defined.



(** X15: no round without a claim: when the flag was set, or the monitor
    did not report a claim, or the status write failed, or no trader was
    found, the tick generates no key pair, reads no randomness account,
    leaves no event of the randomness protocol or of the pipeline (no
    payout, swap, burn or receipt) and leaves the flag as it was; with a
    claim and no traders it also sets the pot to 0. *)
Theorem tick_without_round (cfg : Config) (env : Env) (w : World) :
  let claim :=
    claimFeesForToken cfg (fee env) (PROJECT_TOKEN_MINT_ADDRESS cfg) w in
  isLotteryRunning w = true \/ fst claim <> Ok true \/
  isThrow (statusUpdate env) = true \/ tradersWallet env = [] ->
  noVrfUse w (snd (tick cfg env w)) /\
  Forall (fun e => ofRound (origin e) = false)
         (newEvents w (snd (tick cfg env w))) /\
  isLotteryRunning (snd (tick cfg env w)) = isLotteryRunning w /\
  (isLotteryRunning w = false -> fst claim = Ok true ->
   isThrow (statusUpdate env) = false ->
   currentPotSize (snd (tick cfg env w)) = 0%Q).
Proof.
  intros claim Hcase. subst claim.
  destruct (isLotteryRunning w) eqn:Hflag.
  { rewrite tick_skips by exact Hflag.
    rewrite (newEvents_app w _ [EvSkipTick]) by reflexivity.
    split; [split; reflexivity|]. split; [repeat constructor|].
    split; [exact Hflag|discriminate]. }
  rewrite tick_run by exact Hflag.
  pose proof (claimFees_fromMonitor cfg (fee env)
                (PROJECT_TOKEN_MINT_ADDRESS cfg) w) as (evs1 & Ht1 & Hm1).
  apply monitor_not_round in Hm1.
  pose proof (claimFees_keepsFlag cfg (fee env)
                (PROJECT_TOKEN_MINT_ADDRESS cfg) w) as Hk. unfold keepsFlag in Hk.
  pose proof (claimFees_noVrfUse cfg (fee env)
                (PROJECT_TOKEN_MINT_ADDRESS cfg) w) as (Hkp & Hrd).
  destruct (claimFees_returns cfg (fee env) (PROJECT_TOKEN_MINT_ADDRESS cfg) w)
    as [feesClaimed Hret].
  destruct (claimFeesForToken cfg (fee env) (PROJECT_TOKEN_MINT_ADDRESS cfg) w)
    as [r1 w1]. cbn [fst snd] in *. subst r1.
  destruct (statusUpdate env) as [[]|m].
  2:{ rewrite (newEvents_app w _ (evs1 ++ [EvTickError m]))
        by (simpl; rewrite Ht1, <- app_assoc; reflexivity).
      split; [split; assumption|].
      split; [apply Forall_app; split; [exact Hm1|repeat constructor]|].
      split; [cbn; rewrite Hk, Hflag; reflexivity|discriminate]. }
  cbv zeta.
  destruct feesClaimed.
  2:{ rewrite (newEvents_app w _
                 (evs1 ++ [EvStatus (currentPotSize w1) (isLotteryRunning w1)]))
        by (simpl; rewrite Ht1, <- app_assoc; reflexivity).
      split; [split; assumption|].
      split; [apply Forall_app; split; [exact Hm1|repeat constructor]|].
      split; [cbn; rewrite Hk, Hflag; reflexivity|discriminate]. }
  destruct (tradersWallet env) as [|t rest].
  2:{ exfalso. destruct Hcase as [H|[H|[H|H]]];
        [discriminate|congruence|discriminate|discriminate]. }
  rewrite (newEvents_app w _
             (evs1 ++ [EvStatus (currentPotSize w1) (isLotteryRunning w1)]))
    by (simpl; rewrite Ht1, <- app_assoc; reflexivity).
  split; [split; assumption|].
  split; [apply Forall_app; split; [exact Hm1|repeat constructor]|].
  split; reflexivity.
Qed.

Lemma tick_without_round_witness :
  noVrfUse initialWorld (snd (tick cfg1000 envNoTraders initialWorld)) /\
  Forall (fun e => ofRound (origin e) = false)
         (newEvents initialWorld (snd (tick cfg1000 envNoTraders initialWorld))) /\
  isLotteryRunning (snd (tick cfg1000 envNoTraders initialWorld))
    = isLotteryRunning initialWorld /\
  (isLotteryRunning initialWorld = false ->
   fst (claimFeesForToken cfg1000 (fee envNoTraders)
          (PROJECT_TOKEN_MINT_ADDRESS cfg1000) initialWorld) = Ok true ->
   isThrow (statusUpdate envNoTraders) = false ->
   currentPotSize (snd (tick cfg1000 envNoTraders initialWorld)) = 0%Q).
Proof.
  apply (tick_without_round cfg1000 envNoTraders initialWorld).
  do 3 right. reflexivity.
Defined.

(** * The winner the scheduler draws *)

Section RecordKeys.

Variable env : Env.
Hypothesis record_keys :
  forall entry, newPublicKey env entry = publicKeyOfRecord entry.

(** With the key constructor as it answers on records, the choice of the
    winner always throws. *)
Lemma pickWinner_throws (traders : list TraderVolume) (r : Z) (w : World) :
  exists m, pickWinner env traders r w = (Throw m, w).
Proof.
  unfold pickWinner, bind, lift.
  destruct (BN.ofNumber _) as [len|m]; [|eauto].
  destruct (BN.mod_ r len) as [r'|m]; [|eauto].
  destruct (BN.toNumber r') as [winnerIndex|m]; [|eauto].
  destruct (if winnerIndex <? 0 then None else _) as [entry|];
    [|unfold throw; eauto].
  rewrite record_keys. unfold publicKeyOfRecord. eauto.
Qed.

Lemma beforePipeline_throws (traders : list TraderVolume) (w : World) :
  isThrow (fst (beforePipeline env traders w)) = true.
Proof.
  unfold beforePipeline. unfold bind at 1.
  destruct (requestVRF (vrf env) w) as [[account|m] w1]; [|reflexivity].
  unfold bind at 1.
  destruct (consumeRandomness (vrf env) account w1) as [[r|m] w2];
    [|reflexivity].
  destruct (pickWinner_throws traders r w2) as [m ->]. reflexivity.
Qed.

Lemma beforePipeline_notPipeline (traders : list TraderVolume) :
  preserves (addsFrom notPipeline) (beforePipeline env traders).
Proof.
  unfold beforePipeline, requestVRF, consumeRandomness, load, pickWinner.
  from_steps notPipeline.
Qed.

Lemma lotteryRound_notPipeline (traders : list TraderVolume) :
  preserves (addsFrom notPipeline) (lotteryRound env traders).
Proof.
  intros w. rewrite lotteryRound_split.
  pose proof (beforePipeline_throws traders w) as Hthrow.
  pose proof (beforePipeline_notPipeline traders w) as Hadds.
  destruct (beforePipeline env traders w) as [[winner|m] w1];
    [discriminate|].
  cbn [snd] in *. eapply addsFrom_trans; [exact Hadds|].
  eexists [_]. split; [reflexivity|].
  constructor; [reflexivity|constructor].
Qed.

Lemma claimFees_notPipeline (cfg : Config) (tokenMint : string) :
  preserves (addsFrom notPipeline) (claimFeesForToken cfg (fee env) tokenMint).
Proof.
  intros w. destruct (claimFees_fromMonitor cfg (fee env) tokenMint w)
    as (evs & Ht & Hall).
  exists evs. split; [exact Ht|].
  eapply Forall_impl; [|exact Hall]. cbn. intros e He.
  destruct (origin e); simpl in *; congruence.
Qed.

Lemma tick_notPipeline (cfg : Config) :
  preserves (addsFrom notPipeline) (tick cfg env).
Proof.
  unfold tick.
  from_steps notPipeline.
  - apply claimFees_notPipeline.
  - apply lotteryRound_notPipeline.
Qed.

End RecordKeys.

(** C2: the scheduler does not run the winner selector.  With the traders
    A (volume 100) and B (volume 300) and the random value 250 the
    selector returns B (index 1), while the scheduler takes the entry at
    index 250 mod 2 = 0, the record of A, and hands it to
    [new PublicKey], whatever that answers.  On such a record the
    constructor throws, so the round fails before the pipeline: at this
    input nobody is paid and [isLotteryRunning] stays true, and with this
    constructor no firing of the timer ever pays anybody, while every
    firing that claims fees, writes the status and finds traders ends
    with [isLotteryRunning] set. *)
Theorem scheduler_draws_index_mod_length :
  selectWinnerFromTraders [traderA100; traderB300] 250
    = Ok (LogWinnerSelected, mkSelection "B" 1 400 250) /\
  (forall (env : Env) (w : World),
     pickWinner env [traderA100; traderB300] 250 w
     = (newPublicKey env traderA100, w)) /\
  newPublicKey envRound250 traderA100 = Throw "Assertion failed" /\
  tick cfg1000 envRound250 initialWorld
    = (Ok tt,
       mkWorld true (1000 # 1) true true 1 1
         [EvClaimPhase; EvClaimRequested 0; EvClaimSent 0 0;
          EvClaimTxError 0 0; EvClaimSent 0 1; EvClaimConfirmed 0 1;
          EvClaimDone; EvStatus (1000 # 1) false; EvCreate 0; EvCommit 0;
          EvLoad 0; EvRoundFailed "Assertion failed";
          EvTickError "Failed to process lottery: Assertion failed"]) /\
  (forall (cfg : Config) (env : Env) (w : World),
     (forall entry, newPublicKey env entry = publicKeyOfRecord entry) ->
     (forall key lamports,
        ~ In (EvPayout key lamports) (newEvents w (snd (tick cfg env w)))) /\
     (isLotteryRunning w = false ->
      fst (claimFeesForToken cfg (fee env) (PROJECT_TOKEN_MINT_ADDRESS cfg) w)
        = Ok true ->
      statusUpdate env = Ok tt ->
      tradersWallet env <> [] ->
      isLotteryRunning (snd (tick cfg env w)) = true)).
Proof.
  split; [reflexivity|].
  split; [intros env w; apply pickWinner_index; [lia|reflexivity|reflexivity]|].
  split; [reflexivity|].
  split; [vm_compute; reflexivity|].
  intros cfg env w Hkeys. split.
  - intros key lamports Hin.
    destruct (tick_notPipeline env Hkeys cfg w) as (evs & Ht & Hall).
    rewrite (newEvents_app w _ evs Ht) in Hin.
    apply (proj1 (Forall_forall _ _) Hall) in Hin. discriminate.
  - intros Hflag Hclaim Hstatus Htraders.
    apply tick_failure_before_pipeline; try assumption.
    intros w1. apply beforePipeline_throws. exact Hkeys.
Qed.

(** * Properties of the trader volume lookup *)

Section VolumeMapFacts.

Variable plus : Q -> Q -> Q.

Lemma mapGet_mapSet_same {V : Type} (m : list (string * V)) (k : string) (v : V) :
  mapGet (mapSet m k v) k = Some v.
Proof.
  induction m as [|[k' v'] rest IH]; cbn [mapSet mapGet].
  - now rewrite String.eqb_refl.
  - destruct (String.eqb k' k) eqn:E; cbn [mapGet]; rewrite E; auto.
Qed.

Lemma mapGet_mapSet_other {V : Type} (m : list (string * V)) (k k' : string)
    (v : V) :
  k <> k' -> mapGet (mapSet m k v) k' = mapGet m k'.
Proof.
  intros Hne. induction m as [|[k0 v0] rest IH]; cbn [mapSet mapGet].
  - destruct (String.eqb_spec k k'); [contradiction|reflexivity].
  - destruct (String.eqb_spec k0 k) as [->|Hk]; cbn [mapGet].
    + destruct (String.eqb_spec k k'); [contradiction|reflexivity].
    + destruct (String.eqb k0 k'); [reflexivity|exact IH].
Qed.

Lemma mapGet_In {V : Type} (m : list (string * V)) (k : string) (v : V) :
  mapGet m k = Some v -> In (k, v) m.
Proof.
  induction m as [|[k' v'] rest IH]; cbn [mapGet]; [discriminate|].
  destruct (String.eqb_spec k' k) as [->|Hk].
  - intros [= ->]. now left.
  - intros H. right. auto.
Qed.

Lemma In_mapGet {V : Type} (m : list (string * V)) (k : string) (v : V) :
  NoDup (map fst m) -> In (k, v) m -> mapGet m k = Some v.
Proof.
  induction m as [|[k' v'] rest IH]; intros Hnd Hin; [destruct Hin|].
  cbn [map fst] in Hnd. inversion Hnd as [|? ? Hnotin Hnd']; subst.
  cbn [mapGet]. destruct Hin as [[= -> ->]|Hin].
  - now rewrite String.eqb_refl.
  - destruct (String.eqb_spec k' k) as [->|Hk]; [|auto].
    exfalso. apply Hnotin. apply (in_map fst) in Hin. exact Hin.
Qed.

Lemma mapSet_keys {V : Type} (m : list (string * V)) (k : string) (v : V) :
  map fst (mapSet m k v)
  = if existsb (String.eqb k) (map fst m) then map fst m
    else map fst m ++ [k].
Proof.
  induction m as [|[k' v'] rest IH]; cbn [mapSet map fst existsb app].
  - reflexivity.
  - rewrite (String.eqb_sym k k').
    destruct (String.eqb k' k); cbn [map fst orb]; [reflexivity|].
    rewrite IH. destruct (existsb _ _); reflexivity.
Qed.

Lemma mapSet_NoDup {V : Type} (m : list (string * V)) (k : string) (v : V) :
  NoDup (map fst m) -> NoDup (map fst (mapSet m k v)).
Proof.
  intros Hnd. rewrite mapSet_keys.
  destruct (existsb (String.eqb k) (map fst m)) eqn:E; [exact Hnd|].
  apply NoDup_app; [exact Hnd|repeat constructor; intros []|].
  intros x Hx [Heq|[]]. subst x.
  assert (existsb (String.eqb k) (map fst m) = true); [|congruence].
  apply existsb_exists. exists k. split; [exact Hx|apply String.eqb_refl].
Qed.

Lemma mapSet_no_empty_key {V : Type} (m : list (string * V)) (k : string) (v : V) :
  k <> "" -> Forall (fun e => fst e <> "") m ->
  Forall (fun e => fst e <> "") (mapSet m k v).
Proof.
  intros Hk. induction 1 as [|[k' v'] rest Hh Hrest IH]; cbn [mapSet].
  - repeat constructor. exact Hk.
  - destruct (String.eqb k' k); constructor; auto.
Qed.

Lemma addSwap_wellKeyed (m : VolumeMap) (swap : Swap) :
  wellKeyed m -> wellKeyed (addSwap plus m swap).
Proof.
  intros [Hnd Hne]. unfold addSwap.
  destruct (totalValueUsd swap) as [value|]; [|now split].
  destruct (String.eqb_spec (swapWallet swap) ""); [now split|].
  split; [now apply mapSet_NoDup|now apply mapSet_no_empty_key].
Qed.

Lemma fold_addSwap_wellKeyed (swaps : list Swap) (m : VolumeMap) :
  wellKeyed m -> wellKeyed (fold_left (addSwap plus) swaps m).
Proof.
  revert m. induction swaps as [|s rest IH]; intros m H; cbn [fold_left];
    [exact H|]. apply IH, addSwap_wellKeyed, H.
Qed.

Lemma addSwap_get (m : VolumeMap) (swap : Swap) (wallet : string) :
  wallet <> "" ->
  mapGet (addSwap plus m swap) wallet
  = fold_left (addTo plus) (valuesOf wallet [swap]) (mapGet m wallet).
Proof.
  intros Hw. unfold addSwap, valuesOf. cbn [flat_map].
  destruct (totalValueUsd swap) as [value|]; [|reflexivity].
  destruct (String.eqb_spec (swapWallet swap) "") as [He|Hne].
  - rewrite He. destruct (String.eqb_spec "" wallet); [congruence|reflexivity].
  - destruct (String.eqb_spec (swapWallet swap) wallet) as [->|Hother].
    + cbn. rewrite mapGet_mapSet_same. reflexivity.
    + cbn. now apply mapGet_mapSet_other.
Qed.

Lemma valuesOf_app (wallet : string) (l1 l2 : list Swap) :
  valuesOf wallet (l1 ++ l2) = valuesOf wallet l1 ++ valuesOf wallet l2.
Proof. unfold valuesOf. apply flat_map_app. Qed.

Lemma fold_addSwap_get (swaps : list Swap) (m : VolumeMap) (wallet : string) :
  wallet <> "" ->
  mapGet (fold_left (addSwap plus) swaps m) wallet
  = fold_left (addTo plus) (valuesOf wallet swaps) (mapGet m wallet).
Proof.
  intros Hw. revert m. induction swaps as [|s rest IH]; intros m.
  - reflexivity.
  - cbn [fold_left]. rewrite IH, (addSwap_get m s wallet Hw).
    change (s :: rest) with ([s] ++ rest).
    now rewrite valuesOf_app, fold_left_app.
Qed.

Lemma fold_addTo_Some (values : list Q) (x : Q) :
  fold_left (addTo plus) values (Some x) = Some (fold_left plus values x).
Proof.
  revert x. induction values as [|v rest IH]; intros x; [reflexivity|].
  cbn [fold_left]. unfold addTo at 2. apply IH.
Qed.

Lemma fold_addTo_None (values : list Q) :
  fold_left (addTo plus) values None
  = match values with
    | [] => None
    | _ :: _ => Some (sumFromZero plus values)
    end.
Proof.
  destruct values as [|v rest]; [reflexivity|].
  cbn [fold_left]. unfold addTo at 2. rewrite fold_addTo_Some. reflexivity.
Qed.

End VolumeMapFacts.

Section RankFacts.

Context {A : Type} (volumeOf : A -> Q).

Lemma insertByVolume_perm (x : A) (l : list A) :
  Permutation (insertByVolume volumeOf x l) (x :: l).
Proof.
  induction l as [|y rest IH]; cbn [insertByVolume]; [reflexivity|].
  destruct (Qltb _ _); [|reflexivity].
  rewrite IH. apply perm_swap.
Qed.

Lemma sortByVolume_perm (l : list A) : Permutation (sortByVolume volumeOf l) l.
Proof.
  induction l as [|x rest IH]; cbn; [reflexivity|].
  rewrite insertByVolume_perm. now constructor.
Qed.

Lemma insertByVolume_descending (x : A) (l : list A) :
  descending volumeOf l -> descending volumeOf (insertByVolume volumeOf x l).
Proof.
  unfold descending. induction 1 as [|y rest Hs IH Hall]; cbn [insertByVolume].
  - repeat constructor.
  - destruct (Qltb (volumeOf x) (volumeOf y)) eqn:E.
    + constructor; [exact IH|].
      eapply Permutation_Forall.
      * symmetry. apply insertByVolume_perm.
      * constructor; [|exact Hall]. apply Qltb_true in E. now apply Qlt_le_weak.
    + apply Qltb_false in E. constructor; [now constructor|].
      constructor; [exact E|].
      eapply Forall_impl; [|exact Hall]. cbn. intros z Hz.
      eapply Qle_trans; eauto.
Qed.

Lemma sortByVolume_descending (l : list A) :
  descending volumeOf (sortByVolume volumeOf l).
Proof.
  induction l as [|x rest IH]; cbn.
  - constructor.
  - now apply insertByVolume_descending.
Qed.

Lemma descending_firstn (n : nat) (l : list A) :
  descending volumeOf l -> descending volumeOf (firstn n l).
Proof.
  unfold descending. intros H. revert n.
  induction H as [|y rest Hs IH Hall]; intros [|n]; cbn [firstn];
    try constructor; auto.
  apply Forall_forall. intros z Hz.
  apply (proj1 (Forall_forall _ _) Hall).
  rewrite <- (firstn_skipn n rest). apply in_or_app. now left.
Qed.

(** In a descending list nothing after the first [n] entries is above any
    of them. *)
Lemma descending_cut (n : nat) (l : list A) (x y : A) :
  descending volumeOf l ->
  In x (firstn n l) -> In y (skipn n l) -> (volumeOf y <= volumeOf x)%Q.
Proof.
  unfold descending. intros H. revert n.
  induction H as [|z rest Hs IH Hall]; intros [|n] Hx Hy; cbn in Hx, Hy;
    try contradiction.
  destruct Hx as [->|Hx].
  - apply (proj1 (Forall_forall _ _) Hall).
    rewrite <- (firstn_skipn n rest). apply in_or_app. now right.
  - eapply IH; eauto.
Qed.

End RankFacts.

Lemma fetchLoop_run (http : string -> nat -> HttpAnswer) (cursor : string)
    (call : nat) :
  fetchLoop http cursor call 2
  = match http cursor call with
    | Page response => (response, S call)
    | _ =>
        match http cursor (S call) with
        | Page response => (response, S (S call))
        | _ => (emptyResponse, S (S call))
        end
    end.
Proof.
  cbn [fetchLoop].
  destruct (http cursor call) as [|status| |response];
    destruct (http cursor (S call)) as [|status'| |response'];
    try reflexivity;
    repeat match goal with
           | |- context [(?s =? 401)%Z] => destruct (s =? 401)%Z
           end; reflexivity.
Qed.

Lemma fetchLoop_cases (http : string -> nat -> HttpAnswer) (cursor : string)
    (call : nat) (data : ApiResponse) (next : nat) :
  fetchLoop http cursor call 2 = (data, next) ->
  (next = S call /\ http cursor call = Page data)
  \/ (next = S (S call)
      /\ (forall response, http cursor call <> Page response)
      /\ (http cursor (S call) = Page data
          \/ ((forall response, http cursor (S call) <> Page response)
              /\ data = emptyResponse))).
Proof.
  rewrite fetchLoop_run.
  destruct (http cursor call) as [|status| |response] eqn:E1;
    [idtac|idtac|idtac|intros [= <- <-]; left; now split];
    (destruct (http cursor (S call)) as [|status'| |response'] eqn:E2;
     intros [= <- <-]; right;
     (split; [reflexivity|]); (split; [intros r; discriminate|]);
     first [left; reflexivity
           |right; split; [intros r; discriminate|reflexivity]]).
Qed.

(** X16: [fetchSwaps] throws exactly when [node-fetch] cannot be imported,
    which it tries before its first request and outside its [try].
    Otherwise it never throws and makes one request, or two when the first
    one did not give a valid page (whatever the reason, a 401 included);
    it returns the page of the first request that gave one, and the empty
    page with a null cursor when neither did. *)
Theorem fetchSwaps_spec (fetchLoads : bool)
    (http : string -> nat -> HttpAnswer) (cursor : string) (call : nat) :
  (isThrow (fetchSwaps fetchLoads http cursor call) = true
   <-> fetchLoads = false) /\
  (fetchLoads = true ->
   exists data next,
     fetchSwaps fetchLoads http cursor call = Ok (data, next) /\
     ((next = S call /\ http cursor call = Page data)
      \/ (next = S (S call)
          /\ (forall response, http cursor call <> Page response)
          /\ (http cursor (S call) = Page data
              \/ ((forall response, http cursor (S call) <> Page response)
                  /\ data = emptyResponse))))).
Proof.
  unfold fetchSwaps. split.
  - destruct fetchLoads; cbn; split; congruence.
  - intros ->.
    destruct (fetchLoop http cursor call 2) as [data next] eqn:E.
    exists data, next. split; [reflexivity|].
    apply fetchLoop_cases. exact E.
Qed.

Lemma fetchSwaps_spec_witness :
  isThrow (fetchSwaps false httpTwoPages "" 0) = true /\
  exists data next,
    fetchSwaps true httpTwoPages "" 0 = Ok (data, next) /\
    ((next = 1%nat /\ httpTwoPages "" 0 = Page data)
     \/ (next = 2%nat
         /\ (forall response, httpTwoPages "" 0 <> Page response)
         /\ (httpTwoPages "" 1 = Page data
             \/ ((forall response, httpTwoPages "" 1 <> Page response)
                 /\ data = emptyResponse)))).
Proof.
  split.
  - apply (proj1 (fetchSwaps_spec false httpTwoPages "" 0)). reflexivity.
  - apply (proj2 (fetchSwaps_spec true httpTwoPages "" 0)). reflexivity.
Defined.

Lemma fetchLoop_next (http : string -> nat -> HttpAnswer) (cursor : string)
    (call : nat) (data : ApiResponse) (next : nat) :
  fetchLoop http cursor call 2 = (data, next) ->
  (call < next)%nat
  /\ (data = emptyResponse
      \/ exists i, (call <= i)%nat /\ http cursor i = Page data).
Proof.
  intros H. apply fetchLoop_cases in H.
  destruct H as [[-> H]|[-> [_ [H|[_ ->]]]]].
  - split; [lia|]. right. exists call. split; [lia|exact H].
  - split; [lia|]. right. exists (S call). split; [lia|exact H].
  - split; [lia|]. now left.
Qed.

(** The map with which the loop is left: all the swaps read are in it
    when the requests can be made, and it is untouched when they cannot. *)
Lemma collectLoop_swapsRead (plus : Q -> Q -> Q) (fetchLoads : bool)
    (http : string -> nat -> HttpAnswer) (fuel : nat) (cursor : string)
    (call : nat) (m : VolumeMap) (e : CollectEnd) :
  collectLoop plus fetchLoads http fuel cursor call m = Some e ->
  mapAtLoopEnd e
  = if fetchLoads
    then fold_left (addSwap plus) (swapsRead http fuel cursor call) m
    else m.
Proof.
  revert cursor call m. induction fuel as [|fuel IH]; intros cursor call m;
    cbn [collectLoop swapsRead]; [discriminate|].
  unfold fetchSwaps. destruct fetchLoads; [|now intros [= <-]].
  destruct (fetchLoop http cursor call 2) as [data call'].
  cbv zeta. destruct (String.eqb (cursorOf data) "").
  - now intros [= <-].
  - intros H. apply IH in H. now rewrite fold_left_app.
Qed.

Lemma descending_traders (l : list (string * Q)) :
  descending snd l -> descending volumeUsd (map traderOfEntry l).
Proof.
  unfold descending. induction 1 as [|e rest Hs IH Hall]; cbn [map];
    constructor; [exact IH|].
  apply Forall_map. exact Hall.
Qed.

Lemma NoDup_firstn {A : Type} (n : nat) (l : list A) :
  NoDup l -> NoDup (firstn n l).
Proof.
  intros H. rewrite <- (firstn_skipn n l) in H.
  now apply NoDup_app_remove_r in H.
Qed.

Lemma In_firstn {A : Type} (n : nat) (l : list A) (x : A) :
  In x (firstn n l) -> In x l.
Proof.
  intros H. rewrite <- (firstn_skipn n l). apply in_or_app. now left.
Qed.

Lemma topByVolume_In {A : Type} (volumeOf : A -> Q) (topN : nat) (l : list A)
    (x : A) :
  In x (topByVolume volumeOf topN l) -> In x l.
Proof.
  intros H. apply In_firstn in H.
  eapply Permutation_in; [apply sortByVolume_perm|exact H].
Qed.

Lemma topByVolume_nil {A : Type} (volumeOf : A -> Q) (topN : nat) :
  topByVolume volumeOf topN [] = [].
Proof. unfold topByVolume. apply firstn_nil. Qed.

(** Either an entry is among the first [topN], or [topN] entries are
    returned and none of them has a smaller volume. *)
Lemma topByVolume_complete {A : Type} (volumeOf : A -> Q) (topN : nat)
    (l : list A) (x : A) :
  In x l ->
  In x (topByVolume volumeOf topN l)
  \/ (List.length (topByVolume volumeOf topN l) = topN
      /\ forall y, In y (topByVolume volumeOf topN l) ->
                   (volumeOf x <= volumeOf y)%Q).
Proof.
  intros Hin. unfold topByVolume.
  set (s := sortByVolume volumeOf l).
  assert (Hs : In x s)
    by (eapply Permutation_in; [symmetry; apply sortByVolume_perm|exact Hin]).
  rewrite <- (firstn_skipn topN s) in Hs. apply in_app_or in Hs.
  destruct Hs as [Hs|Hs]; [now left|right]. split.
  - apply firstn_length_le.
    destruct (Nat.le_gt_cases topN (List.length s)) as [Hle|Hgt]; [exact Hle|].
    rewrite skipn_all2 in Hs by lia. destruct Hs.
  - intros y Hy. eapply descending_cut; eauto.
    apply sortByVolume_descending.
Qed.

(** What [collectWallets] returns is the ranking of the map with which
    its loop is left, also in its [catch]. *)
Lemma collectWallets_board (plus : Q -> Q -> Q) (topN : nat)
    (fetchLoads : bool) (http : string -> nat -> HttpAnswer) (fuel : nat)
    (traders : list TraderVolume) :
  collectWallets plus topN fetchLoads http fuel = Some traders ->
  traders
  = map traderOfEntry
      (topByVolume snd topN
         (if fetchLoads
          then fold_left (addSwap plus) (swapsRead http fuel "" 0) []
          else [])).
Proof.
  unfold collectWallets.
  destruct (collectLoop plus fetchLoads http fuel "" 0 []) as [e|] eqn:He;
    [|discriminate].
  apply collectLoop_swapsRead in He.
  match goal with
  | |- context [topByVolume snd topN ?collected] =>
      replace collected with (mapAtLoopEnd e) by exact He
  end.
  destruct e as [m|m]; cbn [mapAtLoopEnd].
  - now intros [= <-].
  - destruct m; cbn [List.length Nat.ltb Nat.leb]; intros [= <-];
      [now rewrite topByVolume_nil|reflexivity].
Qed.

(** The map whose ranking [getTradersWallet] returns. *)
Lemma getTradersWallet_board (plus : Q -> Q -> Q)
    (tokenAddress apiKey : string) (topN : nat) (fetchLoads : bool)
    (http : string -> nat -> HttpAnswer) (fuel : nat)
    (traders : list TraderVolume) :
  getTradersWallet plus tokenAddress apiKey topN fetchLoads http fuel
  = Some traders ->
  exists m,
    traders = map traderOfEntry (topByVolume snd topN m) /\
    (m = [] \/
     (fetchLoads = true /\
      m = fold_left (addSwap plus) (swapsRead http fuel "" 0) [])).
Proof.
  unfold getTradersWallet.
  destruct (String.eqb apiKey "").
  { intros [= <-]. exists []. split; [now rewrite topByVolume_nil|now left]. }
  destruct (String.eqb tokenAddress "").
  { intros [= <-]. exists []. split; [now rewrite topByVolume_nil|now left]. }
  intros H. apply collectWallets_board in H. eexists. split; [exact H|].
  destruct fetchLoads; [right; now split|now left].
Qed.

Lemma collected_wellKeyed (plus : Q -> Q -> Q) (swaps : list Swap) :
  wellKeyed (fold_left (addSwap plus) swaps []).
Proof. apply fold_addSwap_wellKeyed. split; constructor. Qed.

Lemma collected_get (plus : Q -> Q -> Q) (swaps : list Swap)
    (wallet : string) :
  wallet <> "" ->
  mapGet (fold_left (addSwap plus) swaps []) wallet
  = match valuesOf wallet swaps with
    | [] => None
    | values => Some (sumFromZero plus values)
    end.
Proof.
  intros Hw. rewrite fold_addSwap_get by exact Hw. cbn [mapGet].
  rewrite fold_addTo_None. now destruct (valuesOf _ _).
Qed.

(** X17: what [getTradersWallet] returns is a ranking: at most [topN]
    traders, volumes not increasing, every wallet listed once, none with
    an empty address. *)
Theorem getTradersWallet_ranking (plus : Q -> Q -> Q)
    (tokenAddress apiKey : string) (topN : nat) (fetchLoads : bool)
    (http : string -> nat -> HttpAnswer) (fuel : nat)
    (traders : list TraderVolume) :
  getTradersWallet plus tokenAddress apiKey topN fetchLoads http fuel
  = Some traders ->
  (List.length traders <= topN)%nat
  /\ descending volumeUsd traders
  /\ NoDup (map walletAddress traders)
  /\ Forall (fun trader => walletAddress trader <> "") traders.
Proof.
  intros H. apply getTradersWallet_board in H.
  destruct H as (m & -> & Hm).
  assert (Hkeyed : wellKeyed m).
  { destruct Hm as [->|[_ ->]]; [split; constructor|].
    apply collected_wellKeyed. }
  destruct Hkeyed as [Hnd Hne].
  split; [|split; [|split]].
  - rewrite length_map. unfold topByVolume. apply firstn_le_length.
  - apply descending_traders, descending_firstn, sortByVolume_descending.
  - rewrite map_map. cbn [traderOfEntry walletAddress].
    change (fun x : string * Q => fst x) with (@fst string Q).
    unfold topByVolume. rewrite <- firstn_map. apply NoDup_firstn.
    eapply Permutation_NoDup; [|exact Hnd].
    symmetry. apply Permutation_map, sortByVolume_perm.
  - apply Forall_map. apply Forall_forall. intros e He.
    apply topByVolume_In in He.
    exact (proj1 (Forall_forall _ _) Hne e He).
Qed.

Lemma getTradersWallet_ranking_witness :
  (List.length [mkTrader "B" (300 # 1); mkTrader "A" (205 # 2)] <= 2)%nat
  /\ descending volumeUsd [mkTrader "B" (300 # 1); mkTrader "A" (205 # 2)]
  /\ NoDup (map walletAddress
              [mkTrader "B" (300 # 1); mkTrader "A" (205 # 2)])
  /\ Forall (fun trader => walletAddress trader <> "")
       [mkTrader "B" (300 # 1); mkTrader "A" (205 # 2)].
Proof.
  apply (getTradersWallet_ranking Qplus "MINT" "KEY" 2 true httpTwoPages 5).
  reflexivity.
Defined.

(** X18: the volume of each trader returned by [getTradersWallet] is the
    sum, from 0 and in the order read, of the numeric [totalValueUsd] of
    that wallet's swaps on the pages gone through, and each returned
    wallet has at least one such swap. *)
Theorem getTradersWallet_volume (plus : Q -> Q -> Q)
    (tokenAddress apiKey : string) (topN : nat) (fetchLoads : bool)
    (http : string -> nat -> HttpAnswer) (fuel : nat)
    (traders : list TraderVolume) (trader : TraderVolume) :
  getTradersWallet plus tokenAddress apiKey topN fetchLoads http fuel
  = Some traders ->
  In trader traders ->
  valuesOf (walletAddress trader) (swapsRead http fuel "" 0) <> []
  /\ volumeUsd trader
     = sumFromZero plus
         (valuesOf (walletAddress trader) (swapsRead http fuel "" 0)).
Proof.
  intros H Hin. apply getTradersWallet_board in H.
  destruct H as (m & -> & Hm).
  apply in_map_iff in Hin. destruct Hin as [[wallet volume] [<- Hin]].
  cbn [traderOfEntry fst snd walletAddress volumeUsd].
  apply topByVolume_In in Hin.
  destruct Hm as [->|[_ ->]]; [destruct Hin|].
  destruct (collected_wellKeyed plus (swapsRead http fuel "" 0))
    as [Hnd Hne].
  assert (Hw : wallet <> "")
    by exact (proj1 (Forall_forall _ _) Hne _ Hin).
  pose proof (collected_get plus (swapsRead http fuel "" 0) wallet Hw)
    as Hget.
  rewrite (In_mapGet _ _ _ Hnd Hin) in Hget.
  destruct (valuesOf wallet (swapsRead http fuel "" 0)) as [|first others];
    [discriminate|].
  injection Hget as ->. split; [discriminate|reflexivity].
Qed.

Lemma getTradersWallet_volume_witness :
  valuesOf "A" (swapsRead httpTwoPages 5 "" 0) <> []
  /\ (205 # 2)
     = sumFromZero Qplus (valuesOf "A" (swapsRead httpTwoPages 5 "" 0)).
Proof.
  apply (getTradersWallet_volume Qplus "MINT" "KEY" 2 true httpTwoPages 5
           [mkTrader "B" (300 # 1); mkTrader "A" (205 # 2)]
           (mkTrader "A" (205 # 2))).
  - reflexivity.
  - right. left. reflexivity.
Defined.

(** X19: [getTradersWallet] leaves out no wallet that belongs to the top:
    a wallet with a counted swap on the pages gone through is returned
    with its total, unless [topN] traders are returned and each of them
    has at least that total. *)
Theorem getTradersWallet_top (plus : Q -> Q -> Q)
    (tokenAddress apiKey : string) (topN : nat)
    (http : string -> nat -> HttpAnswer) (fuel : nat)
    (traders : list TraderVolume) (wallet : string) :
  tokenAddress <> "" -> apiKey <> "" -> wallet <> "" ->
  getTradersWallet plus tokenAddress apiKey topN true http fuel
  = Some traders ->
  valuesOf wallet (swapsRead http fuel "" 0) <> [] ->
  let total :=
    sumFromZero plus (valuesOf wallet (swapsRead http fuel "" 0)) in
  In (mkTrader wallet total) traders
  \/ (List.length traders = topN
      /\ forall trader, In trader traders ->
                        (total <= volumeUsd trader)%Q).
Proof.
  intros Htok Hkey Hw H Hvals total. subst total.
  unfold getTradersWallet in H.
  destruct (String.eqb_spec apiKey ""); [contradiction|].
  destruct (String.eqb_spec tokenAddress ""); [contradiction|].
  apply collectWallets_board in H. subst traders.
  pose proof (collected_get plus (swapsRead http fuel "" 0) wallet Hw)
    as Hget.
  destruct (valuesOf wallet (swapsRead http fuel "" 0)) as [|v rest] eqn:Ev;
    [contradiction|].
  apply mapGet_In in Hget.
  destruct (topByVolume_complete snd topN _ _ Hget) as [Htop|[Hlen Hall]].
  - left. apply in_map_iff. exists (wallet, sumFromZero plus (v :: rest)).
    split; [reflexivity|exact Htop].
  - right. split; [now rewrite length_map|].
    intros trader Ht. apply in_map_iff in Ht.
    destruct Ht as [e [<- He]]. exact (Hall e He).
Qed.

Lemma getTradersWallet_top_witness :
  In (mkTrader "C" (sumFromZero Qplus
                      (valuesOf "C" (swapsRead httpTwoPages 5 "" 0))))
     [mkTrader "B" (300 # 1); mkTrader "A" (205 # 2)]
  \/ (List.length [mkTrader "B" (300 # 1); mkTrader "A" (205 # 2)] = 2%nat
      /\ forall trader,
           In trader [mkTrader "B" (300 # 1); mkTrader "A" (205 # 2)] ->
           (sumFromZero Qplus (valuesOf "C" (swapsRead httpTwoPages 5 "" 0))
            <= volumeUsd trader)%Q).
Proof.
  apply (getTradersWallet_top Qplus "MINT" "KEY" 2 httpTwoPages 5
           [mkTrader "B" (300 # 1); mkTrader "A" (205 # 2)] "C").
  - discriminate.
  - discriminate.
  - discriminate.
  - reflexivity.
  - vm_compute. discriminate.
Defined.

Lemma collectLoop_ends (plus : Q -> Q -> Q) (fetchLoads : bool)
    (http : string -> nat -> HttpAnswer) (bound : nat) :
  (forall cursor i response,
      (bound <= i)%nat -> http cursor i = Page response ->
      cursorOf response = "") ->
  forall fuel cursor call m,
    (bound <= fuel + call)%nat ->
    exists e,
      collectLoop plus fetchLoads http (S fuel) cursor call m = Some e.
Proof.
  intros Hlast. destruct fetchLoads; [|intros; cbn; eauto].
  induction fuel as [|fuel IH]; intros cursor call m Hle.
  - cbn [collectLoop fetchSwaps].
    destruct (fetchLoop http cursor call 2) as [data next] eqn:Ef.
    apply fetchLoop_next in Ef. destruct Ef as [_ [->|[i [Hi Hp]]]].
    + cbn. eauto.
    + cbv zeta. rewrite (Hlast cursor i data) by (lia || exact Hp).
      cbn. eauto.
  - remember (S fuel) as fuel1. cbn [collectLoop fetchSwaps].
    destruct (fetchLoop http cursor call 2) as [data next] eqn:Ef.
    apply fetchLoop_next in Ef. destruct Ef as [Hnext _].
    cbv zeta. destruct (String.eqb (cursorOf data) ""); [eauto|].
    subst fuel1. apply IH. lia.
Qed.

(** X20: [getTradersWallet] returns as soon as the API stops naming a next
    page: when no page served from request number [bound] on carries a
    cursor, the loop ends within [bound + 1] pages, whatever else the API
    answers or fails to answer. *)
Theorem getTradersWallet_returns (plus : Q -> Q -> Q)
    (tokenAddress apiKey : string) (topN : nat) (fetchLoads : bool)
    (http : string -> nat -> HttpAnswer) (bound fuel : nat) :
  (forall cursor i response,
      (bound <= i)%nat -> http cursor i = Page response ->
      cursorOf response = "") ->
  (bound < fuel)%nat ->
  exists traders,
    getTradersWallet plus tokenAddress apiKey topN fetchLoads http fuel
    = Some traders.
Proof.
  intros Hlast Hfuel. unfold getTradersWallet, collectWallets.
  destruct (String.eqb apiKey ""); [eauto|].
  destruct (String.eqb tokenAddress ""); [eauto|].
  destruct fuel as [|fuel]; [lia|].
  destruct (collectLoop_ends plus fetchLoads http bound Hlast fuel ""
              0%nat []) as [e ->]; [lia|].
  destruct e as [m|m]; [eauto|].
  destruct (0 <? List.length m)%nat; eauto.
Qed.

Lemma getTradersWallet_returns_witness :
  exists traders,
    getTradersWallet Qplus "MINT" "KEY" 10 true httpLastFromTwo 3
    = Some traders.
Proof.
  apply (getTradersWallet_returns Qplus "MINT" "KEY" 10 true
           httpLastFromTwo 2 3).
  - intros cursor i response Hi.
    destruct i as [|i]; [lia|]. destruct i as [|i]; [lia|].
    cbn. intros [= <-]. reflexivity.
  - lia.
Defined.

Lemma collectLoop_never_ends (plus : Q -> Q -> Q)
    (http : string -> nat -> HttpAnswer) :
  (forall cursor i, exists response,
      http cursor i = Page response /\ cursorOf response <> "") ->
  forall fuel cursor call m,
    collectLoop plus true http fuel cursor call m = None.
Proof.
  intros Hmore. induction fuel as [|fuel IH]; intros cursor call m;
    cbn [collectLoop fetchSwaps]; [reflexivity|].
  rewrite fetchLoop_run.
  destruct (Hmore cursor call) as [response [-> Hc]].
  cbv zeta.
  destruct (String.eqb_spec (cursorOf response) ""); [contradiction|].
  apply IH.
Qed.

(** X21: the page loop of [getTradersWallet] has no bound of its own:
    against an API that names a next page on every request, the call
    does not return, however many pages it is given. *)
Theorem getTradersWallet_no_page_limit (plus : Q -> Q -> Q)
    (tokenAddress apiKey : string) (topN : nat)
    (http : string -> nat -> HttpAnswer) (fuel : nat) :
  tokenAddress <> "" -> apiKey <> "" ->
  (forall cursor i, exists response,
      http cursor i = Page response /\ cursorOf response <> "") ->
  getTradersWallet plus tokenAddress apiKey topN true http fuel = None.
Proof.
  intros Htok Hkey Hmore. unfold getTradersWallet, collectWallets.
  destruct (String.eqb_spec apiKey ""); [contradiction|].
  destruct (String.eqb_spec tokenAddress ""); [contradiction|].
  now rewrite collectLoop_never_ends.
Qed.

Lemma getTradersWallet_no_page_limit_witness :
  getTradersWallet Qplus "MINT" "KEY" 10 true httpEndless 50 = None.
Proof.
  apply (getTradersWallet_no_page_limit Qplus "MINT" "KEY" 10 httpEndless 50).
  - discriminate.
  - discriminate.
  - intros cursor i. eexists. split; [reflexivity|discriminate].
Defined.

(** X22: when the first two requests give no valid page (the API is down,
    the key is refused, the body is malformed), [getTradersWallet]
    returns the empty list instead of failing. *)
Theorem getTradersWallet_api_down (plus : Q -> Q -> Q)
    (tokenAddress apiKey : string) (topN : nat) (fetchLoads : bool)
    (http : string -> nat -> HttpAnswer) (fuel : nat) :
  (forall response, http "" 0%nat <> Page response) ->
  (forall response, http "" 1%nat <> Page response) ->
  (0 < fuel)%nat ->
  getTradersWallet plus tokenAddress apiKey topN fetchLoads http fuel
  = Some [].
Proof.
  intros H0 H1 Hfuel. unfold getTradersWallet, collectWallets.
  destruct (String.eqb apiKey ""); [reflexivity|].
  destruct (String.eqb tokenAddress ""); [reflexivity|].
  destruct fuel as [|fuel]; [lia|].
  destruct fetchLoads; [|reflexivity]. cbn [collectLoop fetchSwaps].
  rewrite fetchLoop_run.
  destruct (http "" 0%nat) as [|s0| |r0] eqn:E0;
    try (exfalso; exact (H0 r0 eq_refl));
    (destruct (http "" 1%nat) as [|s1| |r1] eqn:E1;
     try (exfalso; exact (H1 r1 eq_refl)); now destruct topN).
Qed.

Lemma getTradersWallet_api_down_witness :
  getTradersWallet Qplus "MINT" "KEY" 10 true httpDown 1 = Some [].
Proof.
  apply (getTradersWallet_api_down Qplus "MINT" "KEY" 10 true httpDown 1).
  - discriminate.
  - discriminate.
  - lia.
Defined.

(** * Properties of the leaderboard lookup *)

Lemma addTokenData_wellKeyed (plus : Q -> Q -> Q)
    (m : list (string * WalletTotal)) (swap : TokenData) :
  wellKeyed m -> wellKeyed (addTokenData plus m swap).
Proof.
  intros [Hnd Hne]. unfold addTokenData.
  destruct (tokenTotalValueUsd swap) as [value|]; [|now split].
  destruct (String.eqb_spec (tokenWalletAddress swap) ""); [now split|].
  destruct (mapGet m (tokenWalletAddress swap));
    (split; [now apply mapSet_NoDup|now apply mapSet_no_empty_key]).
Qed.

Lemma fold_addTokenData_wellKeyed (plus : Q -> Q -> Q) (swaps : list TokenData)
    (m : list (string * WalletTotal)) :
  wellKeyed m -> wellKeyed (fold_left (addTokenData plus) swaps m).
Proof.
  revert m. induction swaps as [|s rest IH]; intros m H; cbn [fold_left];
    [exact H|]. apply IH, addTokenData_wellKeyed, H.
Qed.

Lemma countedOf_app (wallet : string) (l1 l2 : list TokenData) :
  countedOf wallet (l1 ++ l2) = countedOf wallet l1 ++ countedOf wallet l2.
Proof. unfold countedOf. apply flat_map_app. Qed.

Lemma addTokenData_get (plus : Q -> Q -> Q) (m : list (string * WalletTotal))
    (swap : TokenData) (wallet : string) :
  wallet <> "" ->
  mapGet (addTokenData plus m swap) wallet
  = fold_left (countSwap plus) (countedOf wallet [swap]) (mapGet m wallet).
Proof.
  intros Hw. unfold addTokenData, countedOf. cbn [flat_map].
  destruct (tokenTotalValueUsd swap) as [value|]; [|reflexivity].
  destruct (String.eqb_spec (tokenWalletAddress swap) "") as [He|Hne].
  - rewrite He. destruct (String.eqb_spec "" wallet); [congruence|reflexivity].
  - destruct (String.eqb_spec (tokenWalletAddress swap) wallet) as [->|Hother].
    + cbn. destruct (mapGet m wallet); now rewrite mapGet_mapSet_same.
    + cbn. destruct (mapGet m (tokenWalletAddress swap));
        now apply mapGet_mapSet_other.
Qed.

Lemma fold_addTokenData_get (plus : Q -> Q -> Q) (swaps : list TokenData)
    (m : list (string * WalletTotal)) (wallet : string) :
  wallet <> "" ->
  mapGet (fold_left (addTokenData plus) swaps m) wallet
  = fold_left (countSwap plus) (countedOf wallet swaps) (mapGet m wallet).
Proof.
  intros Hw. revert m. induction swaps as [|s rest IH]; intros m.
  - reflexivity.
  - cbn [fold_left]. rewrite IH, (addTokenData_get plus m s wallet Hw).
    change (s :: rest) with ([s] ++ rest).
    now rewrite countedOf_app, fold_left_app.
Qed.

Lemma last_cons_default {A : Type} (a d d' : A) (l : list A) :
  last (a :: l) d = last (a :: l) d'.
Proof.
  revert a. induction l as [|b l IH]; intros a; [reflexivity|].
  change (last (b :: l) d = last (b :: l) d'). apply IH.
Qed.

Lemma last_cons_cons_eq {A : Type} (a b d : A) (l : list A) :
  last (a :: b :: l) d = last (b :: l) a.
Proof.
  change (last (b :: l) d = last (b :: l) a). apply last_cons_default.
Qed.

Lemma fold_countSwap_Some (plus : Q -> Q -> Q) (counted : list (Q * string))
    (total : WalletTotal) :
  fold_left (countSwap plus) counted (Some total)
  = Some (mkWalletTotal
            (fold_left plus (map fst counted) (totalVolumeUsd total))
            (last (map snd counted) (lastTransactionHash total))).
Proof.
  revert total. induction counted as [|[v h] rest IH]; intros total.
  - now destruct total.
  - cbn [fold_left].
    change (countSwap plus (Some total) (v, h))
      with (Some (mkWalletTotal (plus (totalVolumeUsd total) v) h)).
    rewrite IH. cbn [map fst snd fold_left totalVolumeUsd
      lastTransactionHash]. f_equal. f_equal.
    destruct rest as [|[v' h'] rest]; [reflexivity|].
    cbn [map snd]. now rewrite last_cons_cons_eq.
Qed.

Lemma fold_countSwap_None (plus : Q -> Q -> Q) (counted : list (Q * string)) :
  fold_left (countSwap plus) counted None
  = match counted with
    | [] => None
    | _ :: _ =>
        Some (mkWalletTotal (sumOfValues plus (map fst counted))
                (last (map snd counted) ""))
    end.
Proof.
  destruct counted as [|[v h] rest]; [reflexivity|].
  cbn [fold_left].
  change (countSwap plus None (v, h)) with (Some (mkWalletTotal v h)).
  rewrite fold_countSwap_Some.
  cbn [map fst snd sumOfValues totalVolumeUsd lastTransactionHash].
  f_equal. f_equal.
  destruct rest as [|[v' h'] rest]; [reflexivity|].
  cbn [map snd]. now rewrite last_cons_cons_eq.
Qed.

Lemma descending_map {A B : Type} (f : A -> B) (volumeA : A -> Q)
    (volumeB : B -> Q) (l : list A) :
  (forall a, volumeB (f a) = volumeA a) ->
  descending volumeA l -> descending volumeB (map f l).
Proof.
  intros Hf. unfold descending.
  induction 1 as [|e rest Hs IH Hall]; cbn [map]; constructor; [exact IH|].
  apply Forall_map. rewrite Hf.
  eapply Forall_impl; [|exact Hall]. cbn. intros a Ha. now rewrite Hf.
Qed.

Lemma pageLoop_tokensRead (plus : Q -> Q -> Q)
    (http : string -> nat -> option TokenPage) (fuel : nat) (cursor : string)
    (call : nat) (m : list (string * WalletTotal)) (e : LoopEnd) :
  pageLoop plus http fuel cursor call m = Some e ->
  mapAtEnd e
  = fold_left (addTokenData plus) (tokensRead http fuel cursor call) m.
Proof.
  revert cursor call m. induction fuel as [|fuel IH]; intros cursor call m;
    cbn [pageLoop tokensRead]; [discriminate|].
  destruct (http cursor call) as [data|]; [|now intros [= <-]].
  destruct (String.eqb (pageCursorOf data) "").
  - now intros [= <-].
  - intros H. apply IH in H. now rewrite fold_left_app.
Qed.

Lemma CollectWallet_board (plus : Q -> Q -> Q) (apiKey : string)
    (http : string -> nat -> option TokenPage) (fuel : nat)
    (board : list LeaderboardEntry) :
  CollectWallet plus apiKey http fuel = Some board ->
  board
  = leaderboardOf
      (if String.eqb apiKey "" then []
       else fold_left (addTokenData plus) (tokensRead http fuel "" 0) []).
Proof.
  unfold CollectWallet. destruct (String.eqb apiKey "").
  - now intros [= <-].
  - destruct (pageLoop plus http fuel "" 0 []) as [e|] eqn:He; [|discriminate].
    apply pageLoop_tokensRead in He. rewrite <- He.
    destruct e as [m|m]; cbn [mapAtEnd].
    + now intros [= <-].
    + destruct m; cbn [List.length Nat.ltb Nat.leb]; now intros [= <-].
Qed.

Lemma collected_board_wellKeyed (plus : Q -> Q -> Q) (apiKey : string)
    (http : string -> nat -> option TokenPage) (fuel : nat) :
  wellKeyed
    (if String.eqb apiKey "" then []
     else fold_left (addTokenData plus) (tokensRead http fuel "" 0) []).
Proof.
  destruct (String.eqb apiKey "").
  - split; constructor.
  - apply fold_addTokenData_wellKeyed. split; constructor.
Qed.

(** X23: what [CollectWallet] returns is a ranking: at most 10 entries,
    volumes not increasing, every wallet listed once, none with an empty
    address; this also when a request failed on the way. *)
Theorem CollectWallet_ranking (plus : Q -> Q -> Q) (apiKey : string)
    (http : string -> nat -> option TokenPage) (fuel : nat)
    (board : list LeaderboardEntry) :
  CollectWallet plus apiKey http fuel = Some board ->
  (List.length board <= 10)%nat
  /\ descending leaderVolumeUsd board
  /\ NoDup (map leaderWalletAddress board)
  /\ Forall (fun entry => leaderWalletAddress entry <> "") board.
Proof.
  intros H. apply CollectWallet_board in H. subst board.
  destruct (collected_board_wellKeyed plus apiKey http fuel) as [Hnd Hne].
  set (m := if String.eqb apiKey "" then [] else _) in *.
  unfold leaderboardOf. split; [|split; [|split]].
  - rewrite length_map. unfold topByVolume. apply firstn_le_length.
  - apply (descending_map leaderOfEntry
             (fun entry => totalVolumeUsd (snd entry))); [reflexivity|].
    apply descending_firstn, sortByVolume_descending.
  - rewrite map_map. cbn [leaderOfEntry leaderWalletAddress].
    change (fun x : string * WalletTotal => fst x)
      with (@fst string WalletTotal).
    unfold topByVolume. rewrite <- firstn_map. apply NoDup_firstn.
    eapply Permutation_NoDup; [|exact Hnd].
    symmetry. apply Permutation_map, sortByVolume_perm.
  - apply Forall_map. apply Forall_forall. intros e He.
    apply topByVolume_In in He.
    exact (proj1 (Forall_forall _ _) Hne e He).
Qed.

Lemma CollectWallet_ranking_witness :
  (List.length [mkLeaderboardEntry "A" (205 # 2) "h4";
                mkLeaderboardEntry "B" (50 # 1) "h2"] <= 10)%nat
  /\ descending leaderVolumeUsd
       [mkLeaderboardEntry "A" (205 # 2) "h4";
        mkLeaderboardEntry "B" (50 # 1) "h2"]
  /\ NoDup (map leaderWalletAddress
              [mkLeaderboardEntry "A" (205 # 2) "h4";
               mkLeaderboardEntry "B" (50 # 1) "h2"])
  /\ Forall (fun entry => leaderWalletAddress entry <> "")
       [mkLeaderboardEntry "A" (205 # 2) "h4";
        mkLeaderboardEntry "B" (50 # 1) "h2"].
Proof.
  apply (CollectWallet_ranking Qplus "KEY" leaderPages 5). reflexivity.
Defined.

(** X24: each entry returned by [CollectWallet] carries the sum, in the
    order read, of the numeric [totalValueUsd] of the wallet's swaps on
    the pages gone through, and the [transactionHash] of the last of
    these swaps in that order. *)
Theorem CollectWallet_entry (plus : Q -> Q -> Q) (apiKey : string)
    (http : string -> nat -> option TokenPage) (fuel : nat)
    (board : list LeaderboardEntry) (entry : LeaderboardEntry) :
  CollectWallet plus apiKey http fuel = Some board ->
  In entry board ->
  let counted :=
    countedOf (leaderWalletAddress entry) (tokensRead http fuel "" 0) in
  counted <> []
  /\ leaderVolumeUsd entry = sumOfValues plus (map fst counted)
  /\ leaderTransactionHash entry = last (map snd counted) "".
Proof.
  intros H Hin counted. subst counted.
  apply CollectWallet_board in H. subst board.
  destruct (collected_board_wellKeyed plus apiKey http fuel) as [Hnd Hne].
  revert Hin Hnd Hne. destruct (String.eqb apiKey ""); [intros []|].
  intros Hin Hnd Hne.
  apply in_map_iff in Hin. destruct Hin as [[wallet total] [<- Hin]].
  cbn [leaderOfEntry fst snd leaderWalletAddress leaderVolumeUsd
         leaderTransactionHash].
  apply topByVolume_In in Hin.
  assert (Hw : wallet <> "")
    by exact (proj1 (Forall_forall _ _) Hne _ Hin).
  pose proof (In_mapGet _ _ _ Hnd Hin) as Hget.
  rewrite fold_addTokenData_get in Hget by exact Hw. cbn [mapGet] in Hget.
  rewrite fold_countSwap_None in Hget.
  destruct (countedOf wallet (tokensRead http fuel "" 0)) as [|c others];
    [discriminate|].
  injection Hget as <-. cbn [totalVolumeUsd lastTransactionHash].
  split; [discriminate|split; reflexivity].
Qed.

Lemma CollectWallet_entry_witness :
  countedOf "A" (tokensRead leaderPages 5 "" 0) <> []
  /\ (205 # 2)
     = sumOfValues Qplus
         (map fst (countedOf "A" (tokensRead leaderPages 5 "" 0)))
  /\ "h4" = last (map snd (countedOf "A" (tokensRead leaderPages 5 "" 0))) "".
Proof.
  apply (CollectWallet_entry Qplus "KEY" leaderPages 5
           [mkLeaderboardEntry "A" (205 # 2) "h4";
            mkLeaderboardEntry "B" (50 # 1) "h2"]
           (mkLeaderboardEntry "A" (205 # 2) "h4")).
  - reflexivity.
  - left. reflexivity.
Defined.

Lemma pageLoop_ends (plus : Q -> Q -> Q)
    (http : string -> nat -> option TokenPage) (k : nat) :
  (forall cursor page, http cursor k = Some page -> pageCursorOf page = "") ->
  forall fuel cursor call m,
    (call <= k < fuel + call)%nat ->
    exists e, pageLoop plus http fuel cursor call m = Some e.
Proof.
  intros Hk. induction fuel as [|fuel IH]; intros cursor call m Hle; [lia|].
  cbn [pageLoop]. destruct (http cursor call) as [data|] eqn:Eh; [|eauto].
  destruct (String.eqb_spec (pageCursorOf data) "") as [|Hc]; [eauto|].
  assert (call <> k) by (intros ->; apply Hc; eapply Hk; eauto).
  apply IH. lia.
Qed.

(** X25: [CollectWallet] makes one request per page and never fails: it
    returns once request number [k] either fails or serves a page without
    a cursor, with the ranking of what was read until then. *)
Theorem CollectWallet_returns (plus : Q -> Q -> Q) (apiKey : string)
    (http : string -> nat -> option TokenPage) (k fuel : nat) :
  (forall cursor page, http cursor k = Some page -> pageCursorOf page = "") ->
  (k < fuel)%nat ->
  CollectWallet plus apiKey http fuel
  = Some (leaderboardOf
            (if String.eqb apiKey "" then []
             else fold_left (addTokenData plus)
                    (tokensRead http fuel "" 0) [])).
Proof.
  intros Hk Hfuel.
  destruct (CollectWallet plus apiKey http fuel) as [board|] eqn:E.
  - now rewrite (CollectWallet_board _ _ _ _ _ E).
  - exfalso. unfold CollectWallet in E.
    destruct (String.eqb apiKey ""); [discriminate|].
    destruct (pageLoop_ends plus http k Hk fuel "" 0%nat []) as [e He];
      [lia|].
    rewrite He in E. destruct e as [m|m]; [discriminate|].
    destruct (0 <? List.length m)%nat; discriminate.
Qed.

Lemma CollectWallet_returns_witness :
  CollectWallet Qplus "KEY" leaderPages 3
  = Some (leaderboardOf
            (fold_left (addTokenData Qplus) (tokensRead leaderPages 3 "" 0)
               [])).
Proof.
  apply (CollectWallet_returns Qplus "KEY" leaderPages 2 3).
  - intros cursor page. cbn. discriminate.
  - lia.
Defined.

(** X26: [CollectWallet] leaves out no wallet that belongs to the top ten:
    a wallet with a counted swap on the pages gone through is returned,
    unless ten entries are returned and each of them has at least that
    wallet's total. *)
Theorem CollectWallet_top (plus : Q -> Q -> Q) (apiKey : string)
    (http : string -> nat -> option TokenPage) (fuel : nat)
    (board : list LeaderboardEntry) (wallet : string) :
  apiKey <> "" -> wallet <> "" ->
  CollectWallet plus apiKey http fuel = Some board ->
  countedOf wallet (tokensRead http fuel "" 0) <> [] ->
  let total :=
    sumOfValues plus
      (map fst (countedOf wallet (tokensRead http fuel "" 0))) in
  In wallet (map leaderWalletAddress board)
  \/ (List.length board = 10%nat
      /\ forall entry, In entry board ->
                       (total <= leaderVolumeUsd entry)%Q).
Proof.
  intros Hkey Hw H Hcounted total. subst total.
  apply CollectWallet_board in H. subst board.
  destruct (String.eqb_spec apiKey ""); [contradiction|].
  set (m := fold_left _ _ _).
  assert (Hget : mapGet m wallet
                 = Some (mkWalletTotal
                           (sumOfValues plus
                              (map fst (countedOf wallet
                                          (tokensRead http fuel "" 0))))
                           (last (map snd (countedOf wallet
                                             (tokensRead http fuel "" 0)))
                              ""))).
  { unfold m. rewrite fold_addTokenData_get by exact Hw. cbn [mapGet].
    rewrite fold_countSwap_None.
    destruct (countedOf wallet (tokensRead http fuel "" 0));
      [contradiction|reflexivity]. }
  apply mapGet_In in Hget.
  destruct (topByVolume_complete (fun entry => totalVolumeUsd (snd entry))
              leaderboardTopN m _ Hget) as [Htop|[Hlen Hall]].
  - left. unfold leaderboardOf. rewrite map_map. apply in_map_iff.
    eexists. split; [|exact Htop]. reflexivity.
  - right. unfold leaderboardOf. split; [now rewrite length_map|].
    intros entry He. apply in_map_iff in He.
    destruct He as [e [<- He]]. exact (Hall e He).
Qed.

Lemma CollectWallet_top_witness :
  In "B" (map leaderWalletAddress
            [mkLeaderboardEntry "A" (205 # 2) "h4";
             mkLeaderboardEntry "B" (50 # 1) "h2"])
  \/ (List.length [mkLeaderboardEntry "A" (205 # 2) "h4";
                   mkLeaderboardEntry "B" (50 # 1) "h2"] = 10%nat
      /\ forall entry,
           In entry [mkLeaderboardEntry "A" (205 # 2) "h4";
                     mkLeaderboardEntry "B" (50 # 1) "h2"] ->
           (sumOfValues Qplus
              (map fst (countedOf "B" (tokensRead leaderPages 5 "" 0)))
            <= leaderVolumeUsd entry)%Q).
Proof.
  apply (CollectWallet_top Qplus "KEY" leaderPages 5
           [mkLeaderboardEntry "A" (205 # 2) "h4";
            mkLeaderboardEntry "B" (50 # 1) "h2"] "B").
  - discriminate.
  - discriminate.
  - reflexivity.
  - vm_compute. discriminate.
Defined.
